(** * Obsidian sync server: conflict resolution, file locks, chunked
      uploads and the write queue

    A shallow embedding of the server-side sync engine
    (obsidian-sync-server/src/modules/sync and modules/storage) and of
    the plugin's chunk manager (obsidian-auto-sync-plugin/src/upload), and the
    properties of its specification that were checked against it.

    Conventions of the embedding:
    - a millisecond timestamp is a [Z]; so is a date that the server clock
      or the database returns, which is never an Invalid Date.  The date
      built from a number a client sent is a [JsDate.t], an Invalid Date
      when the number is out of range, and comparing it follows JavaScript.
      A date column of the database keeps the number the written date was
      built from: what the database client does with an Invalid Date is
      not in the sources;
    - the values the server clock returns ([new Date()], [Date.now()]) are
      parameters of the function that reads it, one per read;
    - an optional field ([x?: T]) is an [option]; a test [if (x)] on it is
      the JavaScript truthiness of the value ([truthy_string],
      [truthy_number], [truthy_bool], [truthy_object]);
    - a [Buffer] is a [list byte]; a JavaScript string is held as the
      [string] of its UTF-8 bytes;
    - a [Map] is a [gmap]; a Prisma table looked up on a unique column is a
      [gmap] from that column, a table that is searched is the list of its
      rows;
    - a thrown exception is the [inl] of a sum; a Prisma transaction whose
      body throws leaves the database as it was.  Database and file-system
      calls fail only where the model says so: the statements of a
      transaction succeed, the file system fails as [fsError] tells;
    - calls to the logger are left out. *)

From Stdlib Require Import ZArith List Bool Lia.
From Stdlib Require Import Strings.String Strings.Ascii Strings.Byte.
From stdpp Require Import base option list gmap strings pretty.

Local Open Scope string_scope.
Local Open Scope Z_scope.

(* ===================================================================== *)
(** * Node's [crypto] and [Buffer] primitives used by the server *)
(* ===================================================================== *)

(** [createHash('sha256').update(data).digest('hex')]: SHA-256 (FIPS 180-4)
    over a sequence of bytes, printed as 64 lower-case hexadecimal digits. *)
Module SHA256.

Definition w32 (x : Z) : Z := Z.land x 0xffffffff.
Definition add32 (x y : Z) : Z := w32 (x + y).
Definition rotr (n x : Z) : Z :=
  Z.lor (Z.shiftr x n) (w32 (Z.shiftl x (32 - n))).
Definition shr (n x : Z) : Z := Z.shiftr x n.

Definition Ch (x y z : Z) : Z :=
  Z.lxor (Z.land x y) (Z.land (Z.lxor x 0xffffffff) z).
Definition Maj (x y z : Z) : Z :=
  Z.lxor (Z.lxor (Z.land x y) (Z.land x z)) (Z.land y z).
Definition Sigma0 (x : Z) : Z :=
  Z.lxor (Z.lxor (rotr 2 x) (rotr 13 x)) (rotr 22 x).
Definition Sigma1 (x : Z) : Z :=
  Z.lxor (Z.lxor (rotr 6 x) (rotr 11 x)) (rotr 25 x).
Definition sigma0 (x : Z) : Z :=
  Z.lxor (Z.lxor (rotr 7 x) (rotr 18 x)) (shr 3 x).
Definition sigma1 (x : Z) : Z :=
  Z.lxor (Z.lxor (rotr 17 x) (rotr 19 x)) (shr 10 x).

(** The integer [k]-th root, found bit by bit from the top. *)
Fixpoint iroot (k : Z) (bits : nat) (x r : Z) : Z :=
  match bits with
  | O => r
  | S b =>
      let r' := r + Z.shiftl 1 (Z.of_nat b) in
      iroot k b x (if r' ^ k <=? x then r' else r)
  end.

(** The first 32 bits of the fractional part of the [k]-th root of [p]. *)
Definition root_fraction (k p : Z) : Z :=
  w32 (iroot k 40 (Z.shiftl p (32 * k)) 0).

Definition is_prime (p : Z) : bool :=
  List.forallb (fun d => negb (p mod d =? 0)) (seqZ 2 (p - 2)).

(** The first 64 prime numbers. *)
Definition primes : list Z :=
  Eval vm_compute in List.firstn 64 (List.filter is_prime (seqZ 2 400)).

(** The round constants: the fractional parts of the cube roots of the
    first 64 primes. *)
Definition K : list Z :=
  Eval vm_compute in List.map (root_fraction 3) primes.

(** The initial hash value: the fractional parts of the square roots of the
    first 8 primes. *)
Definition H0 : list Z :=
  Eval vm_compute in List.map (root_fraction 2) (List.firstn 8 primes).

(** Big-endian bytes of a number, [n] of them. *)
Fixpoint be_bytes (n : nat) (x : Z) : list Z :=
  match n with
  | O => []
  | S n' => Z.land (Z.shiftr x (8 * Z.of_nat n')) 0xff :: be_bytes n' x
  end.

(** The message followed by 0x80, zeroes up to 56 mod 64, and its length
    in bits on 8 bytes. *)
Definition pad (msg : list Z) : list Z :=
  let len := Z.of_nat (List.length msg) in
  let zeros := Z.to_nat ((55 - len) mod 64) in
  msg ++ 0x80 :: List.repeat 0 zeros ++ be_bytes 8 (8 * len).

Fixpoint words (n : nat) (bs : list Z) : list Z :=
  match n with
  | O => []
  | S n' =>
      match bs with
      | a :: b :: c :: d :: rest =>
          (Z.shiftl a 24 + Z.shiftl b 16 + Z.shiftl c 8 + d) :: words n' rest
      | _ => []
      end
  end.

(** The message schedule, grown from 16 to 64 words. *)
Fixpoint schedule (n : nat) (w : list Z) : list Z :=
  match n with
  | O => w
  | S n' =>
      let t := List.length w in
      let at_ (i : nat) := List.nth (t - i) w 0 in
      let x := add32 (add32 (sigma1 (at_ 2%nat)) (at_ 7%nat))
                     (add32 (sigma0 (at_ 15%nat)) (at_ 16%nat)) in
      schedule n' (w ++ [x])
  end.

Definition regs : Type := Z * Z * Z * Z * Z * Z * Z * Z.

Definition round (r : regs) (kw : Z * Z) : regs :=
  let '(a, b, c, d, e, f, g, h) := r in
  let '(k, w) := kw in
  let t1 := add32 (add32 (add32 (add32 h (Sigma1 e)) (Ch e f g)) k) w in
  let t2 := add32 (Sigma0 a) (Maj a b c) in
  (add32 t1 t2, a, b, c, add32 d t1, e, f, g).

Definition compress (h : regs) (block : list Z) : regs :=
  let w := schedule 48 (words 16 block) in
  let '(a, b, c, d, e, f, g, i) := List.fold_left round (List.combine K w) h in
  let '(a0, b0, c0, d0, e0, f0, g0, i0) := h in
  (add32 a0 a, add32 b0 b, add32 c0 c, add32 d0 d,
   add32 e0 e, add32 f0 f, add32 g0 g, add32 i0 i).

Fixpoint blocks (n : nat) (h : regs) (bs : list Z) : regs :=
  match n with
  | O => h
  | S n' => blocks n' (compress h (List.firstn 64 bs)) (List.skipn 64 bs)
  end.

Definition hex_digit (x : Z) : ascii :=
  if x <? 10 then ascii_of_N (Z.to_N (48 + x))
  else ascii_of_N (Z.to_N (87 + x)).

Fixpoint hex_of_bytes (bs : list Z) : string :=
  match bs with
  | [] => EmptyString
  | b :: rest =>
      String (hex_digit (Z.shiftr b 4))
        (String (hex_digit (Z.land b 0xf)) (hex_of_bytes rest))
  end.

Definition digest_bytes (msg : list Z) : list Z :=
  let p := pad msg in
  match H0 with
  | [a0; b0; c0; d0; e0; f0; g0; h0] =>
      let '(a, b, c, d, e, f, g, h) :=
        blocks (Nat.div (List.length p) 64) (a0, b0, c0, d0, e0, f0, g0, h0) p in
      List.concat (List.map (be_bytes 4) [a; b; c; d; e; f; g; h])
  | _ => []
  end.

Definition hexdigest (data : list byte) : string :=
  hex_of_bytes (digest_bytes (List.map (fun b => Z.of_N (Byte.to_N b)) data)).

End SHA256.

(** A [Buffer] of the server. *)
Abbreviation Buffer := (list byte).

(** [createHash('sha256').update(chunkData).digest('hex')] on a Buffer. *)
Definition sha256_buffer (data : Buffer) : string := SHA256.hexdigest data.

(** [createHash('sha256').update(content, 'utf8').digest('hex')] on a
    string. *)
Definition sha256_string (content : string) : string :=
  SHA256.hexdigest (list_byte_of_string content).

(** [Buffer.byteLength(content, 'utf8')]. *)
Definition byteLength (content : string) : Z := Z.of_nat (String.length content).

(** [buffer.toString('base64')]. *)
Module Base64.

Definition alphabet : string :=
  "ABCDEFGHIJKLMNOPQRSTUVWXYZabcdefghijklmnopqrstuvwxyz0123456789+/".

Definition digit (x : Z) : ascii :=
  match String.get (Z.to_nat x) alphabet with
  | Some c => c
  | None => "="%char
  end.

Fixpoint encode_Z (n : nat) (bs : list Z) : string :=
  match n with
  | O => EmptyString
  | S n' =>
      match bs with
      | [] => EmptyString
      | [a] =>
          String (digit (Z.shiftr a 2))
            (String (digit (Z.shiftl (Z.land a 3) 4)) "==")
      | [a; b] =>
          String (digit (Z.shiftr a 2))
            (String (digit (Z.lor (Z.shiftl (Z.land a 3) 4) (Z.shiftr b 4)))
               (String (digit (Z.shiftl (Z.land b 15) 2)) "="))
      | a :: b :: c :: rest =>
          String (digit (Z.shiftr a 2))
            (String (digit (Z.lor (Z.shiftl (Z.land a 3) 4) (Z.shiftr b 4)))
               (String (digit (Z.lor (Z.shiftl (Z.land b 15) 2) (Z.shiftr c 6)))
                  (String (digit (Z.land c 63)) (encode_Z n' rest))))
      end
  end.

Definition encode (data : list byte) : string :=
  encode_Z (List.length data) (List.map (fun b => Z.of_N (Byte.to_N b)) data).

End Base64.


(* ===================================================================== *)
(** * JavaScript truthiness and strict comparison of optional values *)
(* ===================================================================== *)

(** [if (s)] on a [string | undefined]: the empty string and [undefined]
    are falsy. *)
Definition truthy_string (s : option string) : bool :=
  match s with
  | Some s => negb (String.eqb s "")
  | None => false
  end.

(** [if (n)] on a [number | undefined]: zero and [undefined] are falsy. *)
Definition truthy_number (n : option Z) : bool :=
  match n with
  | Some n => negb (n =? 0)
  | None => false
  end.

(** [if (b)] on a [boolean | undefined]. *)
Definition truthy_bool (b : option bool) : bool :=
  match b with
  | Some b => b
  | None => false
  end.

(** [h !== p] between a string and a [string | undefined]. *)
Definition strict_neq (h : string) (p : option string) : bool :=
  match p with
  | Some p => negb (String.eqb h p)
  | None => true
  end.

(* ===================================================================== *)
(** * JavaScript dates *)
(* ===================================================================== *)

(** A [Date] object built from a number: its time value, or [None] for an
    Invalid Date.  [new Date(n)] is an Invalid Date when [n] is more than
    8.64e15 milliseconds away from the epoch, and every comparison with an
    Invalid Date ([<], [>], [<=], [>=]) is false. *)
Module JsDate.

Definition t : Type := option Z.

Definition MAX_TIME : Z := 8640000000000000.

(** A number is in the range of a [Date]. *)
Definition in_range (n : Z) : bool := (- MAX_TIME <=? n) && (n <=? MAX_TIME).

(** [new Date(n)] for an integer [n]. *)
Definition of_number (n : Z) : t := if in_range n then Some n else None.

(** [a > b] on two dates. *)
Definition gt (a b : t) : bool :=
  match a, b with
  | Some x, Some y => x >? y
  | _, _ => false
  end.

(** [a <= b] on two dates. *)
Definition le (a b : t) : bool :=
  match a, b with
  | Some x, Some y => x <=? y
  | _, _ => false
  end.

End JsDate.

(* ===================================================================== *)
(** * conflict-resolver.service.ts *)
(* ===================================================================== *)

Module ConflictResolver.

(** The [existingFile] member of [FileConflictData]. *)
Record ExistingFile := {
  id : nat;
  hash : string;
  version : Z;
  mtime : Z;
  size : Z;
}.

Record FileConflictData := {
  vaultId : string;
  filePath : string;
  clientContent : string;
  clientHash : string;
  clientTimestamp : option Z;
  previousHash : option string;
  existingFile : option ExistingFile;
}.

Inductive Action := accept | reject | update_mtime_only | no_change.

Record ConflictResolution := {
  action : Action;
  reason : string;
  conflictType : option string;
  clientMtime : option Z;
  serverMtime : option Z;
  currentVersion : option Z;
  currentHash : option string;
  updated : option string;
}.

(** A resolution that only sets [action], [reason] and [updated]. *)
Definition plain (a : Action) (r : string) (u : option string)
  : ConflictResolution :=
  {| action := a; reason := r; conflictType := None;
     clientMtime := None; serverMtime := None;
     currentVersion := None; currentHash := None; updated := u |}.

(** The number a claimed modification time is built from: the client's
    timestamp when it is truthy, else the server clock [now].  It is the
    [message.timestamp || Date.now()] of the gateway, and the number behind
    the [data.clientTimestamp ? new Date(data.clientTimestamp) : new Date()]
    that the sync service writes as a record's modification time. *)
Definition claimedMtime (now : Z) (clientTimestamp : option Z) : Z :=
  match clientTimestamp with
  | Some t => if truthy_number (Some t) then t else now
  | None => now
  end.

(** [clientTimestamp ? new Date(clientTimestamp) : new Date()], the
    [clientMtime] of [resolveFileConflict]: the date of the client's
    timestamp, which is an Invalid Date when the timestamp is out of range,
    or the server's current date, where [now] is what [new Date()]
    returns. *)
Definition clientDate (now : Z) (clientTimestamp : option Z) : JsDate.t :=
  match clientTimestamp with
  | Some t => if truthy_number (Some t) then JsDate.of_number t else Some now
  | None => Some now
  end.

(** A client timestamp from which a date can be built: absent, or within
    the range of a [Date]. *)
Definition timestamp_in_range (clientTimestamp : option Z) : Prop :=
  forall t, clientTimestamp = Some t ->
            - JsDate.MAX_TIME <= t <= JsDate.MAX_TIME.

(** [resolveFileConflict(data)]; [now] is the server clock read on the
    line that computes [clientMtime].  The stored modification time is a
    date read from the database.  In the older_timestamp rejection
    [clientMtime.getTime()] is the time value of a date that compared as
    [<=], so not of an Invalid Date.  The logger calls are left out: they
    return nothing and do not touch the result. *)
Definition resolveFileConflict (now : Z) (data : FileConflictData)
  : ConflictResolution :=
  match existingFile data with
  | None => plain accept "Creating new file" (Some "created")
  | Some ef =>
      let clientMtime_ := clientDate now (clientTimestamp data) in
      let serverMtime_ : JsDate.t := Some (mtime ef) in
      if truthy_string (previousHash data)
         && strict_neq (hash ef) (previousHash data)
      then
        {| action := reject;
           reason := "File has been modified by another client since last read";
           conflictType := Some "hash_mismatch";
           clientMtime := None; serverMtime := None;
           currentVersion := Some (version ef);
           currentHash := Some (hash ef);
           updated := None |}
      else if String.eqb (hash ef) (clientHash data) then
        if JsDate.gt clientMtime_ serverMtime_
        then plain update_mtime_only
               "Same content, updating modification time" (Some "mtime_only")
        else plain no_change
               "Content and timestamp are up to date" (Some "no_change")
      else if negb (truthy_string (previousHash data))
              && JsDate.le clientMtime_ serverMtime_
      then
        {| action := reject;
           reason := "Client version is older than server version";
           conflictType := Some "older_timestamp";
           clientMtime := clientMtime_;
           serverMtime := serverMtime_;
           currentVersion := Some (version ef);
           currentHash := Some (hash ef);
           updated := None |}
      else
        plain accept
          "Update accepted - client version is newer or hash validation passed"
          (Some "full")
  end.

(** [resolveRenameConflict(vaultId, oldPath, newPath, existingFile,
    targetExists)]. *)
Definition resolveRenameConflict {A} (vaultId oldPath newPath : string)
    (existingFile : option A) (targetExists : option bool)
  : ConflictResolution :=
  match existingFile with
  | None =>
      {| action := reject; reason := "Cannot rename non-existent file";
         conflictType := Some "source_not_found";
         clientMtime := None; serverMtime := None;
         currentVersion := None; currentHash := None; updated := None |}
  | Some _ =>
      if truthy_bool targetExists then
        {| action := reject; reason := "Target path already exists";
           conflictType := Some "target_exists";
           clientMtime := None; serverMtime := None;
           currentVersion := None; currentHash := None; updated := None |}
      else plain accept "Rename operation is valid" None
  end.

(** [resolveDeleteConflict(vaultId, filePath, existingFile,
    hasActiveLocks)]; the last parameter is optional in the source. *)
Definition resolveDeleteConflict {A} (vaultId filePath : string)
    (existingFile : option A) (hasActiveLocks : option bool)
  : ConflictResolution :=
  match existingFile with
  | None => plain accept "File already does not exist" (Some "already_deleted")
  | Some _ =>
      if truthy_bool hasActiveLocks then
        {| action := reject;
           reason := "Cannot delete file with active locks";
           conflictType := Some "file_locked";
           clientMtime := None; serverMtime := None;
           currentVersion := None; currentHash := None; updated := None |}
      else plain accept "Delete operation is valid" None
  end.

End ConflictResolver.

(* ===================================================================== *)
(** * The metadata store (Prisma) *)
(* ===================================================================== *)

(** Rows of the four tables the sync engine reads and writes. Row ids are
    drawn from a counter kept with the database. *)

Module File.
Record t := {
  id : nat;
  vaultId : string;
  path : string;
  hash : string;
  size : Z;
  mtime : Z;
  version : Z;
}.
End File.

Module Device.
Record t := {
  id : nat;            (* the row id, referenced by locks and operations *)
  deviceId : string;   (* the id the client announces *)
  deviceName : string;
  vaultId : string;
  isOnline : bool;
  lastSeen : Z;
}.
End Device.

Module FileLock.
Record t := {
  id : nat;
  vaultId : string;
  fileId : nat;
  deviceId : nat;
  lockedAt : Z;
  expiresAt : Z;
}.
End FileLock.

Inductive OperationType := CREATE | UPDATE | DELETE | RENAME.
Inductive OperationStatus := pending | applied | conflicted | failed.

Module SyncOperation.
Record t := {
  id : nat;
  vaultId : string;
  deviceId : nat;
  operationType : OperationType;
  filePath : string;
  previousHash : option string;
  newHash : option string;
  timestamp : option Z;
  status : OperationStatus;
}.

Definition set_status (s : OperationStatus) (o : t) : t :=
  {| id := id o; vaultId := vaultId o; deviceId := deviceId o;
     operationType := operationType o; filePath := filePath o;
     previousHash := previousHash o; newHash := newHash o;
     timestamp := timestamp o; status := s |}.

Definition set_newHash (h : string) (o : t) : t :=
  {| id := id o; vaultId := vaultId o; deviceId := deviceId o;
     operationType := operationType o; filePath := filePath o;
     previousHash := previousHash o; newHash := Some h;
     timestamp := timestamp o; status := status o |}.
End SyncOperation.

(** The database. [device.findUnique({where: {deviceId}})] and
    [fileLock.findUnique({where: {fileId}})] are lookups on unique columns,
    so these two tables are maps from that column; [file.findFirst] is a
    search, so the file table is the list of its rows. *)
Record DB := {
  devices : gmap string Device.t;
  files : list File.t;
  fileLocks : gmap nat FileLock.t;
  syncOperations : list SyncOperation.t;
  nextId : nat;
}.

Definition set_files (fs : list File.t) (db : DB) : DB :=
  {| devices := devices db; files := fs; fileLocks := fileLocks db;
     syncOperations := syncOperations db; nextId := nextId db |}.

Definition set_fileLocks (ls : gmap nat FileLock.t) (db : DB) : DB :=
  {| devices := devices db; files := files db; fileLocks := ls;
     syncOperations := syncOperations db; nextId := nextId db |}.

Definition set_syncOperations (os : list SyncOperation.t) (db : DB) : DB :=
  {| devices := devices db; files := files db; fileLocks := fileLocks db;
     syncOperations := os; nextId := nextId db |}.

(** A fresh row id. *)
Definition freshId (db : DB) : nat * DB :=
  (nextId db,
   {| devices := devices db; files := files db; fileLocks := fileLocks db;
      syncOperations := syncOperations db; nextId := S (nextId db) |}).

Module Prisma.

(** [file.findFirst({where: {vaultId, path}})]. *)
Definition file_findFirst (vaultId path : string) (db : DB) : option File.t :=
  List.find
    (fun f => String.eqb (File.vaultId f) vaultId
              && String.eqb (File.path f) path)
    (files db).

(** [file.update({where: {id}, data})]: the row with that id is replaced
    by [upd] of it. *)
Definition file_update (id : nat) (upd : File.t -> File.t) (db : DB) : DB :=
  set_files
    (List.map (fun f => if Nat.eqb (File.id f) id then upd f else f) (files db))
    db.

(** [file.delete({where: {id}})]. *)
Definition file_delete (id : nat) (db : DB) : DB :=
  set_files (List.filter (fun f => negb (Nat.eqb (File.id f) id)) (files db)) db.

(** [file.create({data})]; the version column takes its default.

    Modelled from the spec: prisma/schema.prisma is not part of the
    sources; the default version is the 1 of the scenario "file absent ->
    accept/create, version=1". *)
Definition file_create (vaultId path hash : string) (size mtime : Z) (db : DB)
  : File.t * DB :=
  let '(i, db1) := freshId db in
  let f := {| File.id := i; File.vaultId := vaultId; File.path := path;
              File.hash := hash; File.size := size; File.mtime := mtime;
              File.version := 1 |} in
  (f, set_files (files db1 ++ [f]) db1).

(** [syncOperation.create({data})]. *)
Definition syncOperation_create (vaultId : string) (deviceId : nat)
    (op : OperationType) (filePath : string)
    (previousHash newHash : option string) (timestamp : option Z)
    (status : OperationStatus) (db : DB) : SyncOperation.t * DB :=
  let '(i, db1) := freshId db in
  let o := {| SyncOperation.id := i; SyncOperation.vaultId := vaultId;
              SyncOperation.deviceId := deviceId;
              SyncOperation.operationType := op;
              SyncOperation.filePath := filePath;
              SyncOperation.previousHash := previousHash;
              SyncOperation.newHash := newHash;
              SyncOperation.timestamp := timestamp;
              SyncOperation.status := status |} in
  (o, set_syncOperations (syncOperations db1 ++ [o]) db1).

(** [syncOperation.update({where: {id}, data})]. *)
Definition syncOperation_update (id : nat)
    (upd : SyncOperation.t -> SyncOperation.t) (db : DB) : DB :=
  set_syncOperations
    (List.map (fun o => if Nat.eqb (SyncOperation.id o) id then upd o else o)
       (syncOperations db))
    db.

(** [fileLock.deleteMany({where: {fileId}})]. *)
Definition fileLock_deleteMany_fileId (fileId : nat) (db : DB) : DB :=
  set_fileLocks (delete fileId (fileLocks db)) db.

End Prisma.

(** [SyncErrors.*]: the exceptions the modelled paths throw.
    [ErrorHandlerService.handleError] returns a [SyncException] it is given
    unchanged, so a [throw this.errorHandler.handleError(error, ...)] rethrows
    the same exception. *)
Inductive SyncException :=
| deviceNotFound (deviceId : string)
| internalError (message : string)
| fileTooLarge (size max : Z) (path : string)
| hashMismatch (expected actual path : string).

(** The outcome of a call that may throw. *)
Definition Result (A : Type) : Type := SyncException + A.

(** The settings read through [ConfigService]. *)
Record Config := {
  maxFileSize : Z;
  fileLockExpiration : Z;
}.

(** The content-store calls a sync operation fires without awaiting them
    ([writeFileToStorage], [deleteFileFromStorage], [renameFileInStorage]):
    their failures are logged and reach neither the result nor the
    database. *)
Inductive StorageCall :=
| storage_writeFile (vaultId filePath content : string)
| storage_deleteFile (vaultId filePath : string)
| storage_renameFile (vaultId oldPath newPath : string).

(** [prisma.$transaction(async (tx) => body)]: when the body throws, the
    database is as before the transaction. *)
Definition transaction {A} (body : DB -> Result A * DB * list StorageCall)
    (db : DB) : Result A * DB * list StorageCall :=
  match body db with
  | (inl e, _, calls) => (inl e, db, calls)
  | (inr a, db', calls) => (inr a, db', calls)
  end.

(* ===================================================================== *)
(** * file-lock.service.ts *)
(* ===================================================================== *)

(** [FileLockInfo] and [LockResult] of file-lock.service.ts. *)
Module FileLockInfo.
Record t := {
  id : nat;
  vaultId : string;
  fileId : nat;
  deviceId : nat;
  lockedAt : Z;
  expiresAt : Z;
  isExpired : bool;
}.
End FileLockInfo.

Module LockResult.
Record t := {
  success : bool;
  lock : option FileLockInfo.t;
  reason : option string;
  expiresAt : option Z;
}.
End LockResult.

Module FileLockService.

Definition info_of (l : FileLock.t) : FileLockInfo.t :=
  {| FileLockInfo.id := FileLock.id l;
     FileLockInfo.vaultId := FileLock.vaultId l;
     FileLockInfo.fileId := FileLock.fileId l;
     FileLockInfo.deviceId := FileLock.deviceId l;
     FileLockInfo.lockedAt := FileLock.lockedAt l;
     FileLockInfo.expiresAt := FileLock.expiresAt l;
     FileLockInfo.isExpired := false |}.

(** [{ success: false, reason, expiresAt? }]. *)
Definition failure (r : string) (e : option Z) : LockResult.t :=
  {| LockResult.success := false; LockResult.lock := None;
     LockResult.reason := Some r; LockResult.expiresAt := e |}.

(** [{ success: true, lock: {...}, expiresAt }]. *)
Definition granted (l : FileLock.t) : LockResult.t :=
  {| LockResult.success := true; LockResult.lock := Some (info_of l);
     LockResult.reason := None;
     LockResult.expiresAt := Some (FileLock.expiresAt l) |}.

(** The [tx.fileLock.create] at the end of [requestFileLock] with its
    [catch]: the insert fails on a row with the same (unique) file id,
    reported as a denial. *)
Definition createLock (cfg : Config) (now dateNow : Z)
    (vaultId : string) (fileId deviceDbId : nat) (db : DB) : LockResult.t * DB :=
  match fileLocks db !! fileId with
  | Some _ => (failure "Concurrent lock attempt detected" None, db)
  | None =>
      let '(i, db1) := freshId db in
      let newLock :=
        {| FileLock.id := i; FileLock.vaultId := vaultId;
           FileLock.fileId := fileId; FileLock.deviceId := deviceDbId;
           FileLock.lockedAt := now;
           FileLock.expiresAt := dateNow + fileLockExpiration cfg |} in
      (granted newLock, set_fileLocks (<[fileId := newLock]> (fileLocks db1)) db1)
  end.

(** [requestFileLock(vaultId, filePath, deviceId)].  [now] is the value of
    [const now = new Date()], [dateNow] the value of the later
    [Date.now()] in the expiry of the renewed or the new lock. *)
Definition requestFileLock (cfg : Config) (now dateNow : Z)
    (vaultId filePath deviceId : string) (db : DB) : LockResult.t * DB :=
  match devices db !! deviceId with
  | None => (failure "Device not found" None, db)
  | Some device =>
      match Prisma.file_findFirst vaultId filePath db with
      | None => (failure "File not found" None, db)
      | Some file =>
          match fileLocks db !! File.id file with
          | Some existingLock =>
              if FileLock.expiresAt existingLock >? now then
                if Nat.eqb (FileLock.deviceId existingLock) (Device.id device)
                then
                  let renewedLock :=
                    {| FileLock.id := FileLock.id existingLock;
                       FileLock.vaultId := FileLock.vaultId existingLock;
                       FileLock.fileId := FileLock.fileId existingLock;
                       FileLock.deviceId := FileLock.deviceId existingLock;
                       FileLock.lockedAt := now;
                       FileLock.expiresAt := dateNow + fileLockExpiration cfg |} in
                  (granted renewedLock,
                   set_fileLocks (<[File.id file := renewedLock]> (fileLocks db)) db)
                else
                  (failure "File is locked by another device"
                     (Some (FileLock.expiresAt existingLock)), db)
              else
                (* the expired row is deleted, then a new lock is created *)
                createLock cfg now dateNow vaultId (File.id file) (Device.id device)
                  (set_fileLocks (delete (File.id file) (fileLocks db)) db)
          | None =>
              createLock cfg now dateNow vaultId (File.id file) (Device.id device) db
          end
      end
  end.

End FileLockService.

(* ===================================================================== *)
(** * sync.service.ts *)
(* ===================================================================== *)

Module SyncService.

Record FileOperationData := {
  vaultId : string;
  deviceId : string;
  filePath : string;
  content : string;
  operationType : OperationType;
  previousHash : option string;
  clientTimestamp : option Z;
  newPath : option string;
}.

Record FileOperationResult := {
  success : bool;
  version : Z;
  hash : string;
  currentVersion : option Z;
  currentHash : option string;
  conflictType : option string;
  clientMtime : option Z;
  serverMtime : option Z;
  updated : option string;
}.

(** [{ success: true, version, hash, updated }]. *)
Definition ok_result (v : Z) (h : string) (u : option string)
  : FileOperationResult :=
  {| success := true; version := v; hash := h;
     currentVersion := None; currentHash := None; conflictType := None;
     clientMtime := None; serverMtime := None; updated := u |}.

(** [validateDevice(deviceId)]. *)
Definition validateDevice (deviceId : string) (db : DB) : Result Device.t :=
  match devices db !! deviceId with
  | None => inl (deviceNotFound deviceId)
  | Some device => inr device
  end.

(** [processDeleteOperation(data, deviceDbId)].  The conflict resolver is
    called with three arguments: its [hasActiveLocks] is [undefined]. *)
Definition processDeleteOperation (data : FileOperationData)
    (deviceDbId : nat) : DB -> Result FileOperationResult * DB * list StorageCall :=
  transaction (fun db =>
    let '(syncOp, db1) :=
      Prisma.syncOperation_create (vaultId data) deviceDbId DELETE
        (filePath data) None None None pending db in
    let existingFile := Prisma.file_findFirst (vaultId data) (filePath data) db1 in
    let resolution :=
      ConflictResolver.resolveDeleteConflict (vaultId data) (filePath data)
        existingFile None in
    match ConflictResolver.action resolution with
    | ConflictResolver.reject =>
        (* status conflicted, throw, the catch sets failed and rethrows *)
        let db2 := Prisma.syncOperation_update (SyncOperation.id syncOp)
                     (SyncOperation.set_status conflicted) db1 in
        let db3 := Prisma.syncOperation_update (SyncOperation.id syncOp)
                     (SyncOperation.set_status failed) db2 in
        (inl (internalError (ConflictResolver.reason resolution)), db3, [])
    | _ =>
        let db2 :=
          match existingFile with
          | Some f =>
              Prisma.fileLock_deleteMany_fileId (File.id f)
                (Prisma.file_delete (File.id f) db1)
          | None => db1
          end in
        let result := ok_result 0 "" None in
        let db3 := Prisma.syncOperation_update (SyncOperation.id syncOp)
                     (SyncOperation.set_status applied) db2 in
        (inr result, db3,
         match existingFile with
         | Some _ => [storage_deleteFile (vaultId data) (filePath data)]
         | None => []
         end)
    end).

(** [processRenameOperation(data, deviceDbId)], called with a truthy
    [newPath]; [now] is the [new Date()] of the new modification time. *)
Definition processRenameOperation (now : Z) (data : FileOperationData)
    (newPath_ : string) (deviceDbId : nat)
  : DB -> Result FileOperationResult * DB * list StorageCall :=
  transaction (fun db =>
    let '(syncOp, db1) :=
      Prisma.syncOperation_create (vaultId data) deviceDbId RENAME
        (filePath data) None None None pending db in
    let existingFile := Prisma.file_findFirst (vaultId data) (filePath data) db1 in
    let targetExists := Prisma.file_findFirst (vaultId data) newPath_ db1 in
    let resolution :=
      ConflictResolver.resolveRenameConflict (vaultId data) (filePath data)
        newPath_ existingFile (Some (bool_decide (is_Some targetExists))) in
    match ConflictResolver.action resolution, existingFile with
    | ConflictResolver.reject, _
    | _, None (* not reached: the resolver rejects an absent source *) =>
        let db2 := Prisma.syncOperation_update (SyncOperation.id syncOp)
                     (SyncOperation.set_status conflicted) db1 in
        let db3 := Prisma.syncOperation_update (SyncOperation.id syncOp)
                     (SyncOperation.set_status failed) db2 in
        (inl (internalError (ConflictResolver.reason resolution)), db3, [])
    | _, Some ef =>
        let upd (f : File.t) :=
          {| File.id := File.id f; File.vaultId := File.vaultId f;
             File.path := newPath_; File.hash := File.hash f;
             File.size := File.size f; File.mtime := now;
             File.version := File.version f + 1 |} in
        let updatedFile := upd ef in
        let db2 := Prisma.file_update (File.id ef) upd db1 in
        let db3 := Prisma.syncOperation_update (SyncOperation.id syncOp)
                     (SyncOperation.set_newHash (File.hash updatedFile)) db2 in
        let db4 := Prisma.syncOperation_update (SyncOperation.id syncOp)
                     (SyncOperation.set_status applied) db3 in
        (inr (ok_result (File.version updatedFile) (File.hash updatedFile) None),
         db4,
         [storage_renameFile (vaultId data) (filePath data) newPath_])
    end).

(** [processCreateUpdateOperation(data, deviceDbId)].  [resolverNow] is
    the clock read inside the conflict resolver and [mtimeNow] the
    [new Date()] of the branch that writes a modification time; both are
    read only when the client sent no (or a zero) timestamp. *)
Definition processCreateUpdateOperation (cfg : Config)
    (resolverNow mtimeNow : Z) (data : FileOperationData) (deviceDbId : nat)
    (db0 : DB) : Result FileOperationResult * DB * list StorageCall :=
  let hash_ := sha256_string (content data) in
  let contentSize := byteLength (content data) in
  if contentSize >? maxFileSize cfg then
    (inl (fileTooLarge contentSize (maxFileSize cfg) (filePath data)), db0, [])
  else
  transaction (fun db =>
    let '(syncOp, db1) :=
      Prisma.syncOperation_create (vaultId data) deviceDbId
        (operationType data) (filePath data) (previousHash data)
        (Some hash_) None pending db in
    let existingFile := Prisma.file_findFirst (vaultId data) (filePath data) db1 in
    let newMtime :=
      ConflictResolver.claimedMtime mtimeNow (clientTimestamp data) in
    let '(result, db2) :=
      match existingFile with
      | Some ef =>
          let resolution :=
            ConflictResolver.resolveFileConflict resolverNow
              {| ConflictResolver.vaultId := vaultId data;
                 ConflictResolver.filePath := filePath data;
                 ConflictResolver.clientContent := content data;
                 ConflictResolver.clientHash := hash_;
                 ConflictResolver.clientTimestamp := clientTimestamp data;
                 ConflictResolver.previousHash := previousHash data;
                 ConflictResolver.existingFile :=
                   Some {| ConflictResolver.id := File.id ef;
                           ConflictResolver.hash := File.hash ef;
                           ConflictResolver.version := File.version ef;
                           ConflictResolver.mtime := File.mtime ef;
                           ConflictResolver.size := File.size ef |} |} in
          match ConflictResolver.action resolution with
          | ConflictResolver.reject =>
              ({| success := false;
                  version := File.version ef;
                  hash := File.hash ef;
                  currentVersion := ConflictResolver.currentVersion resolution;
                  currentHash := ConflictResolver.currentHash resolution;
                  conflictType := ConflictResolver.conflictType resolution;
                  clientMtime := ConflictResolver.clientMtime resolution;
                  serverMtime := ConflictResolver.serverMtime resolution;
                  updated := None |}, db1)
          | ConflictResolver.update_mtime_only =>
              let upd (f : File.t) :=
                {| File.id := File.id f; File.vaultId := File.vaultId f;
                   File.path := File.path f; File.hash := File.hash f;
                   File.size := File.size f; File.mtime := newMtime;
                   File.version := File.version f + 1 |} in
              (ok_result (File.version (upd ef)) hash_
                 (ConflictResolver.updated resolution),
               Prisma.file_update (File.id ef) upd db1)
          | ConflictResolver.no_change =>
              (ok_result (File.version ef) hash_
                 (ConflictResolver.updated resolution), db1)
          | ConflictResolver.accept =>
              let upd (f : File.t) :=
                {| File.id := File.id f; File.vaultId := File.vaultId f;
                   File.path := File.path f; File.hash := hash_;
                   File.size := contentSize; File.mtime := newMtime;
                   File.version := File.version f + 1 |} in
              (ok_result (File.version (upd ef)) hash_
                 (ConflictResolver.updated resolution),
               Prisma.file_update (File.id ef) upd db1)
          end
      | None =>
          let '(newFile, db') :=
            Prisma.file_create (vaultId data) (filePath data) hash_
              contentSize newMtime db1 in
          (ok_result (File.version newFile) hash_ (Some "created"), db')
      end in
    let db3 := Prisma.syncOperation_update (SyncOperation.id syncOp)
                 (SyncOperation.set_status
                    (if success result then applied else conflicted)) db2 in
    (inr result, db3,
     if success result
        && (bool_decide (updated result = Some "full")
            || bool_decide (updated result = Some "created"))
     then [storage_writeFile (vaultId data) (filePath data) (content data)]
     else [])) db0.

(** [processFileChange(data)]: the device check, then the handler of the
    operation type. *)
Definition processFileChange (cfg : Config) (resolverNow mtimeNow : Z)
    (data : FileOperationData) (db : DB)
  : Result FileOperationResult * DB * list StorageCall :=
  match validateDevice (deviceId data) db with
  | inl e => (inl e, db, [])
  | inr device =>
      match operationType data with
      | DELETE => processDeleteOperation data (Device.id device) db
      | RENAME =>
          match newPath data with
          | Some p =>
              if truthy_string (Some p)
              then processRenameOperation mtimeNow data p (Device.id device) db
              else (inl (internalError "New path required for rename operation"),
                    db, [])
          | None =>
              (inl (internalError "New path required for rename operation"),
               db, [])
          end
      | CREATE | UPDATE =>
          processCreateUpdateOperation cfg resolverNow mtimeNow data
            (Device.id device) db
      end
  end.

(** [requestFileLock(vaultId, filePath, deviceId)]: delegated. *)
Definition requestFileLock := FileLockService.requestFileLock.

End SyncService.

(* ===================================================================== *)
(** * storage.service.ts *)
(* ===================================================================== *)

Module StorageService.

(** The content store as the sync engine sees it: the writes that
    reached the file system, in order, and the failures of the file system
    itself ([fsError vaultId path] is the message of the error that
    [fs.mkdir] or [fs.writeFile] raises there, if any). *)
Record t := {
  written : list (string * string * string);
  fsError : string -> string -> option string;
}.

Fixpoint forallb_string (p : ascii -> bool) (s : string) : bool :=
  match s with
  | EmptyString => true
  | String c rest => p c && forallb_string p rest
  end.

Fixpoint map_string (f : ascii -> ascii) (s : string) : string :=
  match s with
  | EmptyString => EmptyString
  | String c rest => String (f c) (map_string f rest)
  end.

(** [s.split(sep)] for a one-character separator. *)
Fixpoint split (sep : ascii) (s : string) : list string :=
  match s with
  | EmptyString => [EmptyString]
  | String c rest =>
      if Ascii.eqb c sep then EmptyString :: split sep rest
      else match split sep rest with
           | seg :: segs => String c seg :: segs
           | [] => [String c EmptyString]
           end
  end.

Definition in_range (lo hi c : ascii) : bool :=
  (N.leb (N_of_ascii lo) (N_of_ascii c)) && (N.leb (N_of_ascii c) (N_of_ascii hi)).

(** [VAULT_ID_PATTERN = /^[A-Za-z0-9_-]+$/]. *)
Definition vault_id_char (c : ascii) : bool :=
  in_range "A" "Z" c || in_range "a" "z" c || in_range "0" "9" c
  || Ascii.eqb c "_" || Ascii.eqb c "-".

(** [validateVaultId(vaultId)]. *)
Definition validateVaultId (vaultId : string) : string + unit :=
  if negb (String.eqb vaultId "") && forallb_string vault_id_char vaultId
  then inr tt
  else inl ("Invalid vaultId: " +:+ vaultId).

(** [validateFilePath(filePath)], with the POSIX [path.isAbsolute]. *)
Definition validateFilePath (filePath : string) : string + string :=
  if String.eqb filePath ""
     || negb (forallb_string (fun c => negb (Ascii.eqb c Ascii.zero)) filePath)
  then inl "Invalid filePath"
  else
    let normalized :=
      map_string (fun c => if Ascii.eqb c "\" then "/"%char else c) filePath in
    if String.prefix "/" normalized
    then inl "Absolute filePath is not allowed"
    else
      let segments := split "/" normalized in
      if List.existsb (fun segment => String.eqb segment ".."
                                      || (String.length segment =? 0)%nat)
           segments
      then inl "Path traversal detected"
      else inr normalized.

(** [writeFile(vaultId, filePath, content)]: the size limit, the vault id
    and path validation of [getFileStoragePath], then the file system.
    The two containment tests of [getVaultStoragePath] and
    [getFileStoragePath] on the resolved paths pass for every id and path
    that passed validation (no separator or dot in the id, no [..] or
    empty segment in the path) and are not modelled. *)
Definition writeFile (cfg : Config) (vaultId filePath content : string)
    (st : t) : (string + unit) * t :=
  let contentSize := byteLength content in
  if contentSize >? maxFileSize cfg then
    (inl ("File size " +:+ pretty contentSize
          +:+ " bytes exceeds maximum limit of "
          +:+ pretty (maxFileSize cfg) +:+ " bytes"), st)
  else
    match validateVaultId vaultId with
    | inl e => (inl e, st)
    | inr _ =>
        match validateFilePath filePath with
        | inl e => (inl e, st)
        | inr safeFilePath =>
            match fsError st vaultId safeFilePath with
            | Some e => (inl e, st)
            | None =>
                (inr tt,
                 {| written := written st ++ [(vaultId, safeFilePath, content)];
                    fsError := fsError st |})
            end
        end
    end.

End StorageService.

(* ===================================================================== *)
(** * chunk-session.service.ts *)
(* ===================================================================== *)

Module ChunkSession.
Record t := {
  filePath : string;
  fileHash : string;
  fileSize : Z;
  totalChunks : Z;
  receivedChunks : gmap Z Buffer;
  chunkHashes : gmap Z string;
  startTime : Z;
  clientId : string;
  vaultId : string;
  lastActivity : Z;
}.
End ChunkSession.

Module ChunkSessionService.

(** The [chunkSessions] map of the service. *)
Abbreviation Sessions := (gmap string ChunkSession.t).

(** [createSession(...)]; [startNow] and [activityNow] are its two
    [Date.now()]. *)
Definition createSession (startNow activityNow : Z)
    (sessionId vaultId filePath fileHash : string) (fileSize totalChunks : Z)
    (clientId : string) (sessions : Sessions) : Sessions :=
  <[sessionId :=
      {| ChunkSession.filePath := filePath;
         ChunkSession.fileHash := fileHash;
         ChunkSession.fileSize := fileSize;
         ChunkSession.totalChunks := totalChunks;
         ChunkSession.receivedChunks := ∅;
         ChunkSession.chunkHashes := ∅;
         ChunkSession.startTime := startNow;
         ChunkSession.clientId := clientId;
         ChunkSession.vaultId := vaultId;
         ChunkSession.lastActivity := activityNow |}]> sessions.

(** [buildSessionId(vaultId, clientId, filePath)]. *)
Definition buildSessionId (vaultId clientId filePath : string) : string :=
  vaultId +:+ ":" +:+ clientId +:+ ":" +:+ filePath.

Record StoreResult := {
  store_success : bool;
  store_message : option string;
}.

(** [storeChunk(sessionId, chunkIndex, chunkData, chunkHash)]. *)
Definition storeChunk (now : Z) (sessionId : string) (chunkIndex : Z)
    (chunkData : Buffer) (chunkHash : string) (sessions : Sessions)
  : StoreResult * Sessions :=
  match sessions !! sessionId with
  | None =>
      ({| store_success := false; store_message := Some "Session not found" |},
       sessions)
  | Some session =>
      let calculatedHash := sha256_buffer chunkData in
      if negb (String.eqb calculatedHash chunkHash) then
        ({| store_success := false;
            store_message := Some "Chunk hash mismatch" |}, sessions)
      else
        let session' :=
          {| ChunkSession.filePath := ChunkSession.filePath session;
             ChunkSession.fileHash := ChunkSession.fileHash session;
             ChunkSession.fileSize := ChunkSession.fileSize session;
             ChunkSession.totalChunks := ChunkSession.totalChunks session;
             ChunkSession.receivedChunks :=
               <[chunkIndex := chunkData]> (ChunkSession.receivedChunks session);
             ChunkSession.chunkHashes :=
               <[chunkIndex := chunkHash]> (ChunkSession.chunkHashes session);
             ChunkSession.startTime := ChunkSession.startTime session;
             ChunkSession.clientId := ChunkSession.clientId session;
             ChunkSession.vaultId := ChunkSession.vaultId session;
             ChunkSession.lastActivity := now |} in
        ({| store_success := true; store_message := None |},
         <[sessionId := session']> sessions)
  end.

Record Completion := {
  success : bool;
  message : option string;
  missingChunks : option (list Z);
  fileHash : option string;
  fileSize : option Z;
}.

Definition failed_with (m : string) (missing : option (list Z)) : Completion :=
  {| success := false; message := Some m; missingChunks := missing;
     fileHash := None; fileSize := None |}.

(** The indices [i = 0; i < totalChunks; i++] of the two loops. *)
Definition indices (session : ChunkSession.t) : list Z :=
  seqZ 0 (ChunkSession.totalChunks session).

(** The first loop: the indices without a received chunk. *)
Definition missingOf (session : ChunkSession.t) : list Z :=
  List.filter
    (fun i => negb (bool_decide (is_Some (ChunkSession.receivedChunks session !! i))))
    (indices session).

(** The second loop and [Buffer.concat(chunks)]. *)
Definition assemble (session : ChunkSession.t) : Buffer :=
  List.concat
    (List.map (fun i => default [] (ChunkSession.receivedChunks session !! i))
       (indices session)).

(** [completeUpload(sessionId)]. *)
Definition completeUpload (cfg : Config) (sessionId : string)
    (sessions : Sessions) (storage : StorageService.t)
  : Completion * Sessions * StorageService.t :=
  match sessions !! sessionId with
  | None =>
      ({| success := false; message := Some "Session not found";
          missingChunks := None; fileHash := None; fileSize := None |},
       sessions, storage)
  | Some session =>
      let missing := missingOf session in
      if (0 <? List.length missing)%nat then
        (failed_with "Missing chunks" (Some missing), sessions, storage)
      else
        let finalBuffer := assemble session in
        let len := Z.of_nat (List.length finalBuffer) in
        if negb (len =? ChunkSession.fileSize session) then
          (failed_with
             ("File size mismatch: expected "
              +:+ pretty (ChunkSession.fileSize session)
              +:+ ", got " +:+ pretty len) None,
           sessions, storage)
        else
          let calculatedHash := sha256_buffer finalBuffer in
          if negb (String.eqb calculatedHash (ChunkSession.fileHash session)) then
            (failed_with "Final file hash verification failed" None,
             sessions, storage)
          else
            let finalContentBase64 := Base64.encode finalBuffer in
            match StorageService.writeFile cfg (ChunkSession.vaultId session)
                    (ChunkSession.filePath session) finalContentBase64 storage
            with
            | (inl e, storage') =>
                (failed_with ("Assembly failed: " +:+ e) None, sessions, storage')
            | (inr _, storage') =>
                ({| success := true; message := None; missingChunks := None;
                    fileHash := Some calculatedHash; fileSize := Some len |},
                 delete sessionId sessions, storage')
            end
  end.

(** [getSession(sessionId)]. *)
Definition getSession (sessionId : string) (sessions : Sessions)
  : option ChunkSession.t := sessions !! sessionId.


End ChunkSessionService.

(* ===================================================================== *)
(** * message-handler.service.ts *)
(* ===================================================================== *)

Module FileChangeMessage.
(** A [file-change] frame.  [previousHash] is the prior hash the plugin
    puts on the wire ([MessageFactory.createFileChangeMessage]); the
    server's [FileChangeMessage] interface does not declare it and
    [handleFileChange] does not read it. *)
Record t := {
  vaultId : string;
  filePath : string;
  content : string;
  hash : string;
  timestamp : Z;
  deviceId : string;
  previousHash : option string;
}.
End FileChangeMessage.

Module FileChangeResponse.
(** [{ type: 'file-change-response', success, filePath, hash, version }]. *)
Record t := {
  success : bool;
  filePath : string;
  hash : string;
  version : Z;
}.
End FileChangeResponse.

Module FileChangeBroadcast.
(** [{ type: 'file-change', vaultId, filePath, content, hash, timestamp,
    deviceId }]. *)
Record t := {
  vaultId : string;
  filePath : string;
  content : string;
  hash : string;
  timestamp : Z;
  deviceId : string;
}.
End FileChangeBroadcast.

Module FileDeleteMessage.
Record t := {
  vaultId : string;
  filePath : string;
  deviceId : string;
}.
End FileDeleteMessage.

Module RequestLockMessage.
Record t := {
  vaultId : string;
  filePath : string;
  deviceId : string;
}.
End RequestLockMessage.

(** The two answers to a [request-lock] frame. *)
Inductive LockResponse :=
| lock_acquired (vaultId filePath deviceId : string) (expiresAt : Z)
| lock_denied (vaultId filePath reason : string).

(** The answer and the broadcast of a [file-delete] frame. *)
Inductive FileDeleteResponse :=
| file_delete_success (filePath : string).

Inductive FileDeleteBroadcast :=
| file_delete (vaultId filePath : string) (timestamp : Z).

(** [if (x)] on an object or [null]: every object is truthy. *)
Definition truthy_object {A} (x : option A) : bool :=
  match x with
  | Some _ => true
  | None => false
  end.

Module MessageHandlerService.

(** [handleFileChange(message)]: what it returns or throws, the database
    after it and the content-store calls it fired. *)
Definition handleFileChange (cfg : Config) (resolverNow mtimeNow : Z)
    (message : FileChangeMessage.t) (db : DB)
  : Result (option FileChangeBroadcast.t * option FileChangeResponse.t)
    * DB * list StorageCall :=
  let vaultId := FileChangeMessage.vaultId message in
  let filePath := FileChangeMessage.filePath message in
  let content := FileChangeMessage.content message in
  let hash := FileChangeMessage.hash message in
  let timestamp := FileChangeMessage.timestamp message in
  let deviceId := FileChangeMessage.deviceId message in
  let calculatedHash := sha256_string content in
  if negb (String.eqb hash calculatedHash) then
    (inl (hashMismatch hash calculatedHash filePath), db, [])
  else
    match SyncService.processFileChange cfg resolverNow mtimeNow
            {| SyncService.vaultId := vaultId;
               SyncService.deviceId := deviceId;
               SyncService.filePath := filePath;
               SyncService.content := content;
               SyncService.operationType := UPDATE;
               SyncService.previousHash := None;
               SyncService.clientTimestamp := Some timestamp;
               SyncService.newPath := None |} db
    with
    | (inl e, db1, calls) => (inl e, db1, calls)
    | (inr result, db1, calls) =>
        match devices db1 !! deviceId with
        | None => (inl (deviceNotFound deviceId), db1, calls)
        | Some device =>
            let '(_, db2) :=
              Prisma.syncOperation_create vaultId (Device.id device) UPDATE
                filePath None (Some hash) (Some timestamp) applied db1 in
            (inr (Some {| FileChangeBroadcast.vaultId := vaultId;
                          FileChangeBroadcast.filePath := filePath;
                          FileChangeBroadcast.content := content;
                          FileChangeBroadcast.hash := hash;
                          FileChangeBroadcast.timestamp := timestamp;
                          FileChangeBroadcast.deviceId := deviceId |},
                  Some {| FileChangeResponse.success := true;
                          FileChangeResponse.filePath := filePath;
                          FileChangeResponse.hash := SyncService.hash result;
                          FileChangeResponse.version :=
                            SyncService.version result |}),
             db2, calls)
        end
    end.

(** [handleFileDelete(message)]; [dateNow] is the [Date.now()] of the
    broadcast. *)
Definition handleFileDelete (cfg : Config) (dateNow : Z)
    (message : FileDeleteMessage.t) (db : DB)
  : Result (option FileDeleteBroadcast * option FileDeleteResponse)
    * DB * list StorageCall :=
  let vaultId := FileDeleteMessage.vaultId message in
  let filePath := FileDeleteMessage.filePath message in
  let deviceId := FileDeleteMessage.deviceId message in
  match SyncService.processFileChange cfg dateNow dateNow
          {| SyncService.vaultId := vaultId;
             SyncService.deviceId := deviceId;
             SyncService.filePath := filePath;
             SyncService.content := "";
             SyncService.operationType := DELETE;
             SyncService.previousHash := None;
             SyncService.clientTimestamp := None;
             SyncService.newPath := None |} db
  with
  | (inl e, db1, calls) => (inl e, db1, calls)
  | (inr result, db1, calls) =>
      if SyncService.success result then
        (inr (Some (file_delete vaultId filePath dateNow),
              Some (file_delete_success filePath)), db1, calls)
      else
        (inl (internalError "File not found or failed to delete"), db1, calls)
  end.

(** The body of [handleRequestLock] after the [await]: [lockResult] is
    the value the sync service resolved to. *)
Definition lockResponse (dateNow : Z) (message : RequestLockMessage.t)
    (lockResult : option LockResult.t) : LockResponse :=
  if truthy_object lockResult then
    lock_acquired (RequestLockMessage.vaultId message)
      (RequestLockMessage.filePath message)
      (RequestLockMessage.deviceId message) (dateNow + 30000)
  else
    lock_denied (RequestLockMessage.vaultId message)
      (RequestLockMessage.filePath message) "File already locked".

(** [handleRequestLock(message)]; [now] and [lockDateNow] are the clock
    reads of the lock service, [dateNow] the one of the answer.  The lock
    service always resolves to a [LockResult] object. *)
Definition handleRequestLock (cfg : Config) (now lockDateNow dateNow : Z)
    (message : RequestLockMessage.t) (db : DB) : LockResponse * DB :=
  let '(lockResult, db1) :=
    SyncService.requestFileLock cfg now lockDateNow
      (RequestLockMessage.vaultId message)
      (RequestLockMessage.filePath message)
      (RequestLockMessage.deviceId message) db in
  (lockResponse dateNow message (Some lockResult), db1).

End MessageHandlerService.

(* ===================================================================== *)
(** * websocket.gateway.ts: the write serialization queue *)
(* ===================================================================== *)

(** [writeOpQueue] is a promise and [enqueueWriteOperation] chains on it:

      const run = this.writeOpQueue.then(async () => { ...; await task(); });
      this.writeOpQueue = run.catch(() => {});
      return run;

    The model keeps the promises of that chain with their state, the
    handlers registered on the pending ones, the microtask queue of the
    handlers whose promise has settled, and the tasks that were started and
    have not settled.  A task is opaque: once started it settles at some
    later moment, fulfilled or rejected, as its environment decides. *)
Module WriteQueue.

Local Open Scope nat_scope.

Inductive PromiseState := Pending | Fulfilled | Rejected.

(** The two handlers the gateway registers. *)
Inductive Reaction :=
| RunTask (task run : nat)
    (* the callback of [writeOpQueue.then]; [run] is the promise that
       [then] returned *)
| KeepAlive (queue : nat).
    (* the callback of [run.catch]; [queue] is the promise that [catch]
       returned *)

Inductive Event :=
| Enqueued (task : nat)
| Started (task : nat)
| Settled (task : nat) (ok : bool).

Record t := {
  promises : gmap nat PromiseState;
  reactions : list (nat * Reaction);
  jobs : list (Reaction * PromiseState);
  running : list (nat * nat);
  writeOpQueue : nat;
  nextPromise : nat;
  nextTask : nat;
  trace : list Event;
}.

(** [private writeOpQueue: Promise<void> = Promise.resolve()]. *)
Definition init : t :=
  {| promises := {[ 0 := Fulfilled ]};
     reactions := [];
     jobs := [];
     running := [];
     writeOpQueue := 0;
     nextPromise := 1;
     nextTask := 0;
     trace := [] |}.

(** A new pending promise. *)
Definition newPromise (st : t) : nat * t :=
  (nextPromise st,
   {| promises := <[nextPromise st := Pending]> (promises st);
      reactions := reactions st; jobs := jobs st; running := running st;
      writeOpQueue := writeOpQueue st;
      nextPromise := S (nextPromise st);
      nextTask := nextTask st; trace := trace st |}).

(** [p.then(...)] or [p.catch(...)]: on a pending promise the handler
    waits; on a settled one it is queued as a microtask at once. *)
Definition subscribe (p : nat) (r : Reaction) (st : t) : t :=
  match promises st !! p with
  | Some Fulfilled | Some Rejected =>
      {| promises := promises st; reactions := reactions st;
         jobs := jobs st ++ [(r, default Pending (promises st !! p))];
         running := running st; writeOpQueue := writeOpQueue st;
         nextPromise := nextPromise st; nextTask := nextTask st;
         trace := trace st |}
  | _ =>
      {| promises := promises st; reactions := reactions st ++ [(p, r)];
         jobs := jobs st; running := running st;
         writeOpQueue := writeOpQueue st;
         nextPromise := nextPromise st; nextTask := nextTask st;
         trace := trace st |}
  end.

(** A pending promise settles: its handlers become microtasks.  A promise
    settles once. *)
Definition settle (p : nat) (s : PromiseState) (st : t) : t :=
  match promises st !! p with
  | Some Pending =>
      {| promises := <[p := s]> (promises st);
         reactions :=
           List.filter (fun pr => negb (Nat.eqb (fst pr) p)) (reactions st);
         jobs :=
           jobs st
           ++ List.map (fun pr => (snd pr, s))
                (List.filter (fun pr => Nat.eqb (fst pr) p) (reactions st));
         running := running st; writeOpQueue := writeOpQueue st;
         nextPromise := nextPromise st; nextTask := nextTask st;
         trace := trace st |}
  | _ => st
  end.

Definition log (e : Event) (st : t) : t :=
  {| promises := promises st; reactions := reactions st; jobs := jobs st;
     running := running st; writeOpQueue := writeOpQueue st;
     nextPromise := nextPromise st; nextTask := nextTask st;
     trace := trace st ++ [e] |}.

(** [enqueueWriteOperation(task, messageType)]; the task gets the next
    number.  (The promise [run] it returns is awaited by [routeMessage],
    which reports a rejection to the client; that handler does not touch
    the queue.) *)
Definition enqueueWriteOperation (st : t) : t :=
  let task := nextTask st in
  let '(run, st1) := newPromise st in
  let st2 := subscribe (writeOpQueue st1) (RunTask task run) st1 in
  let '(queue, st3) := newPromise st2 in
  let st4 := subscribe run (KeepAlive queue) st3 in
  log (Enqueued task)
    {| promises := promises st4; reactions := reactions st4;
       jobs := jobs st4; running := running st4;
       writeOpQueue := queue;
       nextPromise := nextPromise st4; nextTask := S task;
       trace := trace st4 |}.

(** What the callback of a handler does when its microtask runs. *)
Definition runJob (r : Reaction) (s : PromiseState) (st : t) : t :=
  match r with
  | RunTask task run =>
      match s with
      | Rejected => settle run Rejected st
      | _ =>
          (* the async callback calls [task()] and awaits it *)
          log (Started task)
            {| promises := promises st; reactions := reactions st;
               jobs := jobs st; running := running st ++ [(task, run)];
               writeOpQueue := writeOpQueue st;
               nextPromise := nextPromise st; nextTask := nextTask st;
               trace := trace st |}
      end
  | KeepAlive queue =>
      (* a fulfilled [run] passes through, a rejected one is swallowed by
         [() => {}]: [queue] is fulfilled either way *)
      settle queue Fulfilled st
  end.

(** The kinds of frames [routeMessage] tells apart. *)
Inductive MessageType :=
| register_device | file_change | binary_file_change | file_delete
| file_rename | request_lock | request_sync | resolve_conflict
| chunk_upload_start | chunk_data | chunk_upload_complete | heartbeat
| unknown_type.

(** [routeMessage(ws, message)] as far as the queue goes: the handlers of
    six kinds of frames are enqueued, the others run inline and do not touch
    the queue. *)
Definition routeMessage (type : MessageType) (st : t) : t :=
  match type with
  | file_change | binary_file_change | file_delete | file_rename
  | resolve_conflict | chunk_upload_complete => enqueueWriteOperation st
  | _ => st
  end.

Inductive Label :=
| Message (type : MessageType)    (* a frame arrives and is routed *)
| Job                             (* the event loop runs the next microtask *)
| Finish (task : nat) (ok : bool) (* a started task settles *).

Definition step (l : Label) (st : t) : option t :=
  match l with
  | Message type => Some (routeMessage type st)
  | Job =>
      match jobs st with
      | [] => None
      | (r, s) :: rest =>
          Some (runJob r s
                  {| promises := promises st; reactions := reactions st;
                     jobs := rest; running := running st;
                     writeOpQueue := writeOpQueue st;
                     nextPromise := nextPromise st; nextTask := nextTask st;
                     trace := trace st |})
      end
  | Finish task ok =>
      match List.find (fun tr => Nat.eqb (fst tr) task) (running st) with
      | None => None
      | Some (_, run) =>
          Some (settle run (if ok then Fulfilled else Rejected)
                  (log (Settled task ok)
                     {| promises := promises st; reactions := reactions st;
                        jobs := jobs st;
                        running :=
                          List.filter (fun tr => negb (Nat.eqb (fst tr) task))
                            (running st);
                        writeOpQueue := writeOpQueue st;
                        nextPromise := nextPromise st; nextTask := nextTask st;
                        trace := trace st |}))
      end
  end.

(** The states the gateway can be in: any interleaving of message
    arrivals, microtasks and task completions. *)
Inductive reachable : t -> Prop :=
| reachable_init : reachable init
| reachable_step (l : Label) (st st' : t) :
    reachable st -> step l st = Some st' -> reachable st'.

(** A run of the gateway along a list of labels. *)
Fixpoint exec (ls : list Label) (st : t) : option t :=
  match ls with
  | [] => Some st
  | l :: rest =>
      match step l st with
      | Some st' => exec rest st'
      | None => None
      end
  end.

(** Running the queue to rest when every started task settles:
    microtasks first, then the completion of the running task with the
    outcome [outcome] gives it. *)
Definition next (outcome : nat -> bool) (st : t) : option Label :=
  match jobs st with
  | _ :: _ => Some Job
  | [] =>
      match running st with
      | (task, _) :: _ => Some (Finish task (outcome task))
      | [] => None
      end
  end.

Fixpoint drain (fuel : nat) (outcome : nat -> bool) (st : t) : t :=
  match fuel with
  | O => st
  | S fuel' =>
      match next outcome st with
      | None => st
      | Some l =>
          match step l st with
          | Some st' => drain fuel' outcome st'
          | None => st
          end
      end
  end.

(** ** Vocabulary of the invariant *)

(** Where the head of the queue stands. *)
Inductive Phase :=
| Idle                        (* every enqueued task has been dealt with *)
| Ready                       (* the microtask that starts the task is queued *)
| Busy                        (* the task runs *)
| Closing (s : PromiseState)  (* the task settled, [catch] is queued *).

(** The handlers of the tasks [j, j+1, ..., j+count-1] that wait behind
    the head: task [k] waits on promise [2k], its [catch] on [2k+1]. *)
Fixpoint waiting (j count : nat) : list (nat * Reaction) :=
  match count with
  | O => []
  | S c =>
      (2 * j, RunTask j (2 * j + 1))
        :: (2 * j + 1, KeepAlive (2 * j + 2)) :: waiting (S j) c
  end.

(** The execution of the tasks [j, j+1, ...] one after the other, with
    the outcomes [outs]. *)
Fixpoint serial (j : nat) (outs : list bool) : list Event :=
  match outs with
  | [] => []
  | o :: rest => Started j :: Settled j o :: serial (S j) rest
  end.

Definition is_enqueued (e : Event) : bool :=
  match e with Enqueued _ => true | _ => false end.

(** The trace without its [Enqueued] events. *)
Definition execution (tr : list Event) : list Event :=
  List.filter (fun e => negb (is_enqueued e)) tr.

Definition ok_of (s : PromiseState) : bool :=
  match s with Fulfilled => true | _ => false end.

(** State [st] has [n] tasks enqueued, the first [m] of them done with
    outcomes [outs], and its head task [m] in phase [ph]. *)
Record Inv (m n : nat) (ph : Phase) (outs : list bool) (st : t) : Prop := {
  inv_nextTask : nextTask st = n;
  inv_nextPromise : nextPromise st = (2 * n + 1);
  inv_queue : writeOpQueue st = (2 * n);
  inv_outs : List.length outs = m;
  inv_bound : match ph with Idle => m = n | _ => (m < n) end;
  inv_idle : ph = Idle -> promises st !! (2 * n) = Some Fulfilled;
  inv_queues : forall j, (m <= j < n) ->
                         promises st !! (2 * j + 2) = Some Pending;
  inv_runs : forall j, (m < j < n) ->
                       promises st !! (2 * j + 1) = Some Pending;
  inv_run : match ph with
            | Ready | Busy => promises st !! (2 * m + 1) = Some Pending
            | _ => True
            end;
  inv_reactions :
    reactions st
    = match ph with
      | Idle => []
      | Ready | Busy =>
          (2 * m + 1, KeepAlive (2 * m + 2)) :: waiting (S m) (n - S m)
      | Closing _ => waiting (S m) (n - S m)
      end;
  inv_jobs :
    jobs st
    = match ph with
      | Ready => [(RunTask m (2 * m + 1), Fulfilled)]
      | Closing s => [(KeepAlive (2 * m + 2), s)]
      | _ => []
      end;
  inv_running :
    running st = match ph with Busy => [(m, (2 * m + 1))] | _ => [] end;
  inv_trace :
    execution (trace st)
    = (serial 0 outs
       ++ match ph with
          | Busy => [Started m]
          | Closing s => [Started m; Settled m (ok_of s)]
          | _ => []
          end)%list;
  inv_enqueued :
    List.filter is_enqueued (trace st) = List.map Enqueued (List.seq 0 n);
  inv_closing : match ph with
                | Closing Pending => False
                | _ => True
                end;
}.

(** Projections of a state given by its fields. *)
Ltac fields :=
  cbn [promises reactions jobs running writeOpQueue nextPromise nextTask trace].

Ltac easy_fields :=
  fields; try lia; try reflexivity; try (intros; lia); try discriminate;
  try assumption; try exact I.

End WriteQueue.

(* ===================================================================== *)
(** * conflict-resolver.service.ts: the resolution strategy *)
(* ===================================================================== *)

Module ConflictStrategy.

(** The value [getResolutionStrategy] returns. *)
Record t := {
  shouldRetry : bool;
  retryDelay : option Z;
  clientAction : option string;
}.

(** [{ shouldRetry: true, retryDelay: 1000 }], the default of every
    [switch]. *)
Definition retry_later : t :=
  {| shouldRetry := true; retryDelay := Some 1000; clientAction := None |}.

(** [{ shouldRetry: false, clientAction }]. *)
Definition ask_client (a : string) : t :=
  {| shouldRetry := false; retryDelay := None; clientAction := Some a |}.

(** [getResolutionStrategy(operationType, conflictType)] of
    [ConflictResolverService]; both arguments are strings in the source. *)
Definition getResolutionStrategy (operationType conflictType : string) : t :=
  if String.eqb operationType "UPDATE" then
    if String.eqb conflictType "hash_mismatch" then
      ask_client "fetch_latest_and_merge"
    else if String.eqb conflictType "older_timestamp" then
      ask_client "fetch_latest_or_force_overwrite"
    else retry_later
  else if String.eqb operationType "DELETE" then
    if String.eqb conflictType "file_locked" then
      {| shouldRetry := true; retryDelay := Some 5000;
         clientAction := Some "wait_for_lock_release" |}
    else retry_later
  else if String.eqb operationType "RENAME" then
    if String.eqb conflictType "target_exists" then
      ask_client "choose_different_name"
    else if String.eqb conflictType "source_not_found" then
      ask_client "refresh_file_list"
    else retry_later
  else retry_later.

End ConflictStrategy.

(* ===================================================================== *)
(** * file-lock.service.ts: releasing locks; sync.service.ts: device
      status *)
(* ===================================================================== *)

Module FileLockRelease.

(** [fileLock.deleteMany({where})]: the number of rows deleted and the
    database without them.  A row is given to [where_] with its file id (the
    key of the table) first. *)
Definition deleteMany (where_ : nat -> FileLock.t -> bool) (db : DB) : nat * DB :=
  (size (filter (fun kv : nat * FileLock.t => where_ kv.1 kv.2 = true)
           (fileLocks db)),
   set_fileLocks
     (filter (fun kv : nat * FileLock.t => where_ kv.1 kv.2 = false)
        (fileLocks db)) db).

(** [releaseFileLock(vaultId, filePath, deviceId?)] of [FileLockService]:
    the [whereClause] names the file and, when [deviceId] is given and
    registered, the owner. *)
Definition releaseFileLock (vaultId filePath : string)
    (deviceId : option string) (db : DB) : bool * DB :=
  match Prisma.file_findFirst vaultId filePath db with
  | None => (false, db)
  | Some file =>
      let owner : option nat :=
        if truthy_string deviceId then
          match deviceId with
          | Some d =>
              match devices db !! d with
              | Some device => Some (Device.id device)
              | None => None
              end
          | None => None
          end
        else None in
      let '(count, db1) :=
        deleteMany
          (fun fileId l =>
             Nat.eqb fileId (File.id file)
             && match owner with
                | Some o => Nat.eqb (FileLock.deviceId l) o
                | None => true
                end) db in
      ((0 <? count)%nat, db1)
  end.

(** [releaseAllDeviceLocks(deviceId)] of [FileLockService]. *)
Definition releaseAllDeviceLocks (deviceId : string) (db : DB) : nat * DB :=
  match devices db !! deviceId with
  | None => (0%nat, db)
  | Some device =>
      deleteMany (fun _ l => Nat.eqb (FileLock.deviceId l) (Device.id device)) db
  end.

(** [cleanupExpiredLocks()] of [FileLockService]; [now] is its
    [new Date()]. *)
Definition cleanupExpiredLocks (now : Z) (db : DB) : nat * DB :=
  deleteMany (fun _ l => FileLock.expiresAt l <? now) db.

End FileLockRelease.

Module DeviceStatus.

Definition set_devices (ds : gmap string Device.t) (db : DB) : DB :=
  {| devices := ds; files := files db; fileLocks := fileLocks db;
     syncOperations := syncOperations db; nextId := nextId db |}.

(** [device.updateMany({where: {deviceId}, data})]. *)
Definition device_updateMany (deviceId : string) (upd : Device.t -> Device.t)
    (db : DB) : DB :=
  set_devices (alter upd deviceId (devices db)) db.

(** [setDeviceOffline(deviceId)] of [SyncService]: what it returns
    ([{ deviceId, releasedLocks }]) and the database after it; [now] is its
    [new Date()]. *)
Definition setDeviceOffline (now : Z) (deviceId : string) (db : DB)
  : (string * nat) * DB :=
  let '(releasedLocks, db1) :=
    FileLockRelease.releaseAllDeviceLocks deviceId db in
  ((deviceId, releasedLocks),
   device_updateMany deviceId
     (fun d => {| Device.id := Device.id d; Device.deviceId := Device.deviceId d;
                  Device.deviceName := Device.deviceName d;
                  Device.vaultId := Device.vaultId d;
                  Device.isOnline := false; Device.lastSeen := now |}) db1).

(** [updateDeviceHeartbeat(deviceId)] of [SyncService]. *)
Definition updateDeviceHeartbeat (now : Z) (deviceId : string) (db : DB) : DB :=
  device_updateMany deviceId
    (fun d => {| Device.id := Device.id d; Device.deviceId := Device.deviceId d;
                 Device.deviceName := Device.deviceName d;
                 Device.vaultId := Device.vaultId d;
                 Device.isOnline := Device.isOnline d; Device.lastSeen := now |})
    db.

End DeviceStatus.

(* ===================================================================== *)
(** * chunk-session.service.ts: the inactivity sweep *)
(* ===================================================================== *)

Module ChunkSessionCleanup.

(** [now - session.lastActivity > 30 * 60 * 1000]. *)
Definition expired (now : Z) (session : ChunkSession.t) : bool :=
  now - ChunkSession.lastActivity session >? 30 * 60 * 1000.

(** [cleanupExpiredSessions()] of [ChunkSessionService], run every five
    minutes; [now] is its [Date.now()].  It collects the ids of the expired
    sessions and deletes them. *)
Definition cleanupExpiredSessions (now : Z)
    (sessions : gmap string ChunkSession.t) : gmap string ChunkSession.t :=
  filter (fun kv : string * ChunkSession.t => expired now kv.2 = false) sessions.

End ChunkSessionCleanup.

(* ===================================================================== *)
(** * message-handler.service.ts: the metadata of a completed upload *)
(* ===================================================================== *)

Module UploadRecord.


End UploadRecord.

(* ===================================================================== *)
(** * websocket.gateway.ts: the chunk upload frames *)
(* ===================================================================== *)

(** [a || b] on two optional strings and on two optional numbers. *)
Definition or_string (a b : option string) : option string :=
  if truthy_string a then a else b.


Module ChunkUploadStartMessage.
(** A [chunk-upload-start] frame as the gateway reads it: it falls back
    from [fileHash] to [hash] and from [fileSize] to [totalSize], and puts
    [totalChunks] through [Number], so these five are optional here ([None]
    for a field the frame does not have). *)
Record t := {
  vaultId : string;
  filePath : string;
  fileHash : option string;
  hash : option string;
  fileSize : option Z;
  totalSize : option Z;
  totalChunks : option Z;
  deviceId : string;
}.
End ChunkUploadStartMessage.

Module ChunkDataMessage.
Record t := {
  vaultId : string;
  filePath : string;
  chunkIndex : Z;
  chunkHash : string;
  chunkSize : Z;
  deviceId : string;
}.
End ChunkDataMessage.

Module ChunkUploadCompleteMessage.
Record t := {
  vaultId : string;
  filePath : string;
  fileHash : option string;
  hash : option string;
  fileSize : option Z;
  totalSize : option Z;
  deviceId : string;
  timestamp : option Z;
}.
End ChunkUploadCompleteMessage.

Module ChunkUploadResponse.
(** [{ type: 'chunk-upload-response', filePath, success, chunkIndex,
    missingChunks?, message? }]. *)
Record t := {
  filePath : string;
  success : bool;
  chunkIndex : Z;
  missingChunks : option (list Z);
  message : option string;
}.
End ChunkUploadResponse.

Module ChunkState.
(** [ws.chunkState]. *)
Record t := {
  waitingForBinary : bool;
  currentChunkMetadata : option ChunkDataMessage.t;
}.

(** [{ waitingForBinary: false, currentChunkMetadata: null }]. *)
Definition idle : t :=
  {| waitingForBinary := false; currentChunkMetadata := None |}.
End ChunkState.

Module ChunkGateway.

Definition respond (filePath : string) (success : bool) (chunkIndex : Z)
    (message : string) : ChunkUploadResponse.t :=
  {| ChunkUploadResponse.filePath := filePath;
     ChunkUploadResponse.success := success;
     ChunkUploadResponse.chunkIndex := chunkIndex;
     ChunkUploadResponse.missingChunks := None;
     ChunkUploadResponse.message := Some message |}.


(** [handleChunkData(ws, message)]: the response and the socket's chunk
    state after it. *)
Definition handleChunkData (message : ChunkDataMessage.t)
    (sessions : gmap string ChunkSession.t) (chunkState : ChunkState.t)
  : ChunkUploadResponse.t * ChunkState.t :=
  let sessionId :=
    ChunkSessionService.buildSessionId (ChunkDataMessage.vaultId message)
      (ChunkDataMessage.deviceId message) (ChunkDataMessage.filePath message) in
  match ChunkSessionService.getSession sessionId sessions with
  | None =>
      (respond (ChunkDataMessage.filePath message) false
         (ChunkDataMessage.chunkIndex message) "Chunk session not found",
       chunkState)
  | Some _ =>
      (respond (ChunkDataMessage.filePath message) true
         (ChunkDataMessage.chunkIndex message) "Ready for binary data",
       {| ChunkState.waitingForBinary := true;
          ChunkState.currentChunkMetadata := Some message |})
  end.

(** [handleBinaryChunkData(ws, data, clientIp)]: the response (none when
    no metadata is pending), the chunk state and the sessions after it;
    [now] is the [Date.now()] of [storeChunk]. *)
Definition handleBinaryChunkData (now : Z) (data : Buffer)
    (chunkState : ChunkState.t) (sessions : gmap string ChunkSession.t)
  : option ChunkUploadResponse.t * ChunkState.t * gmap string ChunkSession.t :=
  match ChunkState.currentChunkMetadata chunkState with
  | None => (None, chunkState, sessions)
  | Some metadata =>
      let len := Z.of_nat (List.length data) in
      if negb (len =? ChunkDataMessage.chunkSize metadata) then
        (Some (respond (ChunkDataMessage.filePath metadata) false
                 (ChunkDataMessage.chunkIndex metadata)
                 ("Chunk size mismatch: expected "
                  +:+ pretty (ChunkDataMessage.chunkSize metadata)
                  +:+ ", got " +:+ pretty len)),
         ChunkState.idle, sessions)
      else
        let sessionId :=
          ChunkSessionService.buildSessionId (ChunkDataMessage.vaultId metadata)
            (ChunkDataMessage.deviceId metadata)
            (ChunkDataMessage.filePath metadata) in
        let '(storeResult, sessions1) :=
          ChunkSessionService.storeChunk now sessionId
            (ChunkDataMessage.chunkIndex metadata) data
            (ChunkDataMessage.chunkHash metadata) sessions in
        (Some
           (if ChunkSessionService.store_success storeResult then
              respond (ChunkDataMessage.filePath metadata) true
                (ChunkDataMessage.chunkIndex metadata)
                "Chunk received successfully"
            else
              respond (ChunkDataMessage.filePath metadata) false
                (ChunkDataMessage.chunkIndex metadata)
                (match or_string (ChunkSessionService.store_message storeResult)
                         (Some "Failed to store chunk") with
                 | Some m => m
                 | None => "Failed to store chunk"
                 end)),
         ChunkState.idle, sessions1)
  end.


End ChunkGateway.

(* ===================================================================== *)
(** * A chunked upload, frame by frame *)
(* ===================================================================== *)

(** The frames of an upload by a client that announces every chunk with
    the SHA-256 of its payload, in the order in which the plugin's
    [ChunkManager] sends them (the start frame; for each chunk its metadata,
    then its payload; the complete frame), and their passage through the
    handlers of the gateway. *)
Module ChunkUploadRun.


Definition chunkFrame (vaultId deviceId filePath : string) (chunkIndex : Z)
    (chunk : Buffer) : ChunkDataMessage.t :=
  {| ChunkDataMessage.vaultId := vaultId;
     ChunkDataMessage.filePath := filePath;
     ChunkDataMessage.chunkIndex := chunkIndex;
     ChunkDataMessage.chunkHash := sha256_buffer chunk;
     ChunkDataMessage.chunkSize := Z.of_nat (List.length chunk);
     ChunkDataMessage.deviceId := deviceId |}.






End ChunkUploadRun.

(* ===================================================================== *)
(** * connection-manager.service.ts *)
(* ===================================================================== *)

(** A JavaScript [Map] whose iteration order matters: the list of its
    entries in insertion order, with one entry per key. *)
Module JsMap.
Section JsMap.
Context {V : Type}.

Definition t : Type := list (nat * V).

(** [map.get(key)]. *)
Definition get (key : nat) (m : t) : option V :=
  match List.find (fun kv => Nat.eqb kv.1 key) m with
  | Some kv => Some kv.2
  | None => None
  end.

(** [map.set(key, value)]: an existing key keeps its place. *)
Fixpoint set (key : nat) (value : V) (m : t) : t :=
  match m with
  | [] => [(key, value)]
  | kv :: rest =>
      if Nat.eqb kv.1 key then (key, value) :: rest
      else kv :: set key value rest
  end.

(** [map.delete(key)]. *)
Definition delete (key : nat) (m : t) : t :=
  List.filter (fun kv => negb (Nat.eqb kv.1 key)) m.

End JsMap.
Arguments t : clear implicits.
End JsMap.

(** [ws.readyState]. *)
Inductive ReadyState := CONNECTING | OPEN | CLOSING | CLOSED.

Definition is_open (s : ReadyState) : bool :=
  match s with OPEN => true | _ => false end.

Definition is_closed (s : ReadyState) : bool :=
  match s with CLOSED => true | _ => false end.

(** [ws.close(code, reason)] on the socket [ws]. *)
Inductive SocketCall :=
| socket_close (ws : nat) (code : Z) (reason : string).

Module SyncStats.
Record t := {
  serverToClient : Z;
  clientToServer : Z;
  conflicts : Z;
  errors : Z;
  lastSyncStart : option Z;
}.
End SyncStats.

Module RateLimitInfo.
Record t := {
  lastMessageTime : Z;
  messageCount : Z;
  windowStart : Z;
}.
End RateLimitInfo.

Module ClientInfo.
Record t := {
  vaultId : string;
  deviceId : string;
  deviceName : string;
  lastSeen : Z;
  connectTime : Z;
  syncStats : option SyncStats.t;
  rateLimitInfo : option RateLimitInfo.t;
}.

Definition set_lastSeen (now : Z) (c : t) : t :=
  {| vaultId := vaultId c; deviceId := deviceId c; deviceName := deviceName c;
     lastSeen := now; connectTime := connectTime c; syncStats := syncStats c;
     rateLimitInfo := rateLimitInfo c |}.

Definition set_syncStats (s : SyncStats.t) (c : t) : t :=
  {| vaultId := vaultId c; deviceId := deviceId c; deviceName := deviceName c;
     lastSeen := lastSeen c; connectTime := connectTime c; syncStats := Some s;
     rateLimitInfo := rateLimitInfo c |}.

Definition set_rateLimitInfo (r : RateLimitInfo.t) (c : t) : t :=
  {| vaultId := vaultId c; deviceId := deviceId c; deviceName := deviceName c;
     lastSeen := lastSeen c; connectTime := connectTime c;
     syncStats := syncStats c; rateLimitInfo := Some r |}.
End ClientInfo.

(** The settings of [ConfigService] the connection manager reads. *)
Record ConnectionConfig := {
  rateLimitWindow : Z;
  rateLimitMaxMessages : Z;
  heartbeatInterval : Z;
}.

Module ConnectionManagerService.

(** The two maps of the service; a socket is named by a number. *)
Record t := {
  clients : JsMap.t ClientInfo.t;
  clientsByDeviceId : gmap string nat;
}.

Definition init : t := {| clients := []; clientsByDeviceId := ∅ |}.

(** [removeClient(ws)]. *)
Definition removeClient (ws : nat) (st : t) : option ClientInfo.t * t :=
  match JsMap.get ws (clients st) with
  | None => (None, st)
  | Some clientInfo =>
      (Some clientInfo,
       {| clients := JsMap.delete ws (clients st);
          clientsByDeviceId :=
            delete (ClientInfo.deviceId clientInfo) (clientsByDeviceId st) |})
  end.

(** [registerClient(ws, { vaultId, deviceId, deviceName })], as the
    gateway calls it; [connectNow] and [seenNow] are its two [new Date()],
    [readyState] gives the state of each socket.  It returns the socket
    calls it made. *)
Definition registerClient (connectNow seenNow : Z)
    (readyState : nat -> ReadyState) (ws : nat)
    (vaultId deviceId deviceName : string) (st : t) : list SocketCall * t :=
  let fullClientInfo :=
    {| ClientInfo.vaultId := vaultId; ClientInfo.deviceId := deviceId;
       ClientInfo.deviceName := deviceName;
       ClientInfo.lastSeen := seenNow; ClientInfo.connectTime := connectNow;
       ClientInfo.syncStats := None; ClientInfo.rateLimitInfo := None |} in
  let '(calls, st1) :=
    match clientsByDeviceId st !! deviceId with
    | Some existingWs =>
        if negb (Nat.eqb existingWs ws) then
          let '(_, st') := removeClient existingWs st in
          (if is_open (readyState existingWs)
           then [socket_close existingWs 1000 "New connection established"]
           else [],
           st')
        else ([], st)
    | None => ([], st)
    end in
  (calls,
   {| clients := JsMap.set ws fullClientInfo (clients st1);
      clientsByDeviceId := <[deviceId := ws]> (clientsByDeviceId st1) |}).

(** [updateClientActivity(ws)]. *)
Definition updateClientActivity (now : Z) (ws : nat) (st : t) : t :=
  match JsMap.get ws (clients st) with
  | Some clientInfo =>
      {| clients := JsMap.set ws (ClientInfo.set_lastSeen now clientInfo)
                      (clients st);
         clientsByDeviceId := clientsByDeviceId st |}
  | None => st
  end.

(** [getClientInfo(ws)]. *)
Definition getClientInfo (ws : nat) (st : t) : option ClientInfo.t :=
  JsMap.get ws (clients st).

(** [getAllClients()]. *)
Definition getAllClients (st : t) : list ClientInfo.t :=
  List.map snd (clients st).

(** [getClientsByVault(vaultId)]. *)
Definition getClientsByVault (vaultId : string) (st : t)
  : list (nat * ClientInfo.t) :=
  List.filter (fun kv => String.eqb (ClientInfo.vaultId kv.2) vaultId)
    (clients st).

(** [getClientByDeviceId(deviceId)]. *)
Definition getClientByDeviceId (deviceId : string) (st : t)
  : option (nat * ClientInfo.t) :=
  match clientsByDeviceId st !! deviceId with
  | None => None
  | Some ws =>
      match JsMap.get ws (clients st) with
      | None => None
      | Some info => Some (ws, info)
      end
  end.

(** The part of [checkRateLimit] that works on the client's record: whether
    the message is allowed and the record after it. *)
Definition rateLimit (cfg : ConnectionConfig) (now : Z)
    (clientInfo : ClientInfo.t) : bool * ClientInfo.t :=
  let fresh :=
    {| RateLimitInfo.messageCount := 1; RateLimitInfo.windowStart := now;
       RateLimitInfo.lastMessageTime := now |} in
  match ClientInfo.rateLimitInfo clientInfo with
  | None => (true, ClientInfo.set_rateLimitInfo fresh clientInfo)
  | Some rateLimitInfo =>
      if now - RateLimitInfo.windowStart rateLimitInfo >? rateLimitWindow cfg
      then (true, ClientInfo.set_rateLimitInfo fresh clientInfo)
      else if RateLimitInfo.messageCount rateLimitInfo
              >=? rateLimitMaxMessages cfg
      then (false, clientInfo)
      else
        (true,
         ClientInfo.set_rateLimitInfo
           {| RateLimitInfo.messageCount :=
                RateLimitInfo.messageCount rateLimitInfo + 1;
              RateLimitInfo.windowStart :=
                RateLimitInfo.windowStart rateLimitInfo;
              RateLimitInfo.lastMessageTime := now |} clientInfo)
  end.

(** [checkRateLimit(ws, messageType)]; [now] is its [Date.now()].  A
    socket that is not registered is always allowed. *)
Definition checkRateLimit (cfg : ConnectionConfig) (now : Z) (ws : nat)
    (st : t) : bool * t :=
  match JsMap.get ws (clients st) with
  | None => (true, st)
  | Some clientInfo =>
      let '(allowed, clientInfo') := rateLimit cfg now clientInfo in
      (allowed,
       {| clients := JsMap.set ws clientInfo' (clients st);
          clientsByDeviceId := clientsByDeviceId st |})
  end.

(** [initSyncStats(ws)]. *)
Definition initSyncStats (now : Z) (ws : nat) (st : t) : t :=
  match JsMap.get ws (clients st) with
  | None => st
  | Some clientInfo =>
      match ClientInfo.syncStats clientInfo with
      | Some _ => st
      | None =>
          {| clients :=
               JsMap.set ws
                 (ClientInfo.set_syncStats
                    {| SyncStats.serverToClient := 0;
                       SyncStats.clientToServer := 0;
                       SyncStats.conflicts := 0; SyncStats.errors := 0;
                       SyncStats.lastSyncStart := Some now |} clientInfo)
                 (clients st);
             clientsByDeviceId := clientsByDeviceId st |}
      end
  end.

(** [cleanupStaleConnections()]: the sockets not seen for three heartbeat
    intervals, or closed, are removed and closed when still open. *)
Definition stale (cfg : ConnectionConfig) (now : Z)
    (readyState : nat -> ReadyState) (kv : nat * ClientInfo.t) : bool :=
  (now - ClientInfo.lastSeen kv.2 >? heartbeatInterval cfg * 3)
  || is_closed (readyState kv.1).

Definition cleanupStaleConnections (cfg : ConnectionConfig) (now : Z)
    (readyState : nat -> ReadyState) (st : t) : list SocketCall * t :=
  let staleConnections :=
    List.map fst (List.filter (stale cfg now readyState) (clients st)) in
  List.fold_left
    (fun (acc : list SocketCall * t) ws =>
       let '(_, st') := removeClient ws acc.2 in
       ((acc.1
         ++ if is_open (readyState ws)
            then [socket_close ws 1001 "Connection cleanup - stale connection"]
            else [])%list,
        st'))
    staleConnections ([], st).

End ConnectionManagerService.

(* ===================================================================== *)
(** * broadcast.service.ts *)
(* ===================================================================== *)

Module BroadcastService.

(** [broadcastToVault(vaultId, excludeDeviceId, message)]: the sockets the
    message is sent to, in order. *)
Definition broadcastToVault (readyState : nat -> ReadyState)
    (vaultId excludeDeviceId : string) (st : ConnectionManagerService.t)
  : list nat :=
  List.map fst
    (List.filter
       (fun kv => negb (String.eqb (ClientInfo.deviceId kv.2) excludeDeviceId)
                  && is_open (readyState kv.1))
       (ConnectionManagerService.getClientsByVault vaultId st)).

(** [broadcastToAllInVault(vaultId, message)]. *)
Definition broadcastToAllInVault (readyState : nat -> ReadyState)
    (vaultId : string) (st : ConnectionManagerService.t) : list nat :=
  List.map fst
    (List.filter (fun kv => is_open (readyState kv.1))
       (ConnectionManagerService.getClientsByVault vaultId st)).

(** [sendToDevice(deviceId, message)]: the socket the message went to, if
    any. *)
Definition sendToDevice (readyState : nat -> ReadyState) (deviceId : string)
    (st : ConnectionManagerService.t) : option nat :=
  match ConnectionManagerService.getClientByDeviceId deviceId st with
  | Some (ws, _) => if is_open (readyState ws) then Some ws else None
  | None => None
  end.

End BroadcastService.

(** The life of the connection manager: the calls the gateway and the
    timers make on it, each with the clock and the socket states it finds. *)
Module Connections.

Inductive Event :=
| Register (connectNow seenNow : Z) (readyState : nat -> ReadyState) (ws : nat)
    (vaultId deviceId deviceName : string)
| Remove (ws : nat)
| Activity (now : Z) (ws : nat)
| RateCheck (cfg : ConnectionConfig) (now : Z) (ws : nat)
| InitStats (now : Z) (ws : nat)
| Cleanup (cfg : ConnectionConfig) (now : Z) (readyState : nat -> ReadyState).

Definition step (e : Event) (st : ConnectionManagerService.t)
  : ConnectionManagerService.t :=
  match e with
  | Register connectNow seenNow readyState ws vaultId deviceId deviceName =>
      (ConnectionManagerService.registerClient connectNow seenNow readyState ws
         vaultId deviceId deviceName st).2
  | Remove ws => (ConnectionManagerService.removeClient ws st).2
  | Activity now ws => ConnectionManagerService.updateClientActivity now ws st
  | RateCheck cfg now ws =>
      (ConnectionManagerService.checkRateLimit cfg now ws st).2
  | InitStats now ws => ConnectionManagerService.initSyncStats now ws st
  | Cleanup cfg now readyState =>
      (ConnectionManagerService.cleanupStaleConnections cfg now readyState st).2
  end.

(** The states the service can be in. *)
Inductive reachable : ConnectionManagerService.t -> Prop :=
| reachable_init : reachable ConnectionManagerService.init
| reachable_step (e : Event) (st : ConnectionManagerService.t) :
    reachable st -> reachable (step e st).

(** The invariant of the connection manager: at most one entry per socket,
    and every registered socket is the one its device id leads to. *)
Record ConnInv (st : ConnectionManagerService.t) : Prop := {
  conn_keys : List.NoDup (List.map fst (ConnectionManagerService.clients st));
  conn_device :
    forall ws info,
      JsMap.get ws (ConnectionManagerService.clients st) = Some info ->
      ConnectionManagerService.clientsByDeviceId st !! ClientInfo.deviceId info
      = Some ws;
}.

(** The decisions of the rate limiter on the messages of one client that
    arrive at the given times, and the client's record after them. *)
Fixpoint decisions (cfg : ConnectionConfig) (times : list Z)
    (clientInfo : ClientInfo.t) : list bool * ClientInfo.t :=
  match times with
  | [] => ([], clientInfo)
  | now :: rest =>
      let '(allowed, clientInfo1) :=
        ConnectionManagerService.rateLimit cfg now clientInfo in
      let '(later, clientInfo2) := decisions cfg rest clientInfo1 in
      (allowed :: later, clientInfo2)
  end.

End Connections.

(* ===================================================================== *)
(** * obsidian-auto-sync-plugin/src/upload/chunk-manager.ts *)
(* ===================================================================== *)

(** The client side of a chunked upload: how the plugin cuts a file and
    how it announces each chunk. *)
Module ChunkManager.

(** [static readonly CHUNK_SIZE = 25 * 1024 * 1024]. *)
Definition CHUNK_SIZE : Z := 25 * 1024 * 1024.

(** [Math.ceil(fileData.byteLength / chunkSize)] of [startChunkUpload],
    for a positive chunk size. *)
Definition totalChunks (chunkSize : Z) (fileData : Buffer) : Z :=
  (Z.of_nat (List.length fileData) + chunkSize - 1) / chunkSize.

(** [fileData.slice(start, end)] for [0 <= start]. *)
Definition slice (fileData : Buffer) (start end_ : Z) : Buffer :=
  List.firstn (Z.to_nat (end_ - start)) (List.skipn (Z.to_nat start) fileData).

(** The payload of chunk [chunkIndex] in [sendChunk]. *)
Definition chunkData (chunkSize : Z) (fileData : Buffer) (chunkIndex : Z)
  : Buffer :=
  let start := chunkIndex * chunkSize in
  let end_ := Z.min (start + chunkSize) (Z.of_nat (List.length fileData)) in
  slice fileData start end_.

(** The [chunk-data] frame of [sendChunk]; its [chunkHash] is the
    template string [chunk_${chunkIndex}_${chunkData.byteLength}]. *)
Definition chunkMessage (vaultId deviceId filePath : string) (chunkSize : Z)
    (fileData : Buffer) (chunkIndex : Z) : ChunkDataMessage.t :=
  let data := chunkData chunkSize fileData chunkIndex in
  {| ChunkDataMessage.vaultId := vaultId;
     ChunkDataMessage.filePath := filePath;
     ChunkDataMessage.chunkIndex := chunkIndex;
     ChunkDataMessage.chunkHash :=
       "chunk_" +:+ pretty chunkIndex +:+ "_"
       +:+ pretty (Z.of_nat (List.length data));
     ChunkDataMessage.chunkSize := Z.of_nat (List.length data);
     ChunkDataMessage.deviceId := deviceId |}.

(** The chunks of a file, in index order. *)
Definition chunks (chunkSize : Z) (fileData : Buffer) : list Buffer :=
  List.map (chunkData chunkSize fileData)
    (seqZ 0 (totalChunks chunkSize fileData)).

End ChunkManager.

(* ===================================================================== *)
(** * message-handler.service.ts: the resolve-conflict frame *)
(* ===================================================================== *)

Module ResolveConflictMessage.
Record t := {
  vaultId : string;
  filePath : string;
  resolution : string;
  content : option string;
  hash : option string;
  deviceId : string;
  timestamp : Z;
}.
End ResolveConflictMessage.

Module ConflictResolvedResponse.
(** [{ type: 'file-change-response', success: true, filePath, hash,
    version, conflictResolved: true, resolution }]. *)
Record t := {
  success : bool;
  filePath : string;
  hash : string;
  version : Z;
  conflictResolved : bool;
  resolution : string;
}.
End ConflictResolvedResponse.

(** What a handler of this part throws: an exception of the sync service,
    or [SyncErrors.invalidMessageFormat({ field, value?, expected })]. *)
Inductive HandlerException :=
| sync_exception (e : SyncException)
| invalidMessageFormat (field : string) (value : option string)
    (expected : string).

Module ConflictHandler.

(** The value [handleResolveConflict] returns for a result with the given
    hash and version. *)
Definition resolved (message : ResolveConflictMessage.t) (hash : string)
    (version : Z) : FileChangeBroadcast.t * ConflictResolvedResponse.t :=
  ({| FileChangeBroadcast.vaultId := ResolveConflictMessage.vaultId message;
      FileChangeBroadcast.filePath := ResolveConflictMessage.filePath message;
      FileChangeBroadcast.content :=
        match or_string (ResolveConflictMessage.content message) (Some "") with
        | Some c => c
        | None => ""
        end;
      FileChangeBroadcast.hash := hash;
      FileChangeBroadcast.timestamp := ResolveConflictMessage.timestamp message;
      FileChangeBroadcast.deviceId := ResolveConflictMessage.deviceId message |},
   {| ConflictResolvedResponse.success := true;
      ConflictResolvedResponse.filePath := ResolveConflictMessage.filePath message;
      ConflictResolvedResponse.hash := hash;
      ConflictResolvedResponse.version := version;
      ConflictResolvedResponse.conflictResolved := true;
      ConflictResolvedResponse.resolution :=
        ResolveConflictMessage.resolution message |}).

(** The branches [accept-client] and [merge] of [handleResolveConflict],
    which differ in the text of their error only. *)
Definition acceptClient (cfg : Config) (resolverNow mtimeNow : Z)
    (expected : string) (message : ResolveConflictMessage.t) (db : DB)
  : (HandlerException + FileChangeBroadcast.t * ConflictResolvedResponse.t)
    * DB * list StorageCall :=
  match ResolveConflictMessage.content message with
  | Some content =>
      if negb (truthy_string (Some content))
         || negb (truthy_string (ResolveConflictMessage.hash message))
      then (inl (invalidMessageFormat "content/hash" None expected), db, [])
      else
        match SyncService.processFileChange cfg resolverNow mtimeNow
                {| SyncService.vaultId := ResolveConflictMessage.vaultId message;
                   SyncService.deviceId := ResolveConflictMessage.deviceId message;
                   SyncService.filePath := ResolveConflictMessage.filePath message;
                   SyncService.content := content;
                   SyncService.operationType := UPDATE;
                   SyncService.previousHash := None;
                   SyncService.clientTimestamp :=
                     Some (ResolveConflictMessage.timestamp message);
                   SyncService.newPath := None |} db
        with
        | (inl e, db1, calls) => (inl (sync_exception e), db1, calls)
        | (inr result, db1, calls) =>
            (inr (resolved message (SyncService.hash result)
                    (SyncService.version result)), db1, calls)
        end
  | None => (inl (invalidMessageFormat "content/hash" None expected), db, [])
  end.

(** [handleResolveConflict(message)]. *)
Definition handleResolveConflict (cfg : Config) (resolverNow mtimeNow : Z)
    (message : ResolveConflictMessage.t) (db : DB)
  : (HandlerException + FileChangeBroadcast.t * ConflictResolvedResponse.t)
    * DB * list StorageCall :=
  let resolution := ResolveConflictMessage.resolution message in
  if String.eqb resolution "accept-client" then
    acceptClient cfg resolverNow mtimeNow "required for accept-client" message db
  else if String.eqb resolution "accept-server" then
    match Prisma.file_findFirst (ResolveConflictMessage.vaultId message)
            (ResolveConflictMessage.filePath message) db with
    | None =>
        (inl (sync_exception
                (internalError
                   ("File not found: "
                    +:+ ResolveConflictMessage.filePath message))), db, [])
    | Some existingFile =>
        (inr (resolved message (File.hash existingFile)
                (File.version existingFile)), db, [])
    end
  else if String.eqb resolution "merge" then
    acceptClient cfg resolverNow mtimeNow "required for merge" message db
  else
    (inl (invalidMessageFormat "resolution" (Some resolution)
            "accept-client, accept-server, or merge"), db, []).

End ConflictHandler.

(* ===================================================================== *)
(** * Concrete scenarios *)
(* ===================================================================== *)

(** The inputs on which the theorems below are instantiated: the vault of
    the specification's scenarios, with note.md at version 2. *)

Arguments sha256_string : simpl never.
Arguments sha256_buffer : simpl never.
Arguments byteLength : simpl never.

(** The hashes of the three successive contents of note.md. *)
Definition H1 : string :=
  "a7937b64b8caa58f03721bb6bacf5c78cb235febe0e70b1b84cd99541461a08e".
Definition H2 : string :=
  "16367aacb67a4a017c8da8ab95682ccb390863780f7114dda0a0e0c55644c7c4".
Definition H3 : string :=
  "b1e99324505bd32da0e1f85dcf5e19a09db0481e8a15f62c41eb320304a8e927".

(** A stale write: stored hash H2 at version 2, claimed prior hash H1. *)
Definition stale_write : ConflictResolver.FileConflictData :=
  {| ConflictResolver.vaultId := "vault-1";
     ConflictResolver.filePath := "note.md";
     ConflictResolver.clientContent := "third";
     ConflictResolver.clientHash := H3;
     ConflictResolver.clientTimestamp := Some 3000;
     ConflictResolver.previousHash := Some H1;
     ConflictResolver.existingFile :=
       Some {| ConflictResolver.id := 7; ConflictResolver.hash := H2;
               ConflictResolver.version := 2; ConflictResolver.mtime := 2000;
               ConflictResolver.size := 6 |} |}.

(** A write without a timestamp on a record last modified at 2000. *)
Definition untimed_write (clientHash : string) : ConflictResolver.FileConflictData :=
  {| ConflictResolver.vaultId := "vault-1";
     ConflictResolver.filePath := "note.md";
     ConflictResolver.clientContent := "text";
     ConflictResolver.clientHash := clientHash;
     ConflictResolver.clientTimestamp := Some 0;
     ConflictResolver.previousHash := None;
     ConflictResolver.existingFile :=
       Some {| ConflictResolver.id := 7; ConflictResolver.hash := H2;
               ConflictResolver.version := 2; ConflictResolver.mtime := 2000;
               ConflictResolver.size := 4 |} |}.

(** A same-content write without a timestamp that names a stale prior
    hash. *)
Definition untimed_stale_write : ConflictResolver.FileConflictData :=
  {| ConflictResolver.vaultId := "vault-1";
     ConflictResolver.filePath := "note.md";
     ConflictResolver.clientContent := "text";
     ConflictResolver.clientHash := H2;
     ConflictResolver.clientTimestamp := None;
     ConflictResolver.previousHash := Some H1;
     ConflictResolver.existingFile :=
       Some {| ConflictResolver.id := 7; ConflictResolver.hash := H2;
               ConflictResolver.version := 2; ConflictResolver.mtime := 2000;
               ConflictResolver.size := 4 |} |}.

Definition cfg0 : Config :=
  {| maxFileSize := 52428800; fileLockExpiration := 30000 |}.

Definition deviceA : Device.t :=
  {| Device.id := 1; Device.deviceId := "device-A"; Device.deviceName := "A";
     Device.vaultId := "vault-1"; Device.isOnline := true;
     Device.lastSeen := 1000 |}.

Definition deviceB : Device.t :=
  {| Device.id := 2; Device.deviceId := "device-B"; Device.deviceName := "B";
     Device.vaultId := "vault-1"; Device.isOnline := true;
     Device.lastSeen := 1000 |}.

(** note.md after its second write: content "second", version 2. *)
Definition note_v2 : File.t :=
  {| File.id := 3; File.vaultId := "vault-1"; File.path := "note.md";
     File.hash := H2; File.size := 6; File.mtime := 2000; File.version := 2 |}.

Definition db_note : DB :=
  {| devices := {[ "device-A" := deviceA; "device-B" := deviceB ]};
     files := [note_v2];
     fileLocks := ∅;
     syncOperations := [];
     nextId := 10 |}.

(** Device A holds the lock on note.md until 50000. *)
Definition lock_A : FileLock.t :=
  {| FileLock.id := 4; FileLock.vaultId := "vault-1"; FileLock.fileId := 3;
     FileLock.deviceId := 1; FileLock.lockedAt := 20000;
     FileLock.expiresAt := 50000 |}.

Definition db_locked : DB :=
  {| devices := {[ "device-A" := deviceA; "device-B" := deviceB ]};
     files := [note_v2];
     fileLocks := {[ 3%nat := lock_A ]};
     syncOperations := [];
     nextId := 10 |}.

(** Client A, still at the first content, sends a third one and names H1 as
    the hash it last saw. *)
Definition stale_message : FileChangeMessage.t :=
  {| FileChangeMessage.vaultId := "vault-1";
     FileChangeMessage.filePath := "note.md";
     FileChangeMessage.content := "third";
     FileChangeMessage.hash := H3;
     FileChangeMessage.timestamp := 3000;
     FileChangeMessage.deviceId := "device-A";
     FileChangeMessage.previousHash := Some H1 |}.

(** The same write as it would reach the sync service with its prior
    hash. *)
Definition stale_operation : SyncService.FileOperationData :=
  {| SyncService.vaultId := "vault-1";
     SyncService.deviceId := "device-A";
     SyncService.filePath := "note.md";
     SyncService.content := "third";
     SyncService.operationType := UPDATE;
     SyncService.previousHash := Some H1;
     SyncService.clientTimestamp := Some 3000;
     SyncService.newPath := None |}.


(** Device B deletes note.md. *)
Definition delete_by_B : SyncService.FileOperationData :=
  {| SyncService.vaultId := "vault-1";
     SyncService.deviceId := "device-B";
     SyncService.filePath := "note.md";
     SyncService.content := "";
     SyncService.operationType := DELETE;
     SyncService.previousHash := None;
     SyncService.clientTimestamp := None;
     SyncService.newPath := None |}.

(** Device B asks for the lock on note.md. *)
Definition lock_request_B : RequestLockMessage.t :=
  {| RequestLockMessage.vaultId := "vault-1";
     RequestLockMessage.filePath := "note.md";
     RequestLockMessage.deviceId := "device-B" |}.

(** A device that never registered asks for the lock on note.md. *)
Definition lock_request_X : RequestLockMessage.t :=
  {| RequestLockMessage.vaultId := "vault-1";
     RequestLockMessage.filePath := "note.md";
     RequestLockMessage.deviceId := "device-X" |}.

(** A content store whose file system never fails. *)
Definition storage0 : StorageService.t :=
  {| StorageService.written := [];
     StorageService.fsError := fun _ _ => None |}.

(** The 3-chunk upload of the specification: "he", "l", "lo" make up
    "hello"; chunks 0 and 2 arrive first, then chunk 1. *)
Definition hello_session_id : string :=
  ChunkSessionService.buildSessionId "vault-1" "device-A" "big.bin".

Definition hello_started : gmap string ChunkSession.t :=
  ChunkSessionService.createSession 1000 1000 hello_session_id "vault-1"
    "big.bin" (sha256_buffer (list_byte_of_string "hello")) 5 3 "device-A" ∅.

Definition hello_two_chunks : gmap string ChunkSession.t :=
  (ChunkSessionService.storeChunk 1200 hello_session_id 2
     (list_byte_of_string "lo") (sha256_buffer (list_byte_of_string "lo"))
     (ChunkSessionService.storeChunk 1100 hello_session_id 0
        (list_byte_of_string "he") (sha256_buffer (list_byte_of_string "he"))
        hello_started).2).2.

Definition hello_all_chunks : gmap string ChunkSession.t :=
  (ChunkSessionService.storeChunk 1300 hello_session_id 1
     (list_byte_of_string "l") (sha256_buffer (list_byte_of_string "l"))
     hello_two_chunks).2.

(** A complete one-chunk upload of "hi" whose declared path leaves the
    vault. *)
Definition escaping_session_id : string :=
  ChunkSessionService.buildSessionId "vault-1" "device-A" "../note.bin".

Definition escaping_upload : gmap string ChunkSession.t :=
  (ChunkSessionService.storeChunk 1100 escaping_session_id 0
     (list_byte_of_string "hi") (sha256_buffer (list_byte_of_string "hi"))
     (ChunkSessionService.createSession 1000 1000 escaping_session_id "vault-1"
        "../note.bin" (sha256_buffer (list_byte_of_string "hi")) 2 1
        "device-A" ∅)).2.

(** A complete one-chunk upload of "hi" declared with the hash of "he". *)
Definition wrong_hash_session_id : string :=
  ChunkSessionService.buildSessionId "vault-1" "device-A" "wrong.bin".

Definition wrong_hash_upload : gmap string ChunkSession.t :=
  (ChunkSessionService.storeChunk 1100 wrong_hash_session_id 0
     (list_byte_of_string "hi") (sha256_buffer (list_byte_of_string "hi"))
     (ChunkSessionService.createSession 1000 1000 wrong_hash_session_id "vault-1"
        "wrong.bin" (sha256_buffer (list_byte_of_string "he")) 2 1
        "device-A" ∅)).2.

(** Three write operations O1, O2, O3 (tasks 0, 1, 2): a file change is
    enqueued and started; a delete, a lock request (not a write) and a rename
    arrive while it runs; then the file change fails. *)
Definition three_writes : list WriteQueue.Label :=
  [WriteQueue.Message WriteQueue.file_change; WriteQueue.Job;
   WriteQueue.Message WriteQueue.file_delete;
   WriteQueue.Message WriteQueue.request_lock;
   WriteQueue.Message WriteQueue.file_rename;
   WriteQueue.Finish 0 false].

Definition after_first_failure : WriteQueue.t :=
  default WriteQueue.init (WriteQueue.exec three_writes WriteQueue.init).

(* ===================================================================== *)
(** * More scenarios *)
(* ===================================================================== *)

(** A write of new content, newer than the stored record, without a prior
    hash. *)
Definition newer_write : ConflictResolver.FileConflictData :=
  {| ConflictResolver.vaultId := "vault-1";
     ConflictResolver.filePath := "note.md";
     ConflictResolver.clientContent := "third";
     ConflictResolver.clientHash := H3;
     ConflictResolver.clientTimestamp := Some 3000;
     ConflictResolver.previousHash := None;
     ConflictResolver.existingFile :=
       Some {| ConflictResolver.id := 7; ConflictResolver.hash := H2;
               ConflictResolver.version := 2; ConflictResolver.mtime := 2000;
               ConflictResolver.size := 6 |} |}.

(** A write of the given content to the given path by the given device,
    at time 3000, without a prior hash. *)
Definition write_of (deviceId filePath content : string)
  : SyncService.FileOperationData :=
  {| SyncService.vaultId := "vault-1";
     SyncService.deviceId := deviceId;
     SyncService.filePath := filePath;
     SyncService.content := content;
     SyncService.operationType := UPDATE;
     SyncService.previousHash := None;
     SyncService.clientTimestamp := Some 3000;
     SyncService.newPath := None |}.

(** Device A renames note.md to moved.md. *)
Definition rename_by_A : SyncService.FileOperationData :=
  {| SyncService.vaultId := "vault-1";
     SyncService.deviceId := "device-A";
     SyncService.filePath := "note.md";
     SyncService.content := "";
     SyncService.operationType := RENAME;
     SyncService.previousHash := None;
     SyncService.clientTimestamp := Some 3000;
     SyncService.newPath := Some "moved.md" |}.

(** A second file beside note.md. *)
Definition todo_v1 : File.t :=
  {| File.id := 5; File.vaultId := "vault-1"; File.path := "todo.md";
     File.hash := H1; File.size := 5; File.mtime := 1000; File.version := 1 |}.

Definition db_two : DB :=
  {| devices := {[ "device-A" := deviceA; "device-B" := deviceB ]};
     files := [note_v2; todo_v1];
     fileLocks := ∅;
     syncOperations := [];
     nextId := 10 |}.

(** A file-change frame with the third content of note.md, claimed to be
    from time 1500, before the stored record's 2000. *)
Definition late_message : FileChangeMessage.t :=
  {| FileChangeMessage.vaultId := "vault-1";
     FileChangeMessage.filePath := "note.md";
     FileChangeMessage.content := "third";
     FileChangeMessage.hash := H3;
     FileChangeMessage.timestamp := 1500;
     FileChangeMessage.deviceId := "device-A";
     FileChangeMessage.previousHash := None |}.



(** The metadata of the second chunk of "hello". *)
Definition hello_chunk_1 : ChunkDataMessage.t :=
  ChunkUploadRun.chunkFrame "vault-1" "device-A" "big.bin" 1
    (list_byte_of_string "l").

(** Device A connects on socket 1, then again on socket 2 while socket 1
    is still open; device B connects on socket 3. *)
Definition all_open (ws : nat) : ReadyState := OPEN.

Definition two_devices : ConnectionManagerService.t :=
  Connections.step
    (Connections.Register 300 300 all_open 3 "vault-1" "device-B" "B")
    (Connections.step
       (Connections.Register 200 200 all_open 2 "vault-1" "device-A" "A")
       (Connections.step
          (Connections.Register 100 100 all_open 1 "vault-1" "device-A" "A")
          ConnectionManagerService.init)).

Definition limits : ConnectionConfig :=
  {| rateLimitWindow := 30000; rateLimitMaxMessages := 3;
     heartbeatInterval := 30000 |}.

(** A client whose window began at 1000 and that sent one message in it. *)
Definition busy_client : ClientInfo.t :=
  {| ClientInfo.vaultId := "vault-1"; ClientInfo.deviceId := "device-A";
     ClientInfo.deviceName := "A"; ClientInfo.lastSeen := 1000;
     ClientInfo.connectTime := 1000; ClientInfo.syncStats := None;
     ClientInfo.rateLimitInfo :=
       Some {| RateLimitInfo.lastMessageTime := 1000;
               RateLimitInfo.messageCount := 1;
               RateLimitInfo.windowStart := 1000 |} |}.

(** Device A settles the conflict on note.md for the server's version. *)
Definition keep_server : ResolveConflictMessage.t :=
  {| ResolveConflictMessage.vaultId := "vault-1";
     ResolveConflictMessage.filePath := "note.md";
     ResolveConflictMessage.resolution := "accept-server";
     ResolveConflictMessage.content := None;
     ResolveConflictMessage.hash := None;
     ResolveConflictMessage.deviceId := "device-A";
     ResolveConflictMessage.timestamp := 3000 |}.

Example sha256_constants :
  List.length SHA256.K = 64%nat
  /\ List.nth 0 SHA256.K 0 = 0x428a2f98 /\ List.nth 63 SHA256.K 0 = 0xc67178f2
  /\ List.nth 0 SHA256.H0 0 = 0x6a09e667 /\ List.nth 7 SHA256.H0 0 = 0x5be0cd19.
Proof. vm_compute. auto. Qed.

Example sha256_abc :
  sha256_string "abc"
  = "ba7816bf8f01cfea414140de5dae2223b00361a396177a9cb410ff61f20015ad".
Proof. vm_compute. reflexivity. Qed.

Example sha256_empty :
  sha256_string ""
  = "e3b0c44298fc1c149afbf4c8996fb92427ae41e4649b934ca495991b7852b855".
Proof. vm_compute. reflexivity. Qed.

Example sha256_two_blocks :
  sha256_string "aaaaaaaaaaaaaaaaaaaaaaaaaaaaaaaaaaaaaaaaaaaaaaaaaaaaaaaa"
  = "b35439a4ac6f0948b6d6f9e3c6af0f5f590ce20f1bde7090ef7970686ec6738a".
Proof. vm_compute. reflexivity. Qed.

Example base64_hello :
  Base64.encode (list_byte_of_string "hello") = "aGVsbG8="
  /\ Base64.encode (list_byte_of_string "hello w") = "aGVsbG8gdw=="
  /\ Base64.encode (list_byte_of_string "abc") = "YWJj".
Proof. vm_compute. auto. Qed.

(* ===================================================================== *)
(** * The conflict resolution function *)
(* ===================================================================== *)

Section Truthiness.

Lemma truthy_string_Some (s : string) :
  truthy_string (Some s) = true <-> s <> "".
Proof.
  unfold truthy_string. destruct (String.eqb_spec s ""); simpl; split;
    intros; congruence.
Qed.

Lemma truthy_number_false (n : option Z) :
  truthy_number n = false <-> n = None \/ n = Some 0.
Proof.
  destruct n as [z|]; simpl.
  - destruct (Z.eqb_spec z 0); simpl; split; intros H; subst; auto;
      try discriminate.
    destruct H as [H|H]; congruence.
  - split; auto.
Qed.

Lemma strict_neq_Some (h p : string) :
  strict_neq h (Some p) = true <-> h <> p.
Proof.
  unfold strict_neq. destruct (String.eqb_spec h p); simpl; split;
    intros; congruence.
Qed.

(** An absent or zero timestamp is replaced by the server clock. *)
Lemma claimedMtime_falsy (now : Z) (ts : option Z) :
  truthy_number ts = false -> ConflictResolver.claimedMtime now ts = now.
Proof.
  intros H. destruct ts as [t|]; simpl in *; [|reflexivity].
  destruct (Z.eqb_spec t 0); simpl in *; congruence.
Qed.

Lemma claimedMtime_truthy (now t : Z) :
  t <> 0 -> ConflictResolver.claimedMtime now (Some t) = t.
Proof.
  intros H. simpl. destruct (Z.eqb_spec t 0); simpl; congruence.
Qed.

Lemma in_range_spec (n : Z) :
  JsDate.in_range n = true <-> - JsDate.MAX_TIME <= n <= JsDate.MAX_TIME.
Proof. unfold JsDate.in_range. rewrite andb_true_iff. lia. Qed.

(** The date of a timestamp in range is the date of the claimed number
    (the server's own date is never an Invalid Date). *)
Lemma clientDate_in_range (now : Z) (ts : option Z) :
  ConflictResolver.timestamp_in_range ts ->
  ConflictResolver.clientDate now ts
  = Some (ConflictResolver.claimedMtime now ts).
Proof.
  intros Hr. destruct ts as [t|]; [|reflexivity].
  unfold ConflictResolver.clientDate, ConflictResolver.claimedMtime.
  destruct (truthy_number (Some t)); [|reflexivity].
  unfold JsDate.of_number.
  rewrite (proj2 (in_range_spec t) (Hr t eq_refl)). reflexivity.
Qed.

Lemma clientDate_falsy (now : Z) (ts : option Z) :
  truthy_number ts = false -> ConflictResolver.clientDate now ts = Some now.
Proof.
  intros H. destruct ts as [t|]; [|reflexivity].
  unfold ConflictResolver.clientDate. rewrite H. reflexivity.
Qed.

Lemma clientDate_truthy (now t : Z) :
  t <> 0 -> ConflictResolver.clientDate now (Some t) = JsDate.of_number t.
Proof.
  intros H. unfold ConflictResolver.clientDate, truthy_number.
  destruct (Z.eqb_spec t 0); [contradiction | reflexivity].
Qed.

(** No date is after itself. *)
Lemma of_number_not_after (t : Z) :
  JsDate.gt (JsDate.of_number t) (Some t) = false.
Proof.
  unfold JsDate.of_number. destruct (JsDate.in_range t); [|reflexivity].
  cbn. rewrite Z.gtb_ltb. apply Z.ltb_irrefl.
Qed.

(** A timestamp out of range gives an Invalid Date. *)
Lemma clientDate_out_of_range (now t : Z) :
  t < - JsDate.MAX_TIME \/ JsDate.MAX_TIME < t ->
  ConflictResolver.clientDate now (Some t) = None.
Proof.
  intros Hout. unfold ConflictResolver.clientDate, truthy_number.
  assert (t <> 0) as H0 by (unfold JsDate.MAX_TIME in Hout; lia).
  destruct (Z.eqb_spec t 0); [contradiction|]. cbn [negb].
  unfold JsDate.of_number.
  destruct (JsDate.in_range t) eqn:E; [|reflexivity].
  apply in_range_spec in E. lia.
Qed.

End Truthiness.

(** The prior-hash test of the resolver fires exactly on a non-empty prior
    hash that differs from the stored one. *)
Lemma hash_guard_spec (prev : option string) (stored : string) :
  truthy_string prev && strict_neq stored prev = true
  <-> exists p, prev = Some p /\ p <> "" /\ stored <> p.
Proof.
  destruct prev as [p|]; simpl.
  - rewrite andb_true_iff, negb_true_iff, negb_true_iff.
    split.
    + intros [H1 H2]. exists p. repeat split; auto.
      * intros ->. discriminate.
      * intros ->. rewrite String.eqb_refl in H2. discriminate.
    + intros (q & [= <-] & Hne & Hst). split.
      * destruct (String.eqb_spec p ""); congruence.
      * destruct (String.eqb_spec stored p); congruence.
  - split; [discriminate|]. intros (p & H & _); discriminate.
Qed.

Lemma hash_guard_off (prev : option string) (stored : string) :
  (truthy_string prev = true -> prev = Some stored) ->
  truthy_string prev && strict_neq stored prev = false.
Proof.
  intros H. destruct (truthy_string prev) eqn:E; simpl; [|reflexivity].
  rewrite (H eq_refl). simpl. now rewrite String.eqb_refl.
Qed.

(** A non-empty prior hash that differs from the stored hash is answered
    with the hash_mismatch rejection, before anything else is looked at. *)
Lemma hash_mismatch_resolution
    (now : Z) (data : ConflictResolver.FileConflictData)
    (ef : ConflictResolver.ExistingFile) (p : string) :
  ConflictResolver.existingFile data = Some ef ->
  ConflictResolver.previousHash data = Some p ->
  p <> "" ->
  ConflictResolver.hash ef <> p ->
  ConflictResolver.resolveFileConflict now data
  = {| ConflictResolver.action := ConflictResolver.reject;
       ConflictResolver.reason :=
         "File has been modified by another client since last read";
       ConflictResolver.conflictType := Some "hash_mismatch";
       ConflictResolver.clientMtime := None;
       ConflictResolver.serverMtime := None;
       ConflictResolver.currentVersion := Some (ConflictResolver.version ef);
       ConflictResolver.currentHash := Some (ConflictResolver.hash ef);
       ConflictResolver.updated := None |}.
Proof.
  intros Hef Hprev Hp Hne.
  unfold ConflictResolver.resolveFileConflict. rewrite Hef.
  assert (G : truthy_string (ConflictResolver.previousHash data)
              && strict_neq (ConflictResolver.hash ef)
                   (ConflictResolver.previousHash data) = true).
  { apply hash_guard_spec. exists p. auto. }
  rewrite G. reflexivity.
Qed.

(** C1.  Whenever a claimed prior hash is supplied (a non-empty string:
    the resolver takes an absent and an empty prior hash alike as none) and
    the existing record's stored hash differs from it, the resolver rejects
    with conflict type hash_mismatch and reports the record's current
    version and hash, whatever the claimed content hash and timestamp (and
    whatever the server clock). *)
Theorem C1_hash_mismatch_rejects
    (now : Z) (data : ConflictResolver.FileConflictData)
    (ef : ConflictResolver.ExistingFile) (p : string) :
  ConflictResolver.existingFile data = Some ef ->
  ConflictResolver.previousHash data = Some p ->
  p <> "" ->
  ConflictResolver.hash ef <> p ->
  let resolution := ConflictResolver.resolveFileConflict now data in
  ConflictResolver.action resolution = ConflictResolver.reject
  /\ ConflictResolver.conflictType resolution = Some "hash_mismatch"
  /\ ConflictResolver.currentVersion resolution
     = Some (ConflictResolver.version ef)
  /\ ConflictResolver.currentHash resolution = Some (ConflictResolver.hash ef)
  /\ (forall (otherHash : string) (otherTimestamp : option Z) (otherNow : Z),
        ConflictResolver.resolveFileConflict otherNow
          {| ConflictResolver.vaultId := ConflictResolver.vaultId data;
             ConflictResolver.filePath := ConflictResolver.filePath data;
             ConflictResolver.clientContent := ConflictResolver.clientContent data;
             ConflictResolver.clientHash := otherHash;
             ConflictResolver.clientTimestamp := otherTimestamp;
             ConflictResolver.previousHash := ConflictResolver.previousHash data;
             ConflictResolver.existingFile := ConflictResolver.existingFile data |}
        = resolution).
Proof.
  intros Hef Hprev Hp Hne. cbv zeta.
  rewrite (hash_mismatch_resolution now data ef p Hef Hprev Hp Hne).
  repeat split.
  intros otherHash otherTimestamp otherNow.
  apply (hash_mismatch_resolution otherNow _ ef p); auto.
Qed.

Lemma C1_witness :
  ConflictResolver.action (ConflictResolver.resolveFileConflict 9000 stale_write)
  = ConflictResolver.reject
  /\ ConflictResolver.currentHash
       (ConflictResolver.resolveFileConflict 9000 stale_write) = Some H2.
Proof.
  destruct (C1_hash_mismatch_rejects 9000 stale_write
              {| ConflictResolver.id := 7; ConflictResolver.hash := H2;
                 ConflictResolver.version := 2; ConflictResolver.mtime := 2000;
                 ConflictResolver.size := 6 |} H1
              eq_refl eq_refl ltac:(discriminate) ltac:(discriminate))
    as (Ha & _ & _ & Hh & _).
  split; [exact Ha | exact Hh].
Defined.

(** The two outcomes of a write whose content hash is the stored one. *)
Lemma same_content_resolution
    (now : Z) (data : ConflictResolver.FileConflictData)
    (ef : ConflictResolver.ExistingFile) :
  ConflictResolver.existingFile data = Some ef ->
  ConflictResolver.clientHash data = ConflictResolver.hash ef ->
  (truthy_string (ConflictResolver.previousHash data) = true ->
   ConflictResolver.previousHash data = Some (ConflictResolver.hash ef)) ->
  ConflictResolver.resolveFileConflict now data
  = if JsDate.gt
         (ConflictResolver.clientDate now (ConflictResolver.clientTimestamp data))
         (Some (ConflictResolver.mtime ef))
    then ConflictResolver.plain ConflictResolver.update_mtime_only
           "Same content, updating modification time" (Some "mtime_only")
    else ConflictResolver.plain ConflictResolver.no_change
           "Content and timestamp are up to date" (Some "no_change").
Proof.
  intros Hef Hhash Hprev.
  unfold ConflictResolver.resolveFileConflict. rewrite Hef.
  rewrite (hash_guard_off _ _ Hprev), Hhash, String.eqb_refl. reflexivity.
Qed.


(** A same-content write with a timestamp out of the range of a date is
    answered no_change, whatever the stored time: an Invalid Date is not
    after any time. *)
Lemma same_content_invalid_date
    (now : Z) (data : ConflictResolver.FileConflictData)
    (ef : ConflictResolver.ExistingFile) (t : Z) :
  ConflictResolver.existingFile data = Some ef ->
  ConflictResolver.clientHash data = ConflictResolver.hash ef ->
  (truthy_string (ConflictResolver.previousHash data) = true ->
   ConflictResolver.previousHash data = Some (ConflictResolver.hash ef)) ->
  ConflictResolver.clientTimestamp data = Some t ->
  t < - JsDate.MAX_TIME \/ JsDate.MAX_TIME < t ->
  ConflictResolver.resolveFileConflict now data
  = ConflictResolver.plain ConflictResolver.no_change
      "Content and timestamp are up to date" (Some "no_change").
Proof.
  intros Hef Hhash Hprev Hts Hout.
  rewrite (same_content_resolution now data ef Hef Hhash Hprev), Hts.
  rewrite (clientDate_out_of_range now t Hout). reflexivity.
Qed.

(** C10 (as amended).  With an existing record and no claimed modification
    time (timestamp absent or zero) the resolver takes the server clock as
    the claimed time.  So, with the stored time in the past: a same-content
    write whose prior hash, if supplied (non-empty), is the stored hash is
    classified update_mtime_only; and a differing-content write without a
    prior hash is accepted, in particular never rejected as
    older_timestamp. *)
Theorem C10_missing_timestamp_uses_server_time
    (now : Z) (data : ConflictResolver.FileConflictData)
    (ef : ConflictResolver.ExistingFile) :
  ConflictResolver.existingFile data = Some ef ->
  truthy_number (ConflictResolver.clientTimestamp data) = false ->
  ConflictResolver.mtime ef < now ->
  ConflictResolver.claimedMtime now (ConflictResolver.clientTimestamp data) = now
  /\ (ConflictResolver.clientHash data = ConflictResolver.hash ef ->
      (truthy_string (ConflictResolver.previousHash data) = true ->
       ConflictResolver.previousHash data = Some (ConflictResolver.hash ef)) ->
      ConflictResolver.resolveFileConflict now data
      = ConflictResolver.plain ConflictResolver.update_mtime_only
          "Same content, updating modification time" (Some "mtime_only"))
  /\ (ConflictResolver.clientHash data <> ConflictResolver.hash ef ->
      truthy_string (ConflictResolver.previousHash data) = false ->
      ConflictResolver.resolveFileConflict now data
      = ConflictResolver.plain ConflictResolver.accept
          "Update accepted - client version is newer or hash validation passed"
          (Some "full")
      /\ ConflictResolver.conflictType
           (ConflictResolver.resolveFileConflict now data)
         <> Some "older_timestamp").
Proof.
  intros Hef Hts Hpast.
  pose proof (claimedMtime_falsy now _ Hts) as Hc.
  pose proof (clientDate_falsy now _ Hts) as Hd.
  split; [exact Hc|]. split.
  - intros Hhash Hprev.
    rewrite (same_content_resolution now data ef Hef Hhash Hprev), Hd.
    cbn [JsDate.gt].
    destruct (Z.gtb_spec now (ConflictResolver.mtime ef)); [reflexivity | lia].
  - intros Hhash Hprev.
    assert (E : ConflictResolver.resolveFileConflict now data
                = ConflictResolver.plain ConflictResolver.accept
                    "Update accepted - client version is newer or hash validation passed"
                    (Some "full")).
    { unfold ConflictResolver.resolveFileConflict. rewrite Hef, Hprev, Hd. simpl.
      destruct (String.eqb_spec (ConflictResolver.hash ef)
                  (ConflictResolver.clientHash data)); [congruence|].
      destruct (Z.leb_spec now (ConflictResolver.mtime ef)); [lia | reflexivity]. }
    split; [exact E | rewrite E; discriminate].
Qed.


Lemma C10_witness :
  ConflictResolver.action
    (ConflictResolver.resolveFileConflict 9000 (untimed_write H2))
  = ConflictResolver.update_mtime_only.
Proof.
  destruct (C10_missing_timestamp_uses_server_time 9000 (untimed_write H2)
              {| ConflictResolver.id := 7; ConflictResolver.hash := H2;
                 ConflictResolver.version := 2; ConflictResolver.mtime := 2000;
                 ConflictResolver.size := 4 |}
              eq_refl eq_refl ltac:(simpl; lia)) as (_ & Hsame & _).
  rewrite Hsame; [reflexivity | reflexivity | discriminate].
Defined.


(** C10 as stated fails: same content, no timestamp, stored time (2000) in
    the past of the server clock (9000), and yet the write is rejected as
    hash_mismatch instead of being classified update_mtime_only. *)
Lemma C10_counterexample :
  ConflictResolver.clientTimestamp untimed_stale_write = None
  /\ (exists ef, ConflictResolver.existingFile untimed_stale_write = Some ef
                 /\ ConflictResolver.hash ef
                    = ConflictResolver.clientHash untimed_stale_write
                 /\ ConflictResolver.mtime ef < 9000)
  /\ ConflictResolver.action
       (ConflictResolver.resolveFileConflict 9000 untimed_stale_write)
     = ConflictResolver.reject
  /\ ConflictResolver.conflictType
       (ConflictResolver.resolveFileConflict 9000 untimed_stale_write)
     = Some "hash_mismatch".
Proof.
  split; [reflexivity|]. split; [|split; reflexivity].
  eexists. split; [reflexivity|]. split; [reflexivity | simpl; lia].
Qed.

(* ===================================================================== *)
(** * The sync service: create/update and delete *)
(* ===================================================================== *)

Example scenario_hashes :
  sha256_string "first" = H1 /\ sha256_string "second" = H2
  /\ sha256_string "third" = H3.
Proof. vm_compute. auto. Qed.




(** C5 (as amended).  When a create or update reaches the sync service with
    a non-empty claimed prior hash that differs from the stored hash of the
    record (registered device, content within the size limit), the result is
    unsuccessful with conflict type hash_mismatch and carries the current
    version and the current hash of the record; the file table is unchanged
    and no content is written.  The file-change handler passes no prior hash
    to the sync service: two file-change messages that differ only in the
    prior hash they claim have the same outcome. *)
Theorem C5_stale_prior_hash_rejected_by_sync_service
    (cfg : Config) (resolverNow mtimeNow : Z)
    (data : SyncService.FileOperationData) (db : DB)
    (device : Device.t) (ef : File.t) (p : string) :
  devices db !! SyncService.deviceId data = Some device ->
  SyncService.operationType data = CREATE
  \/ SyncService.operationType data = UPDATE ->
  byteLength (SyncService.content data) <= maxFileSize cfg ->
  Prisma.file_findFirst (SyncService.vaultId data) (SyncService.filePath data) db
  = Some ef ->
  SyncService.previousHash data = Some p ->
  p <> "" ->
  File.hash ef <> p ->
  (let out := SyncService.processFileChange cfg resolverNow mtimeNow data db in
   out.1.1
   = inr {| SyncService.success := false;
            SyncService.version := File.version ef;
            SyncService.hash := File.hash ef;
            SyncService.currentVersion := Some (File.version ef);
            SyncService.currentHash := Some (File.hash ef);
            SyncService.conflictType := Some "hash_mismatch";
            SyncService.clientMtime := None;
            SyncService.serverMtime := None;
            SyncService.updated := None |}
   /\ files out.1.2 = files db
   /\ out.2 = [])
  /\ (forall (m1 m2 : FileChangeMessage.t) (db' : DB),
        FileChangeMessage.vaultId m1 = FileChangeMessage.vaultId m2 ->
        FileChangeMessage.filePath m1 = FileChangeMessage.filePath m2 ->
        FileChangeMessage.content m1 = FileChangeMessage.content m2 ->
        FileChangeMessage.hash m1 = FileChangeMessage.hash m2 ->
        FileChangeMessage.timestamp m1 = FileChangeMessage.timestamp m2 ->
        FileChangeMessage.deviceId m1 = FileChangeMessage.deviceId m2 ->
        MessageHandlerService.handleFileChange cfg resolverNow mtimeNow m1 db'
        = MessageHandlerService.handleFileChange cfg resolverNow mtimeNow m2 db').
Proof.
  intros Hdev Hop Hfit Hfind Hprev Hp Hne. split.
  - cbv zeta. unfold SyncService.processFileChange, SyncService.validateDevice.
    rewrite Hdev.
    replace (match SyncService.operationType data with
             | DELETE => _ | RENAME => _ | _ => _ end)
      with (SyncService.processCreateUpdateOperation cfg resolverNow mtimeNow
              data (Device.id device) db)
      by (destruct Hop as [-> | ->]; reflexivity).
    unfold SyncService.processCreateUpdateOperation.
    destruct (Z.gtb_spec (byteLength (SyncService.content data)) (maxFileSize cfg));
      [lia|].
    unfold transaction. cbn [Prisma.syncOperation_create freshId].
    unfold Prisma.file_findFirst in *. cbn [files set_syncOperations].
    rewrite Hfind.
    erewrite hash_mismatch_resolution;
      [ | reflexivity | cbn; exact Hprev | exact Hp | cbn; exact Hne ].
    cbn. auto.
  - intros m1 m2 db' Hv Hf Hc Hh Ht Hd.
    unfold MessageHandlerService.handleFileChange.
    rewrite Hv, Hf, Hc, Hh, Ht, Hd. reflexivity.
Qed.

Lemma C5_witness :
  SyncService.conflictType
    match (SyncService.processFileChange cfg0 9000 9000 stale_operation db_note).1.1
    with
    | inr r => r
    | inl _ => SyncService.ok_result 0 "" None
    end
  = Some "hash_mismatch".
Proof.
  destruct (C5_stale_prior_hash_rejected_by_sync_service cfg0 9000 9000
              stale_operation db_note deviceA note_v2 H1
              ltac:(vm_compute; reflexivity) ltac:(right; reflexivity)
              ltac:(vm_compute; discriminate) ltac:(vm_compute; reflexivity)
              eq_refl ltac:(discriminate) ltac:(discriminate))
    as [(E & _ & _) _].
  cbv zeta in E. rewrite E. reflexivity.
Defined.

(** C5 as stated fails on the file-change handler: client A claims prior
    hash H1 while the stored hash of note.md is H2, and the write is applied:
    the answer reports success with the new hash H3 at version 3, the record
    now holds H3 and the content is written to the store. *)
Lemma C5_counterexample :
  FileChangeMessage.previousHash stale_message = Some H1
  /\ Prisma.file_findFirst "vault-1" "note.md" db_note = Some note_v2
  /\ File.hash note_v2 = H2 /\ H1 <> H2
  /\ exists broadcast db',
       MessageHandlerService.handleFileChange cfg0 9000 9000 stale_message db_note
       = (inr (Some broadcast,
               Some {| FileChangeResponse.success := true;
                       FileChangeResponse.filePath := "note.md";
                       FileChangeResponse.hash := H3;
                       FileChangeResponse.version := 3 |}),
          db',
          [storage_writeFile "vault-1" "note.md" "third"])
       /\ List.map File.hash (files db') = [H3].
Proof.
  split; [reflexivity|]. split; [reflexivity|]. split; [reflexivity|].
  split; [discriminate|].
  eexists _, _. split; vm_compute; reflexivity.
Qed.

(** C6 (as amended).  The delete decision accepts an absent record as a
    no-op, rejects an existing record as file_locked exactly when its caller
    flags active locks (whoever holds them) and accepts otherwise.  The sync
    service's delete takes no lock into account: it calls the decision
    without that flag, so for a registered device the delete is accepted
    whether or not a record exists; an existing record is removed together
    with the lock rows of the file. *)
Theorem C6_delete_decision
    (cfg : Config) (resolverNow mtimeNow : Z)
    (data : SyncService.FileOperationData) (db : DB) (device : Device.t) :
  devices db !! SyncService.deviceId data = Some device ->
  SyncService.operationType data = DELETE ->
  (forall (vaultId filePath : string) (existingFile : option File.t)
          (hasActiveLocks : option bool),
     ConflictResolver.resolveDeleteConflict vaultId filePath existingFile
       hasActiveLocks
     = match existingFile with
       | None =>
           ConflictResolver.plain ConflictResolver.accept
             "File already does not exist" (Some "already_deleted")
       | Some _ =>
           if truthy_bool hasActiveLocks
           then {| ConflictResolver.action := ConflictResolver.reject;
                   ConflictResolver.reason := "Cannot delete file with active locks";
                   ConflictResolver.conflictType := Some "file_locked";
                   ConflictResolver.clientMtime := None;
                   ConflictResolver.serverMtime := None;
                   ConflictResolver.currentVersion := None;
                   ConflictResolver.currentHash := None;
                   ConflictResolver.updated := None |}
           else ConflictResolver.plain ConflictResolver.accept
                  "Delete operation is valid" None
       end)
  /\
  let out := SyncService.processFileChange cfg resolverNow mtimeNow data db in
  out.1.1 = inr (SyncService.ok_result 0 "" None)
  /\ match Prisma.file_findFirst (SyncService.vaultId data)
             (SyncService.filePath data) db with
     | None =>
         files out.1.2 = files db /\ fileLocks out.1.2 = fileLocks db
         /\ out.2 = []
     | Some ef =>
         files out.1.2
         = List.filter (fun f => negb (Nat.eqb (File.id f) (File.id ef))) (files db)
         /\ fileLocks out.1.2 = delete (File.id ef) (fileLocks db)
         /\ out.2 = [storage_deleteFile (SyncService.vaultId data)
                       (SyncService.filePath data)]
     end.
Proof.
  intros Hdev Hop. split.
  - intros v p [f|] flag; reflexivity.
  - cbv zeta. unfold SyncService.processFileChange, SyncService.validateDevice.
    rewrite Hdev, Hop.
    unfold SyncService.processDeleteOperation, transaction.
    cbn [Prisma.syncOperation_create freshId].
    unfold Prisma.file_findFirst. cbn [files set_syncOperations].
    destruct (List.find _ (files db)) as [ef|]; cbn; auto.
Qed.

Lemma C6_witness :
  (SyncService.processFileChange cfg0 9000 9000 delete_by_B db_note).1.1
  = inr (SyncService.ok_result 0 "" None).
Proof.
  exact (proj1 (proj2 (C6_delete_decision cfg0 9000 9000 delete_by_B db_note
                         deviceB ltac:(vm_compute; reflexivity) eq_refl))).
Defined.

(** C6 as stated fails: note.md exists and device A holds an unexpired lock
    on it (until 50000, the clock reads 30000); device B's delete is accepted
    all the same, and the record and the lock are gone. *)
Lemma C6_counterexample :
  Prisma.file_findFirst "vault-1" "note.md" db_locked = Some note_v2
  /\ fileLocks db_locked !! File.id note_v2 = Some lock_A
  /\ FileLock.expiresAt lock_A > 30000
  /\ FileLock.deviceId lock_A = Device.id deviceA
  /\ devices db_locked !! "device-B" = Some deviceB
  /\ Device.id deviceB <> Device.id deviceA
  /\ exists db',
       SyncService.processFileChange cfg0 30000 30000 delete_by_B db_locked
       = (inr (SyncService.ok_result 0 "" None), db',
          [storage_deleteFile "vault-1" "note.md"])
       /\ files db' = [] /\ fileLocks db' = ∅.
Proof.
  repeat (split; [vm_compute; (reflexivity || discriminate)|]).
  eexists. split; [vm_compute; reflexivity|]. split; vm_compute; reflexivity.
Qed.

(* ===================================================================== *)
(** * File locks *)
(* ===================================================================== *)

(** C4 (as amended).  An acquire on an existing file: a non-expired lock
    owned by the requesting (registered) device is renewed in place, with
    acquired time [now] and expiry [Date.now()] + lease, and the acquire
    succeeds; a non-expired lock owned by anyone else makes the acquire fail
    and leaves the database as it is; an expired lock row is deleted and a
    fresh lock with expiry [Date.now()] + lease is inserted for the
    requesting device, provided that device is registered. *)
Theorem C4_lock_acquire
    (cfg : Config) (now dateNow : Z) (vaultId filePath deviceId : string)
    (db : DB) (file : File.t) (l : FileLock.t) :
  Prisma.file_findFirst vaultId filePath db = Some file ->
  fileLocks db !! File.id file = Some l ->
  let out :=
    FileLockService.requestFileLock cfg now dateNow vaultId filePath deviceId db in
  (forall device,
     devices db !! deviceId = Some device ->
     FileLock.expiresAt l > now ->
     FileLock.deviceId l = Device.id device ->
     let renewed :=
       {| FileLock.id := FileLock.id l; FileLock.vaultId := FileLock.vaultId l;
          FileLock.fileId := FileLock.fileId l;
          FileLock.deviceId := FileLock.deviceId l;
          FileLock.lockedAt := now;
          FileLock.expiresAt := dateNow + fileLockExpiration cfg |} in
     LockResult.success out.1 = true
     /\ out.1 = FileLockService.granted renewed
     /\ fileLocks out.2 = <[File.id file := renewed]> (fileLocks db)
     /\ files out.2 = files db /\ devices out.2 = devices db)
  /\ (FileLock.expiresAt l > now ->
      (forall device, devices db !! deviceId = Some device ->
                      FileLock.deviceId l <> Device.id device) ->
      LockResult.success out.1 = false /\ out.2 = db)
  /\ (forall device,
        devices db !! deviceId = Some device ->
        FileLock.expiresAt l <= now ->
        let fresh :=
          {| FileLock.id := nextId db; FileLock.vaultId := vaultId;
             FileLock.fileId := File.id file;
             FileLock.deviceId := Device.id device;
             FileLock.lockedAt := now;
             FileLock.expiresAt := dateNow + fileLockExpiration cfg |} in
        out.1 = FileLockService.granted fresh
        /\ fileLocks out.2 = <[File.id file := fresh]> (delete (File.id file) (fileLocks db))
        /\ files out.2 = files db /\ devices out.2 = devices db).
Proof.
  intros Hfile Hlock. cbv zeta.
  unfold FileLockService.requestFileLock. rewrite Hfile.
  split; [|split].
  - intros device Hdev Hlive Hown. rewrite Hdev, Hlock.
    destruct (Z.gtb_spec (FileLock.expiresAt l) now); [|lia].
    rewrite Hown, Nat.eqb_refl. cbn. auto.
  - intros Hlive Hother. destruct (devices db !! deviceId) as [device|] eqn:Hdev.
    + rewrite Hlock.
      destruct (Z.gtb_spec (FileLock.expiresAt l) now); [|lia].
      destruct (Nat.eqb_spec (FileLock.deviceId l) (Device.id device)) as [E|_].
      * exfalso. exact (Hother device eq_refl E).
      * cbn. auto.
    + cbn. auto.
  - intros device Hdev Hdead. rewrite Hdev, Hlock.
    destruct (Z.gtb_spec (FileLock.expiresAt l) now); [lia|].
    unfold FileLockService.createLock. cbn [fileLocks set_fileLocks].
    rewrite lookup_delete_eq. cbn. auto.
Qed.

Lemma C4_witness :
  LockResult.success
    (FileLockService.requestFileLock cfg0 30000 30001 "vault-1" "note.md"
       "device-A" db_locked).1 = true
  /\ LockResult.expiresAt
       (FileLockService.requestFileLock cfg0 30000 30001 "vault-1" "note.md"
          "device-A" db_locked).1 = Some 60001.
Proof.
  destruct (C4_lock_acquire cfg0 30000 30001 "vault-1" "note.md" "device-A"
              db_locked note_v2 lock_A
              ltac:(vm_compute; reflexivity) ltac:(vm_compute; reflexivity))
    as (Hsame & _ & _).
  destruct (Hsame deviceA ltac:(vm_compute; reflexivity)
              ltac:(vm_compute; reflexivity) eq_refl) as (Hs & Hr & _).
  split; [exact Hs | rewrite Hr; reflexivity].
Defined.

(** C4 as stated fails: note.md exists, its only lock row has expired (at
    50000, the clock reads 60000), and the acquire of a device that never
    registered neither deletes the row nor inserts a lock: it fails with
    "Device not found" and the database is unchanged. *)
Lemma C4_counterexample :
  Prisma.file_findFirst "vault-1" "note.md" db_locked = Some note_v2
  /\ fileLocks db_locked !! File.id note_v2 = Some lock_A
  /\ FileLock.expiresAt lock_A <= 60000
  /\ FileLockService.requestFileLock cfg0 60000 60000 "vault-1" "note.md"
       "device-X" db_locked
     = (FileLockService.failure "Device not found" None, db_locked).
Proof.
  repeat (split; [vm_compute; (reflexivity || discriminate)|]).
  vm_compute. reflexivity.
Qed.

(** While a device holds a non-expired lock on a file, the lock service
    denies the request of another registered device: its result is
    unsuccessful, gives the reason and carries the expiry time of the held
    lock, and the database is unchanged. *)
Lemma held_lock_is_denied
    (cfg : Config) (now lockDateNow : Z)
    (vaultId filePath deviceId : string) (db : DB)
    (device : Device.t) (file : File.t) (held : FileLock.t) :
  devices db !! deviceId = Some device ->
  Prisma.file_findFirst vaultId filePath db = Some file ->
  fileLocks db !! File.id file = Some held ->
  FileLock.deviceId held <> Device.id device ->
  FileLock.expiresAt held > now ->
  SyncService.requestFileLock cfg now lockDateNow vaultId filePath deviceId db
  = ({| LockResult.success := false;
        LockResult.lock := None;
        LockResult.reason := Some "File is locked by another device";
        LockResult.expiresAt := Some (FileLock.expiresAt held) |}, db).
Proof.
  intros Hdev Hfile Hlock Hother Hlive.
  unfold SyncService.requestFileLock, FileLockService.requestFileLock.
  rewrite Hdev, Hfile, Hlock.
  destruct (Z.gtb_spec (FileLock.expiresAt held) now); [|lia].
  destruct (Nat.eqb_spec (FileLock.deviceId held) (Device.id device));
    [contradiction | reflexivity].
Qed.

(** C7.  The handler at the input where it departs from the claim: device
    A holds the lock on note.md until 50000 and device B, registered, asks
    for it at 30000.  The lock service denies the request and its result
    carries the expiry 50000; the handler tests the result object itself,
    which is truthy, and answers lock-acquired with the expiry
    30000 + 30000.  The lock row is still A's. *)
Theorem C7_denied_request_is_answered_lock_acquired :
  fileLocks db_locked !! File.id note_v2 = Some lock_A
  /\ FileLock.deviceId lock_A = Device.id deviceA
  /\ FileLock.expiresAt lock_A > 30000
  /\ devices db_locked !! "device-B" = Some deviceB
  /\ SyncService.requestFileLock cfg0 30000 30000 "vault-1" "note.md"
       "device-B" db_locked
     = ({| LockResult.success := false;
           LockResult.lock := None;
           LockResult.reason := Some "File is locked by another device";
           LockResult.expiresAt := Some 50000 |}, db_locked)
  /\ MessageHandlerService.handleRequestLock cfg0 30000 30000 30000
       lock_request_B db_locked
     = (lock_acquired "vault-1" "note.md" "device-B" 60000, db_locked).
Proof.
  do 4 (split; [vm_compute; reflexivity|]).
  split.
  - apply (held_lock_is_denied cfg0 30000 30000 "vault-1" "note.md" "device-B"
             db_locked deviceB note_v2 lock_A); vm_compute;
      (reflexivity || discriminate).
  - vm_compute. reflexivity.
Qed.

(* ===================================================================== *)
(** * Chunked uploads *)
(* ===================================================================== *)

Section ChunkSessions.

Variable s : ChunkSession.t.

(** The list of missing indices holds exactly the indices below the
    declared count that have no stored chunk. *)
Lemma missingOf_spec (i : Z) :
  In i (ChunkSessionService.missingOf s)
  <-> 0 <= i < ChunkSession.totalChunks s
      /\ ChunkSession.receivedChunks s !! i = None.
Proof.
  unfold ChunkSessionService.missingOf, ChunkSessionService.indices.
  rewrite List.filter_In, <- list_elem_of_In, elem_of_seqZ.
  rewrite negb_true_iff, bool_decide_eq_false.
  split; intros [Hr Hm]; (split; [lia|]).
  - destruct (ChunkSession.receivedChunks s !! i) eqn:E; [|reflexivity].
    exfalso. apply Hm. eauto.
  - rewrite Hm. intros [x Hx]. discriminate.
Qed.

Lemma missingOf_nil :
  ChunkSessionService.missingOf s = []
  <-> forall i, 0 <= i < ChunkSession.totalChunks s ->
                is_Some (ChunkSession.receivedChunks s !! i).
Proof.
  split.
  - intros Hnil i Hi.
    destruct (ChunkSession.receivedChunks s !! i) eqn:E; [eauto|].
    assert (In i (ChunkSessionService.missingOf s)) as Hin
      by (apply missingOf_spec; auto).
    rewrite Hnil in Hin. destruct Hin.
  - intros Hall. destruct (ChunkSessionService.missingOf s) as [|i rest] eqn:E;
      [reflexivity|].
    assert (In i (ChunkSessionService.missingOf s)) as Hin
      by (rewrite E; left; reflexivity).
    apply missingOf_spec in Hin. destruct Hin as [Hi Hnone].
    destruct (Hall i Hi) as [x Hx]. congruence.
Qed.

(** The missing indices are reported in increasing order, each once. *)
Lemma missingOf_NoDup : List.NoDup (ChunkSessionService.missingOf s).
Proof.
  unfold ChunkSessionService.missingOf, ChunkSessionService.indices.
  apply List.NoDup_filter. apply NoDup_ListNoDup, NoDup_seqZ.
Qed.

End ChunkSessions.

(** What a failed completion leaves behind, and what a successful one
    removes. *)
Lemma completeUpload_sessions
    (cfg : Config) (sessionId : string)
    (sessions : gmap string ChunkSession.t) (storage : StorageService.t) :
  let out := ChunkSessionService.completeUpload cfg sessionId sessions storage in
  out.1.2 = if ChunkSessionService.success out.1.1
            then delete sessionId sessions else sessions.
Proof.
  cbv zeta. unfold ChunkSessionService.completeUpload.
  destruct (sessions !! sessionId) as [s|]; [|reflexivity].
  destruct (0 <? _)%nat; [reflexivity|].
  destruct (negb (_ =? _)); [reflexivity|].
  destruct (negb (String.eqb _ _)); [reflexivity|].
  destruct (StorageService.writeFile _ _ _ _ _) as [[e|u] st']; reflexivity.
Qed.

(** C2 (as amended).  For a session with declared chunk count n, total size
    S and total hash H, completion succeeds if and only if every index in
    [0, n) has a stored chunk, the concatenation of the chunks in index
    order has S bytes and hash H, and the content store accepts the write of
    the assembled file.  When an index is missing, completion fails with the
    list of missing indices, which names each index of [0, n) without a
    chunk once and nothing else.  A chunk is stored only when its payload
    has the hash sent with it; otherwise the sessions are left as they
    are. *)
Theorem C2_completion_iff_verified
    (cfg : Config) (sessionId : string)
    (sessions : gmap string ChunkSession.t) (storage : StorageService.t)
    (s : ChunkSession.t) :
  sessions !! sessionId = Some s ->
  let out := ChunkSessionService.completeUpload cfg sessionId sessions storage in
  let assembled := ChunkSessionService.assemble s in
  (ChunkSessionService.success out.1.1 = true
   <-> (forall i, 0 <= i < ChunkSession.totalChunks s ->
                  is_Some (ChunkSession.receivedChunks s !! i))
       /\ Z.of_nat (List.length assembled) = ChunkSession.fileSize s
       /\ sha256_buffer assembled = ChunkSession.fileHash s
       /\ (StorageService.writeFile cfg (ChunkSession.vaultId s)
             (ChunkSession.filePath s) (Base64.encode assembled) storage).1
          = inr tt)
  /\ ((exists i, 0 <= i < ChunkSession.totalChunks s
                 /\ ChunkSession.receivedChunks s !! i = None) ->
      out = (ChunkSessionService.failed_with "Missing chunks"
               (Some (ChunkSessionService.missingOf s)), sessions, storage))
  /\ (forall i, In i (ChunkSessionService.missingOf s)
                <-> 0 <= i < ChunkSession.totalChunks s
                    /\ ChunkSession.receivedChunks s !! i = None)
  /\ List.NoDup (ChunkSessionService.missingOf s)
  /\ (forall (now : Z) (chunkIndex : Z) (chunkData : Buffer) (chunkHash : string),
        let stored :=
          ChunkSessionService.storeChunk now sessionId chunkIndex chunkData
            chunkHash sessions in
        (sha256_buffer chunkData <> chunkHash ->
         ChunkSessionService.store_success stored.1 = false
         /\ stored.2 = sessions)
        /\ (sha256_buffer chunkData = chunkHash ->
            ChunkSessionService.store_success stored.1 = true
            /\ exists s', stored.2 = <[sessionId := s']> sessions
                 /\ ChunkSession.receivedChunks s'
                    = <[chunkIndex := chunkData]> (ChunkSession.receivedChunks s)
                 /\ ChunkSession.totalChunks s' = ChunkSession.totalChunks s
                 /\ ChunkSession.fileSize s' = ChunkSession.fileSize s
                 /\ ChunkSession.fileHash s' = ChunkSession.fileHash s)).
Proof.
  intros Hs. cbv zeta.
  split; [|split; [|split; [|split]]].
  - unfold ChunkSessionService.completeUpload. rewrite Hs.
    rewrite <- (missingOf_nil s).
    destruct (ChunkSessionService.missingOf s) as [|i rest]; cbn [List.length].
    + replace (0 <? 0)%nat with false by reflexivity.
      destruct (Z.eqb_spec (Z.of_nat (List.length (ChunkSessionService.assemble s)))
                  (ChunkSession.fileSize s)) as [Hlen|Hlen]; cbn [negb].
      * destruct (String.eqb_spec (sha256_buffer (ChunkSessionService.assemble s))
                    (ChunkSession.fileHash s)) as [Hh|Hh]; cbn [negb].
        -- destruct (StorageService.writeFile _ _ _ _ _) as [[e|[]] st']; cbn.
           ++ split; [discriminate | intros (_ & _ & _ & H); discriminate].
           ++ split; auto.
        -- cbn. split; [discriminate | intros (_ & _ & H & _); contradiction].
      * cbn. split; [discriminate | intros (_ & H & _); contradiction].
    + replace (0 <? S (List.length rest))%nat with true by reflexivity.
      cbn. split; [discriminate | intros (H & _); discriminate].
  - intros (i & Hi & Hnone).
    unfold ChunkSessionService.completeUpload. rewrite Hs.
    assert (In i (ChunkSessionService.missingOf s)) as Hin
      by (apply missingOf_spec; auto).
    destruct (ChunkSessionService.missingOf s) as [|j rest]; [destruct Hin|].
    reflexivity.
  - apply missingOf_spec.
  - apply missingOf_NoDup.
  - intros now chunkIndex chunkData chunkHash.
    unfold ChunkSessionService.storeChunk. rewrite Hs.
    destruct (String.eqb_spec (sha256_buffer chunkData) chunkHash) as [E|E];
      cbn [negb]; split; intros H; try contradiction; cbn.
    + split; [reflexivity|]. eexists. split; [reflexivity|]. cbn. auto.
    + auto.
Qed.

Example hello_two_chunks_incomplete :
  ChunkSessionService.completeUpload cfg0 hello_session_id hello_two_chunks storage0
  = (ChunkSessionService.failed_with "Missing chunks" (Some [1]),
     hello_two_chunks, storage0).
Proof. vm_compute. reflexivity. Qed.

Lemma C2_witness :
  ChunkSessionService.success
    (ChunkSessionService.completeUpload cfg0 hello_session_id hello_all_chunks
       storage0).1.1 = true.
Proof.
  destruct (hello_all_chunks !! hello_session_id) as [s|] eqn:Hs;
    [|vm_compute in Hs; discriminate].
  pose proof (C2_completion_iff_verified cfg0 hello_session_id hello_all_chunks
                storage0 s Hs) as [Hiff _].
  cbv zeta in Hiff. apply Hiff. clear Hiff.
  vm_compute in Hs. injection Hs as <-.
  split; [|split; [|split]]; try (vm_compute; reflexivity).
  intros i Hi. cbn [ChunkSession.totalChunks] in Hi.
  assert (i = 0 \/ i = 1 \/ i = 2) as [-> | [-> | ->]] by lia;
    vm_compute; eauto.
Defined.

(** C2 as stated fails: the only chunk of the session is stored, with the
    declared size (2) and hash, and completion still fails, because the
    content store refuses the session's path. *)
Lemma C2_counterexample :
  exists s,
    escaping_upload !! escaping_session_id = Some s
    /\ ChunkSession.totalChunks s = 1
    /\ is_Some (ChunkSession.receivedChunks s !! 0)
    /\ Z.of_nat (List.length (ChunkSessionService.assemble s))
       = ChunkSession.fileSize s
    /\ sha256_buffer (ChunkSessionService.assemble s) = ChunkSession.fileHash s
    /\ ChunkSessionService.completeUpload cfg0 escaping_session_id
         escaping_upload storage0
       = (ChunkSessionService.failed_with
            "Assembly failed: Path traversal detected" None,
          escaping_upload, storage0).
Proof.
  eexists. split; [vm_compute; reflexivity|].
  split; [reflexivity|]. split; [vm_compute; eauto|].
  split; [vm_compute; reflexivity|]. split; vm_compute; reflexivity.
Qed.

(** C9 (as amended).  A completion that fails, for whatever reason (missing
    chunks, size mismatch, mismatch of the final hash, a refused write),
    leaves every session with all its chunks as it was; the session is
    removed exactly when completion succeeds.  In particular a mismatch of
    the assembled file's hash with the declared total hash is answered with
    "Final file hash verification failed" and keeps the session. *)
Theorem C9_failed_completion_keeps_session
    (cfg : Config) (sessionId : string)
    (sessions : gmap string ChunkSession.t) (storage : StorageService.t) :
  let out := ChunkSessionService.completeUpload cfg sessionId sessions storage in
  (ChunkSessionService.success out.1.1 = false -> out.1.2 = sessions)
  /\ (ChunkSessionService.success out.1.1 = true ->
      out.1.2 = delete sessionId sessions)
  /\ (forall s,
        sessions !! sessionId = Some s ->
        (forall i, 0 <= i < ChunkSession.totalChunks s ->
                   is_Some (ChunkSession.receivedChunks s !! i)) ->
        Z.of_nat (List.length (ChunkSessionService.assemble s))
        = ChunkSession.fileSize s ->
        sha256_buffer (ChunkSessionService.assemble s) <> ChunkSession.fileHash s ->
        out = (ChunkSessionService.failed_with
                 "Final file hash verification failed" None, sessions, storage)).
Proof.
  cbv zeta.
  pose proof (completeUpload_sessions cfg sessionId sessions storage) as H.
  cbv zeta in H. split; [|split].
  - intros E. rewrite E in H. exact H.
  - intros E. rewrite E in H. exact H.
  - intros s Hs Hall Hlen Hhash.
    unfold ChunkSessionService.completeUpload. rewrite Hs.
    apply missingOf_nil in Hall. rewrite Hall. cbn [List.length].
    replace (0 <? 0)%nat with false by reflexivity.
    rewrite Hlen, Z.eqb_refl. cbn [negb].
    destruct (String.eqb_spec (sha256_buffer (ChunkSessionService.assemble s))
                (ChunkSession.fileHash s)); [contradiction | reflexivity].
Qed.

(** C9 as stated fails: the assembled file ("hi") does not have the
    declared total hash, completion reports the final hash mismatch, and the
    session is still there with its chunk. *)
Lemma C9_counterexample :
  exists s,
    wrong_hash_upload !! wrong_hash_session_id = Some s
    /\ sha256_buffer (ChunkSessionService.assemble s) <> ChunkSession.fileHash s
    /\ ChunkSessionService.completeUpload cfg0 wrong_hash_session_id
         wrong_hash_upload storage0
       = (ChunkSessionService.failed_with
            "Final file hash verification failed" None,
          wrong_hash_upload, storage0)
    /\ ChunkSession.receivedChunks s !! 0 = Some (list_byte_of_string "hi").
Proof.
  eexists. split; [vm_compute; reflexivity|].
  split; [vm_compute; discriminate|]. split; vm_compute; reflexivity.
Qed.

Lemma C9_witness :
  (ChunkSessionService.completeUpload cfg0 wrong_hash_session_id
     wrong_hash_upload storage0).1.2 = wrong_hash_upload.
Proof.
  apply (proj1 (C9_failed_completion_keeps_session cfg0 wrong_hash_session_id
                  wrong_hash_upload storage0)).
  vm_compute. reflexivity.
Defined.

(* ===================================================================== *)
(** * The write serialization queue *)
(* ===================================================================== *)

Section WriteQueueInvariant.

Import WriteQueue.
Local Open Scope nat_scope.

(** ** The handlers waiting behind the head *)

Lemma waiting_snoc (j c : nat) :
  waiting j (S c)
  = (waiting j c
     ++ [(2 * (j + c), RunTask (j + c) (2 * (j + c) + 1));
         (2 * (j + c) + 1, KeepAlive (2 * (j + c) + 2))])%list.
Proof.
  revert j. induction c as [|c IH]; intros j.
  - cbn [waiting app]. now rewrite Nat.add_0_r.
  - change (waiting j (S (S c)))
      with ((2 * j, RunTask j (2 * j + 1))
              :: (2 * j + 1, KeepAlive (2 * j + 2)) :: waiting (S j) (S c)).
    rewrite (IH (S j)). cbn [waiting app].
    now replace (S j + c) with (j + S c) by lia.
Qed.

Lemma waiting_above (p j c : nat) :
  p < 2 * j ->
  List.filter (fun pr => Nat.eqb (fst pr) p) (waiting j c) = []
  /\ List.filter (fun pr => negb (Nat.eqb (fst pr) p)) (waiting j c)
     = waiting j c.
Proof.
  revert j. induction c as [|c IH]; intros j Hp; [split; reflexivity|].
  destruct (IH (S j) ltac:(lia)) as [E1 E2].
  cbn [waiting List.filter fst].
  destruct (Nat.eqb_spec (2 * j) p); [lia|].
  destruct (Nat.eqb_spec (2 * j + 1) p); [lia|].
  cbn [negb]. rewrite E1, E2. split; reflexivity.
Qed.

(** ** Events *)

Lemma execution_app (l1 l2 : list Event) :
  execution (l1 ++ l2) = (execution l1 ++ execution l2)%list.
Proof. apply List.filter_app. Qed.

Lemma serial_snoc (j : nat) (outs : list bool) (o : bool) :
  serial j (outs ++ [o])
  = (serial j outs
     ++ [Started (j + List.length outs); Settled (j + List.length outs) o])%list.
Proof.
  revert j. induction outs as [|x outs IH]; intros j; cbn.
  - now rewrite Nat.add_0_r.
  - rewrite IH. now replace (S j + List.length outs) with (j + S (List.length outs)) by lia.
Qed.

Lemma serial_In_Settled (j0 : nat) (outs : list bool) (j : nat) (o : bool) :
  In (Settled j o) (serial j0 outs)
  <-> j0 <= j /\ List.nth_error outs (j - j0) = Some o.
Proof.
  revert j0. induction outs as [|x outs IH]; intros j0; cbn.
  - split; [tauto|]. intros [_ H]. destruct (j - j0); discriminate.
  - rewrite IH. split.
    + intros [H | [H | [Hle Hn]]]; [discriminate | |].
      * injection H as -> ->. rewrite Nat.sub_diag. auto.
      * split; [lia|]. replace (j - j0) with (S (j - S j0)) by lia. exact Hn.
    + intros [Hle Hn].
      destruct (Nat.eq_dec j j0) as [->|Hne].
      * rewrite Nat.sub_diag in Hn. injection Hn as ->. auto.
      * right; right. split; [lia|].
        replace (j - j0) with (S (j - S j0)) in Hn by lia. exact Hn.
Qed.

Lemma serial_In_Started (j0 : nat) (outs : list bool) (j : nat) :
  In (Started j) (serial j0 outs) <-> j0 <= j < j0 + List.length outs.
Proof.
  revert j0. induction outs as [|x outs IH]; intros j0; cbn.
  - split; [tauto | lia].
  - rewrite IH. split.
    + intros [H | [H | H]]; [injection H as -> | discriminate |]; lia.
    + intros H. destruct (Nat.eq_dec j j0) as [->|Hne]; [auto|].
      right; right. lia.
Qed.

(** In a serial execution, possibly followed by the start (and the end) of
    the next task, whatever precedes the start of task [k] holds the end
    of every earlier task. *)
Lemma serial_before_start (outs : list bool) :
  forall (j0 : nat) (cur A B : list Event) (k : nat),
    (cur = [] \/ cur = [Started (j0 + List.length outs)]
     \/ exists o, cur = [Started (j0 + List.length outs);
                         Settled (j0 + List.length outs) o]) ->
    (serial j0 outs ++ cur)%list = (A ++ Started k :: B)%list ->
    forall j, j0 <= j < k -> exists ok, In (Settled j ok) A.
Proof.
  induction outs as [|o outs IH]; intros j0 cur A B k Hcur E j Hj.
  - cbn [serial app List.length] in *. rewrite Nat.add_0_r in Hcur.
    destruct Hcur as [-> | [-> | [x ->]]].
    + destruct A; discriminate.
    + destruct A as [|a A]; [injection E as <-; lia|].
      destruct A; discriminate.
    + destruct A as [|a A]; [injection E as <-; lia|].
      destruct A as [|b A]; [discriminate|]. destruct A; discriminate.
  - cbn [serial app List.length] in *.
    destruct A as [|a A]; [injection E as <-; lia|].
    destruct A as [|b A]; [discriminate|].
    injection E as <- <- E.
    destruct (Nat.eq_dec j j0) as [->|Hne].
    + exists o. right; left; reflexivity.
    + destruct (IH (S j0) cur A B k) with (j := j) as [ok Hok]; auto.
      * replace (S j0 + List.length outs) with (j0 + S (List.length outs)) by lia.
        exact Hcur.
      * assert (S j0 <= k).
        { destruct (Nat.le_gt_cases (S j0) k) as [|Hlt]; [assumption|].
          exfalso. clear - E Hlt Hcur.
          assert (In (Started k) (serial (S j0) outs ++ cur)) as Hin
            by (rewrite E; apply List.in_or_app; right; left; reflexivity).
          apply List.in_app_or in Hin. destruct Hin as [Hin|Hin].
          - apply serial_In_Started in Hin. lia.
          - destruct Hcur as [-> | [-> | [x ->]]]; cbn in Hin;
              intuition (try discriminate);
              match goal with H : Started _ = Started _ |- _ =>
                injection H as ? end; lia. }
        lia.
      * exists ok. right; right; exact Hok.
Qed.

(** ** The promise operations on a promise of known state *)

Lemma subscribe_pending (p : nat) (r : Reaction) (st : t) :
  promises st !! p = Some Pending ->
  subscribe p r st
  = {| promises := promises st; reactions := reactions st ++ [(p, r)];
       jobs := jobs st; running := running st;
       writeOpQueue := writeOpQueue st;
       nextPromise := nextPromise st; nextTask := nextTask st;
       trace := trace st |}.
Proof. intros H. unfold subscribe. now rewrite H. Qed.

Lemma subscribe_fulfilled (p : nat) (r : Reaction) (st : t) :
  promises st !! p = Some Fulfilled ->
  subscribe p r st
  = {| promises := promises st; reactions := reactions st;
       jobs := jobs st ++ [(r, Fulfilled)]; running := running st;
       writeOpQueue := writeOpQueue st;
       nextPromise := nextPromise st; nextTask := nextTask st;
       trace := trace st |}.
Proof. intros H. unfold subscribe. now rewrite H. Qed.

Lemma settle_pending (p : nat) (s : PromiseState) (st : t) :
  promises st !! p = Some Pending ->
  settle p s st
  = {| promises := <[p := s]> (promises st);
       reactions :=
         List.filter (fun pr => negb (Nat.eqb (fst pr) p)) (reactions st);
       jobs :=
         jobs st
         ++ List.map (fun pr => (snd pr, s))
              (List.filter (fun pr => Nat.eqb (fst pr) p) (reactions st));
       running := running st; writeOpQueue := writeOpQueue st;
       nextPromise := nextPromise st; nextTask := nextTask st;
       trace := trace st |}.
Proof. intros H. unfold settle. now rewrite H. Qed.

Lemma enqueue_on_settled (st : t) :
  writeOpQueue st < nextPromise st ->
  promises st !! writeOpQueue st = Some Fulfilled ->
  enqueueWriteOperation st
  = {| promises :=
         <[S (nextPromise st) := Pending]>
           (<[nextPromise st := Pending]> (promises st));
       reactions :=
         reactions st ++ [(nextPromise st, KeepAlive (S (nextPromise st)))];
       jobs := jobs st ++ [(RunTask (nextTask st) (nextPromise st), Fulfilled)];
       running := running st;
       writeOpQueue := S (nextPromise st);
       nextPromise := S (S (nextPromise st));
       nextTask := S (nextTask st);
       trace := trace st ++ [Enqueued (nextTask st)] |}.
Proof.
  intros Hlt Hq.
  unfold enqueueWriteOperation, newPromise.
  cbn [writeOpQueue nextPromise nextTask].
  rewrite (subscribe_fulfilled (writeOpQueue st))
    by (cbn [promises]; rewrite lookup_insert_ne by lia; exact Hq).
  cbn [promises reactions jobs running writeOpQueue nextPromise nextTask trace].
  rewrite (subscribe_pending (nextPromise st))
    by (cbn [promises]; rewrite lookup_insert_ne by lia; apply lookup_insert_eq).
  reflexivity.
Qed.

Lemma enqueue_on_pending (st : t) :
  writeOpQueue st < nextPromise st ->
  promises st !! writeOpQueue st = Some Pending ->
  enqueueWriteOperation st
  = {| promises :=
         <[S (nextPromise st) := Pending]>
           (<[nextPromise st := Pending]> (promises st));
       reactions :=
         (reactions st
          ++ [(writeOpQueue st, RunTask (nextTask st) (nextPromise st))])
         ++ [(nextPromise st, KeepAlive (S (nextPromise st)))];
       jobs := jobs st;
       running := running st;
       writeOpQueue := S (nextPromise st);
       nextPromise := S (S (nextPromise st));
       nextTask := S (nextTask st);
       trace := trace st ++ [Enqueued (nextTask st)] |}.
Proof.
  intros Hlt Hq.
  unfold enqueueWriteOperation, newPromise.
  cbn [writeOpQueue nextPromise nextTask].
  rewrite (subscribe_pending (writeOpQueue st))
    by (cbn [promises]; rewrite lookup_insert_ne by lia; exact Hq).
  cbn [promises reactions jobs running writeOpQueue nextPromise nextTask trace].
  rewrite (subscribe_pending (nextPromise st))
    by (cbn [promises]; rewrite lookup_insert_ne by lia; apply lookup_insert_eq).
  reflexivity.
Qed.

(** ** The invariant *)

Lemma inv_init : Inv 0 0 Idle [] init.
Proof.
  constructor; cbn; try reflexivity; try (intros; lia); auto.
Qed.

Lemma inv_enqueue (m n : nat) (ph : Phase) (outs : list bool) (st : t) :
  Inv m n ph outs st ->
  Inv m (S n) (match ph with Idle => Ready | _ => ph end) outs
    (enqueueWriteOperation st).
Proof.
  intros [HnT HnP Hq Houts Hb Hidle Hqs Hrs Hrun Hre Hj Hru Htr Henq Hcl].
  assert (Htrace : execution (trace st ++ [Enqueued n]) = execution (trace st)).
  { rewrite execution_app. cbn. apply app_nil_r. }
  assert (Henq' : List.filter is_enqueued (trace st ++ [Enqueued n])
                  = List.map Enqueued (List.seq 0 (S n))).
  { rewrite List.filter_app, Henq, List.seq_S, List.map_app. reflexivity. }
  assert (Hold : forall p, p < 2 * n + 1 ->
            <[S (2 * n + 1) := Pending]> (<[2 * n + 1 := Pending]> (promises st)) !! p
            = promises st !! p).
  { intros p Hp. now rewrite !lookup_insert_ne by lia. }
  assert (Hrun' : <[S (2 * n + 1) := Pending]> (<[2 * n + 1 := Pending]> (promises st))
                  !! (2 * n + 1) = Some Pending).
  { rewrite lookup_insert_ne by lia. apply lookup_insert_eq. }
  assert (Hqueue' : <[S (2 * n + 1) := Pending]> (<[2 * n + 1 := Pending]> (promises st))
                    !! (2 * n + 2) = Some Pending).
  { replace (2 * n + 2) with (S (2 * n + 1)) by lia. apply lookup_insert_eq. }
  assert (Hqs' : forall j, m <= j < S n ->
            <[S (2 * n + 1) := Pending]> (<[2 * n + 1 := Pending]> (promises st))
            !! (2 * j + 2) = Some Pending).
  { intros j Hj'. destruct (Nat.eq_dec j n) as [->|Hne]; [exact Hqueue'|].
    rewrite Hold by lia. apply Hqs. lia. }
  assert (Hrs' : forall j, m < j < S n ->
            <[S (2 * n + 1) := Pending]> (<[2 * n + 1 := Pending]> (promises st))
            !! (2 * j + 1) = Some Pending).
  { intros j Hj'. destruct (Nat.eq_dec j n) as [->|Hne]; [exact Hrun'|].
    rewrite Hold by lia. apply Hrs. lia. }
  destruct ph as [| | |s]; cbn in Hb.
  - rewrite Hb in *. clear Hb.
    rewrite enqueue_on_settled by (rewrite ?Hq, ?HnP; auto; lia).
    rewrite HnP, HnT.
    constructor; easy_fields.
    + rewrite Hre. replace (S n - S n) with 0 by lia. cbn.
      repeat f_equal; lia.
    + rewrite Hj. reflexivity.
    + rewrite Htrace. exact Htr.
  - assert (Hpend : promises st !! writeOpQueue st = Some Pending).
    { rewrite Hq. replace (2 * n) with (2 * (n - 1) + 2) by lia. apply Hqs. lia. }
    rewrite enqueue_on_pending by (first [exact Hpend | rewrite Hq, HnP; lia]).
    rewrite HnP, HnT, Hq.
    constructor; easy_fields.
    + rewrite Hold by lia. exact Hrun.
    + rewrite Hre. replace (S n - S m) with (S (n - S m)) by lia.
      rewrite waiting_snoc. replace (S m + (n - S m)) with n by lia.
      cbn [app]. rewrite <- app_assoc. cbn [app].
      repeat f_equal; lia.
    + rewrite Htrace. exact Htr.
  - assert (Hpend : promises st !! writeOpQueue st = Some Pending).
    { rewrite Hq. replace (2 * n) with (2 * (n - 1) + 2) by lia. apply Hqs. lia. }
    rewrite enqueue_on_pending by (first [exact Hpend | rewrite Hq, HnP; lia]).
    rewrite HnP, HnT, Hq.
    constructor; easy_fields.
    + rewrite Hold by lia. exact Hrun.
    + rewrite Hre. replace (S n - S m) with (S (n - S m)) by lia.
      rewrite waiting_snoc. replace (S m + (n - S m)) with n by lia.
      cbn [app]. rewrite <- app_assoc. cbn [app].
      repeat f_equal; lia.
    + rewrite Htrace. exact Htr.
  - assert (Hpend : promises st !! writeOpQueue st = Some Pending).
    { rewrite Hq. replace (2 * n) with (2 * (n - 1) + 2) by lia. apply Hqs. lia. }
    rewrite enqueue_on_pending by (first [exact Hpend | rewrite Hq, HnP; lia]).
    rewrite HnP, HnT, Hq.
    constructor; easy_fields.
    + rewrite Hre. replace (S n - S m) with (S (n - S m)) by lia.
      rewrite waiting_snoc. replace (S m + (n - S m)) with n by lia.
      rewrite <- app_assoc. cbn [app].
      repeat f_equal; lia.
    + rewrite Htrace. exact Htr.
Qed.

Lemma execution_snoc (tr : list Event) (e : Event) :
  is_enqueued e = false ->
  execution (tr ++ [e]) = (execution tr ++ [e])%list.
Proof. intros He. rewrite execution_app. cbn. now rewrite He. Qed.

Lemma enqueued_snoc (tr : list Event) (e : Event) :
  is_enqueued e = false ->
  List.filter is_enqueued (tr ++ [e]) = List.filter is_enqueued tr.
Proof.
  intros He. rewrite List.filter_app. cbn. rewrite He. apply app_nil_r.
Qed.

(** The microtask of a ready head starts its task. *)
Lemma inv_job_ready (m n : nat) (outs : list bool) (st : t) :
  Inv m n Ready outs st ->
  exists st', step Job st = Some st' /\ Inv m n Busy outs st'.
Proof.
  intros [HnT HnP Hq Houts Hb Hidle Hqs Hrs Hrun Hre Hj Hru Htr Henq Hcl].
  cbv beta iota in *. unfold step. rewrite Hj. cbn [runJob].
  eexists. split; [reflexivity|]. unfold log.
  constructor; easy_fields.
  - rewrite Hru. reflexivity.
  - rewrite execution_snoc by reflexivity. rewrite Htr.
    now rewrite app_nil_r.
  - rewrite enqueued_snoc by reflexivity. exact Henq.
Qed.

(** Only the running task can finish, and its end queues the [catch]. *)
Lemma inv_finish (m n : nat) (outs : list bool) (st : t) (k : nat) (ok : bool) :
  Inv m n Busy outs st ->
  (k = m ->
   exists st', step (Finish k ok) st = Some st'
               /\ Inv m n (Closing (if ok then Fulfilled else Rejected)) outs st')
  /\ (k <> m -> step (Finish k ok) st = None).
Proof.
  intros [HnT HnP Hq Houts Hb Hidle Hqs Hrs Hrun Hre Hj Hru Htr Henq Hcl].
  cbv beta iota in *. unfold step. rewrite Hru. cbn [List.find fst].
  split.
  - intros ->. rewrite Nat.eqb_refl. cbn [List.filter fst negb].
    rewrite Nat.eqb_refl. cbn [negb].
    eexists. split; [reflexivity|]. unfold log.
    rewrite settle_pending by (fields; exact Hrun). fields.
    destruct (waiting_above (2 * m + 1) (S m) (n - S m) ltac:(lia)) as [E1 E2].
    rewrite Hre, Hj. cbn [List.filter fst]. rewrite Nat.eqb_refl. cbn [negb].
    rewrite E1, E2. cbn [List.map snd app].
    constructor; easy_fields.
    + intros j Hj'. rewrite lookup_insert_ne by lia. apply Hqs. lia.
    + intros j Hj'. rewrite lookup_insert_ne by lia. apply Hrs. lia.
    + rewrite execution_snoc by reflexivity. rewrite Htr.
      rewrite <- app_assoc. cbn [app]. destruct ok; reflexivity.
    + rewrite enqueued_snoc by reflexivity. exact Henq.
    + destruct ok; exact I.
  - intros Hne. destruct (Nat.eqb_spec m k); [congruence | reflexivity].
Qed.

(** The [catch] of a settled head frees the queue for the next task. *)
Lemma inv_job_closing (m n : nat) (outs : list bool) (st : t)
    (s : PromiseState) :
  Inv m n (Closing s) outs st ->
  exists st', step Job st = Some st'
              /\ Inv (S m) n (if S m <? n then Ready else Idle)
                   (outs ++ [ok_of s]) st'.
Proof.
  intros [HnT HnP Hq Houts Hb Hidle Hqs Hrs Hrun Hre Hj Hru Htr Henq Hcl].
  cbv beta iota in *. unfold step. rewrite Hj. cbn [runJob].
  eexists. split; [reflexivity|].
  rewrite settle_pending by (fields; apply Hqs; lia). fields.
  assert (Htr' : execution (trace st) = (serial 0 (outs ++ [ok_of s]) ++ [])%list).
  { rewrite Htr, serial_snoc, Houts, app_nil_r. reflexivity. }
  assert (Hlen : List.length (outs ++ [ok_of s]) = S m).
  { rewrite List.length_app. cbn. lia. }
  rewrite Hre.
  destruct (Nat.ltb_spec (S m) n) as [Hlt|Hge].
  - replace (n - S m) with (S (n - S (S m))) by lia.
    cbn [waiting List.filter fst].
    replace (2 * S m =? 2 * m + 2) with true by (symmetry; apply Nat.eqb_eq; lia).
    replace (2 * S m + 1 =? 2 * m + 2) with false
      by (symmetry; apply Nat.eqb_neq; lia).
    cbn [negb].
    destruct (waiting_above (2 * m + 2) (S (S m)) (n - S (S m)) ltac:(lia))
      as [E1 E2].
    rewrite E1, E2. cbn [List.map snd app].
    constructor; easy_fields.
    + intros j Hj'. rewrite lookup_insert_ne by lia. apply Hqs. lia.
    + intros j Hj'. rewrite lookup_insert_ne by lia. apply Hrs. lia.
    + rewrite lookup_insert_ne by lia. apply Hrs. lia.
  - assert (n = S m) as -> by lia.
    replace (S m - S m) with 0 by lia. cbn [waiting List.filter List.map app].
    constructor; easy_fields.
    intros _. replace (2 * S m) with (2 * m + 2) by lia. apply lookup_insert_eq.
Qed.

Lemma step_inv (m n : nat) (ph : Phase) (outs : list bool) (st st' : t)
    (l : Label) :
  Inv m n ph outs st ->
  step l st = Some st' ->
  exists m' n' ph' outs', Inv m' n' ph' outs' st'.
Proof.
  intros HI Hstep. destruct l as [type| |k ok].
  - injection Hstep as <-.
    destruct type; cbn [routeMessage];
      first [ do 4 eexists; apply inv_enqueue; exact HI
            | do 4 eexists; exact HI ].
  - destruct ph as [| | |s].
    + unfold step in Hstep. rewrite (inv_jobs _ _ _ _ _ HI) in Hstep. discriminate.
    + destruct (inv_job_ready _ _ _ _ HI) as (st0 & E & HI').
      rewrite E in Hstep. injection Hstep as <-. eauto.
    + unfold step in Hstep. rewrite (inv_jobs _ _ _ _ _ HI) in Hstep. discriminate.
    + destruct (inv_job_closing _ _ _ _ _ HI) as (st0 & E & HI').
      rewrite E in Hstep. injection Hstep as <-. eauto.
  - destruct ph as [| | |s];
      try (unfold step in Hstep; rewrite (inv_running _ _ _ _ _ HI) in Hstep;
           discriminate).
    destruct (inv_finish _ _ _ _ k ok HI) as [Hyes Hno].
    destruct (Nat.eq_dec k m) as [->|Hne].
    + destruct (Hyes eq_refl) as (st0 & E & HI').
      rewrite E in Hstep. injection Hstep as <-. eauto.
    + rewrite (Hno Hne) in Hstep. discriminate.
Qed.

Lemma reachable_inv (st : t) :
  reachable st -> exists m n ph outs, Inv m n ph outs st.
Proof.
  induction 1 as [|l st st' _ (m & n & ph & outs & HI) Hstep].
  - do 4 eexists. exact inv_init.
  - eapply step_inv; eauto.
Qed.

(** ** Running the queue to rest *)

Lemma next_of_phase (outcome : nat -> bool) (m n : nat) (ph : Phase)
    (outs : list bool) (st : t) :
  Inv m n ph outs st ->
  next outcome st
  = match ph with
    | Idle => None
    | Ready | Closing _ => Some Job
    | Busy => Some (Finish m (outcome m))
    end.
Proof.
  intros HI. unfold next.
  rewrite (inv_jobs _ _ _ _ _ HI), (inv_running _ _ _ _ _ HI).
  destruct ph; reflexivity.
Qed.

Lemma drain_finishes (outcome : nat -> bool) (fuel : nat) :
  forall (m n : nat) (ph : Phase) (outs : list bool) (st : t),
    Inv m n ph outs st ->
    match ph with
    | Idle => 0
    | Ready => 3 * (n - m)
    | Busy => 3 * (n - m) - 1
    | Closing _ => 3 * (n - m) - 2
    end <= fuel ->
    exists outs',
      Inv n n Idle outs' (drain fuel outcome st)
      /\ (forall j o,
            List.nth_error
              (match ph with
               | Closing s => outs ++ [ok_of s]
               | _ => outs
               end) j = Some o ->
            List.nth_error outs' j = Some o)
      /\ (forall j, match ph with Closing _ => S m | _ => m end <= j < n ->
                    List.nth_error outs' j = Some (outcome j)).
Proof.
  induction fuel as [|fuel IH]; intros m n ph outs st HI Hfuel.
  - pose proof (inv_bound _ _ _ _ _ HI) as Hb.
    destruct ph; cbv beta iota in Hb, Hfuel; try lia.
    subst n. exists outs. cbn [drain]. split; [exact HI|].
    split; [auto | intros j Hj; lia].
  - pose proof (inv_bound _ _ _ _ _ HI) as Hb.
    pose proof (inv_outs _ _ _ _ _ HI) as Hlen.
    cbn [drain]. rewrite (next_of_phase outcome _ _ _ _ _ HI).
    destruct ph as [| | |s]; cbv beta iota in Hb, Hfuel.
    + subst n. exists outs. split; [exact HI|].
      split; [auto | intros j Hj; lia].
    + destruct (inv_job_ready _ _ _ _ HI) as (st0 & E & HI0). rewrite E.
      destruct (IH _ _ _ _ _ HI0 ltac:(cbv beta iota; lia))
        as (outs' & HI' & Hpre & Hnew).
      exists outs'. auto.
    + destruct (inv_finish _ _ _ _ m (outcome m) HI) as [Hyes _].
      destruct (Hyes eq_refl) as (st0 & E & HI0). rewrite E.
      destruct (IH _ _ _ _ _ HI0 ltac:(cbv beta iota; lia))
        as (outs' & HI' & Hpre & Hnew).
      cbv beta iota in Hpre, Hnew.
      exists outs'. split; [exact HI'|]. split.
      * intros j o Hj. apply Hpre.
        rewrite List.nth_error_app1; [exact Hj|].
        apply List.nth_error_Some. congruence.
      * intros j Hj. destruct (Nat.eq_dec j m) as [->|Hne]; [|apply Hnew; lia].
        apply Hpre. rewrite List.nth_error_app2 by lia.
        rewrite Hlen, Nat.sub_diag. cbn. destruct (outcome m); reflexivity.
    + destruct (inv_job_closing _ _ _ _ _ HI) as (st0 & E & HI0). rewrite E.
      assert (Hm : match (if S m <? n then Ready else Idle) with
                   | Idle => 0
                   | Ready => 3 * (n - S m)
                   | Busy => 3 * (n - S m) - 1
                   | Closing _ => 3 * (n - S m) - 2
                   end <= fuel)
        by (destruct (S m <? n); lia).
      destruct (IH _ _ _ _ _ HI0 Hm) as (outs' & HI' & Hpre & Hnew).
      exists outs'. split; [exact HI'|]. split.
      * intros j o Hj. apply Hpre. destruct (S m <? n); exact Hj.
      * intros j Hj. apply Hnew. destruct (S m <? n); exact Hj.
Qed.

Lemma execution_In (e : Event) (tr : list Event) :
  In e (execution tr) -> In e tr.
Proof. unfold execution. rewrite List.filter_In. tauto. Qed.

(** C3.  In every state the gateway can reach, whatever the interleaving
    of message arrivals, microtasks and task completions: at most one
    enqueued task is running; the tasks are enqueued in the order of their
    numbers and, when task [k] starts, every task enqueued before it has
    already settled (fulfilled or rejected); and letting the queue run,
    with any outcome for the tasks that have not settled yet (failures
    included), every enqueued task is started and settles, each unsettled
    one with the outcome it was given. *)
Theorem C3_write_queue_serializes (st : WriteQueue.t) :
  WriteQueue.reachable st ->
  List.length (running st) <= 1
  /\ List.filter is_enqueued (trace st)
     = List.map Enqueued (List.seq 0 (nextTask st))
  /\ (forall (l1 l2 : list Event) (k : nat),
        trace st = (l1 ++ Started k :: l2)%list ->
        forall j, j < k -> exists ok, In (Settled j ok) l1)
  /\ (forall outcome : nat -> bool,
        let st' := drain (3 * nextTask st) outcome st in
        running st' = [] /\ jobs st' = []
        /\ forall j, j < nextTask st ->
             In (Started j) (trace st')
             /\ (exists ok, In (Settled j ok) (trace st'))
             /\ ((forall ok, ~ In (Settled j ok) (trace st)) ->
                 In (Settled j (outcome j)) (trace st'))).
Proof.
  intros Hreach.
  destruct (reachable_inv st Hreach) as (m & n & ph & outs & HI).
  pose proof (inv_nextTask _ _ _ _ _ HI) as HnT.
  pose proof (inv_outs _ _ _ _ _ HI) as Hlen.
  pose proof (inv_trace _ _ _ _ _ HI) as Htr.
  split; [|split; [|split]].
  - rewrite (inv_running _ _ _ _ _ HI). destruct ph; cbn; lia.
  - rewrite HnT. exact (inv_enqueued _ _ _ _ _ HI).
  - intros l1 l2 k E j Hj.
    assert (Hex : execution (trace st)
                  = (execution l1 ++ Started k :: execution l2)%list).
    { rewrite E, execution_app. reflexivity. }
    rewrite Htr in Hex.
    set (cur := match ph with
                | Busy => [Started m]
                | Closing s => [Started m; Settled m (ok_of s)]
                | _ => []
                end) in Hex.
    assert (Hcur : cur = [] \/ cur = [Started (0 + List.length outs)]
                   \/ exists o, cur = [Started (0 + List.length outs);
                                       Settled (0 + List.length outs) o]).
    { subst cur. cbn [Nat.add]. rewrite Hlen. destruct ph; eauto. }
    destruct (serial_before_start outs 0 cur _ _ k Hcur Hex j ltac:(lia))
      as [ok Hok].
    exists ok. exact (execution_In _ _ Hok).
  - intros outcome. cbv zeta. rewrite HnT.
    destruct (drain_finishes outcome (3 * n) m n ph outs st HI
                ltac:(destruct ph; lia)) as (outs' & HI' & Hpre & Hnew).
    pose proof (inv_trace _ _ _ _ _ HI') as Htr'. rewrite app_nil_r in Htr'.
    pose proof (inv_outs _ _ _ _ _ HI') as Hlen'.
    split; [exact (inv_running _ _ _ _ _ HI')|].
    split; [exact (inv_jobs _ _ _ _ _ HI')|].
    intros j Hj.
    destruct (List.nth_error outs' j) as [o|] eqn:Ho;
      [|apply List.nth_error_None in Ho; lia].
    assert (Hset : forall o', List.nth_error outs' j = Some o' ->
              In (Settled j o') (trace (drain (3 * n) outcome st))).
    { intros o' Ho'. apply execution_In. rewrite Htr'.
      apply serial_In_Settled. rewrite Nat.sub_0_r. split; [lia | exact Ho']. }
    split; [|split].
    + apply execution_In. rewrite Htr'. apply serial_In_Started. lia.
    + exists o. apply Hset. exact Ho.
    + intros Hnot. apply Hset. apply Hnew. split; [|exact Hj].
      destruct (Nat.le_gt_cases (match ph with Closing _ => S m | _ => m end) j)
        as [Hle|Hgt]; [exact Hle|]. exfalso.
      assert (Hsettled : exists ok, In (Settled j ok) (execution (trace st))).
      { rewrite Htr.
        destruct (Nat.lt_ge_cases j m) as [Hjm|Hjm].
        - destruct (List.nth_error outs j) as [x|] eqn:Hx;
            [|apply List.nth_error_None in Hx; lia].
          exists x. apply List.in_or_app. left.
          apply serial_In_Settled. rewrite Nat.sub_0_r. split; [lia | exact Hx].
        - destruct ph as [| | |s]; try lia.
          assert (j = m) as -> by lia.
          exists (ok_of s). apply List.in_or_app. right. right; left; reflexivity. }
      destruct Hsettled as [ok Hok]. exact (Hnot ok (execution_In _ _ Hok)).
Qed.

Lemma reachable_exec (ls : list Label) :
  forall st st', reachable st -> exec ls st = Some st' -> reachable st'.
Proof.
  induction ls as [|l ls IH]; intros st st' Hr E; cbn in E.
  - now injection E as <-.
  - destruct (step l st) as [st1|] eqn:Hs; [|discriminate].
    eapply IH; [|exact E]. eapply reachable_step; eauto.
Qed.

End WriteQueueInvariant.

Example three_writes_trace :
  WriteQueue.trace after_first_failure
  = [WriteQueue.Enqueued 0; WriteQueue.Started 0; WriteQueue.Enqueued 1;
     WriteQueue.Enqueued 2; WriteQueue.Settled 0 false]
  /\ WriteQueue.trace (WriteQueue.drain 9 (fun _ => true) after_first_failure)
     = [WriteQueue.Enqueued 0; WriteQueue.Started 0; WriteQueue.Enqueued 1;
        WriteQueue.Enqueued 2; WriteQueue.Settled 0 false;
        WriteQueue.Started 1; WriteQueue.Settled 1 true;
        WriteQueue.Started 2; WriteQueue.Settled 2 true].
Proof. split; vm_compute; reflexivity. Qed.

Lemma C3_witness :
  WriteQueue.reachable after_first_failure
  /\ (List.length (WriteQueue.running after_first_failure) <= 1)%nat
  /\ In (WriteQueue.Started 2)
       (WriteQueue.trace (WriteQueue.drain 9 (fun _ => true) after_first_failure)).
Proof.
  assert (Hr : WriteQueue.reachable after_first_failure).
  { apply (reachable_exec three_writes WriteQueue.init);
      [apply WriteQueue.reachable_init | vm_compute; reflexivity]. }
  destruct (C3_write_queue_serializes after_first_failure Hr)
    as (Hone & _ & _ & Hrun).
  split; [exact Hr|]. split; [exact Hone|].
  destruct (Hrun (fun _ => true)) as (_ & _ & Hall).
  exact (proj1 (Hall 2%nat ltac:(vm_compute; lia))).
Defined.

(* ===================================================================== *)
(** * The shape of a digest *)
(* ===================================================================== *)





(* ===================================================================== *)
(** * More on the conflict resolution functions *)
(* ===================================================================== *)

(** X1.  A write whose content differs from the stored record: with a
    non-empty prior hash equal to the stored hash it is accepted whatever
    the claimed time and the clock.  Without a prior hash (absent or empty)
    and with a timestamp from which a date can be built (absent, or a
    number within the range of a date) it is accepted exactly when the
    claimed time is after the stored modification time, and is otherwise
    rejected as older_timestamp with both times, the current version and
    the current hash.  Without a prior hash and with a timestamp out of the
    range of a date it is accepted, whatever the stored time: an Invalid
    Date is not before or at any time. *)
Theorem X1_differing_content_decision
    (now : Z) (data : ConflictResolver.FileConflictData)
    (ef : ConflictResolver.ExistingFile) :
  ConflictResolver.existingFile data = Some ef ->
  ConflictResolver.hash ef <> ConflictResolver.clientHash data ->
  let r := ConflictResolver.resolveFileConflict now data in
  let claimed :=
    ConflictResolver.claimedMtime now (ConflictResolver.clientTimestamp data) in
  let accepted :=
    ConflictResolver.plain ConflictResolver.accept
      "Update accepted - client version is newer or hash validation passed"
      (Some "full") in
  (forall p, ConflictResolver.previousHash data = Some p ->
             p <> "" -> p = ConflictResolver.hash ef -> r = accepted)
  /\ (truthy_string (ConflictResolver.previousHash data) = false ->
      (ConflictResolver.timestamp_in_range
         (ConflictResolver.clientTimestamp data) ->
       (claimed > ConflictResolver.mtime ef -> r = accepted)
       /\ (claimed <= ConflictResolver.mtime ef ->
           r = {| ConflictResolver.action := ConflictResolver.reject;
                  ConflictResolver.reason :=
                    "Client version is older than server version";
                  ConflictResolver.conflictType := Some "older_timestamp";
                  ConflictResolver.clientMtime := Some claimed;
                  ConflictResolver.serverMtime :=
                    Some (ConflictResolver.mtime ef);
                  ConflictResolver.currentVersion :=
                    Some (ConflictResolver.version ef);
                  ConflictResolver.currentHash :=
                    Some (ConflictResolver.hash ef);
                  ConflictResolver.updated := None |}))
      /\ (forall t, ConflictResolver.clientTimestamp data = Some t ->
                    t < - JsDate.MAX_TIME \/ JsDate.MAX_TIME < t ->
                    r = accepted)).
Proof.
  intros Hef Hdiff. cbv zeta. unfold ConflictResolver.resolveFileConflict.
  rewrite Hef.
  destruct (String.eqb_spec (ConflictResolver.hash ef)
              (ConflictResolver.clientHash data)) as [E|_]; [contradiction|].
  split.
  - intros p Hp Hne ->. rewrite Hp.
    assert (truthy_string (Some (ConflictResolver.hash ef)) = true) as ->
      by (apply truthy_string_Some; exact Hne).
    cbn [strict_neq]. rewrite String.eqb_refl. reflexivity.
  - intros Hno. rewrite Hno. cbn [andb negb]. split.
    + intros Hrange. rewrite (clientDate_in_range now _ Hrange).
      cbn [JsDate.le]. split; intros Hcmp.
      * destruct (Z.leb_spec
                    (ConflictResolver.claimedMtime now
                       (ConflictResolver.clientTimestamp data))
                    (ConflictResolver.mtime ef)); [lia | reflexivity].
      * destruct (Z.leb_spec
                    (ConflictResolver.claimedMtime now
                       (ConflictResolver.clientTimestamp data))
                    (ConflictResolver.mtime ef)); [reflexivity | lia].
    + intros t Hts Hout. rewrite Hts.
      rewrite (clientDate_out_of_range now t Hout). reflexivity.
Qed.

Lemma X1_witness :
  ConflictResolver.action
    (ConflictResolver.resolveFileConflict 9000 newer_write)
  = ConflictResolver.accept.
Proof.
  destruct (X1_differing_content_decision 9000 newer_write
              {| ConflictResolver.id := 7; ConflictResolver.hash := H2;
                 ConflictResolver.version := 2; ConflictResolver.mtime := 2000;
                 ConflictResolver.size := 6 |}
              eq_refl ltac:(vm_compute; discriminate)) as [_ Hno].
  destruct (Hno eq_refl) as [Hin _].
  destruct (Hin ltac:(intros t [= ?]; subst; unfold JsDate.MAX_TIME; lia))
    as [Hnew _].
  rewrite Hnew; [reflexivity | vm_compute; reflexivity].
Defined.

(** X2.  Every rejection the three resolvers produce carries a conflict
    type, and the resolution strategy of that type for the operation tells
    the client what to do: rejected updates and renames are never retried
    blindly (the client fetches, merges, overwrites, renames or refreshes),
    a rejected delete is retried after five seconds. *)
Theorem X2_rejections_have_a_strategy :
  (forall now data,
     let r := ConflictResolver.resolveFileConflict now data in
     ConflictResolver.action r = ConflictResolver.reject ->
     exists ct, ConflictResolver.conflictType r = Some ct
       /\ (ct = "hash_mismatch" \/ ct = "older_timestamp")
       /\ ConflictStrategy.shouldRetry
            (ConflictStrategy.getResolutionStrategy "UPDATE" ct) = false
       /\ is_Some (ConflictStrategy.clientAction
                     (ConflictStrategy.getResolutionStrategy "UPDATE" ct)))
  /\ (forall (vaultId oldPath newPath : string) (existingFile : option File.t)
             (targetExists : option bool),
        let r := ConflictResolver.resolveRenameConflict vaultId oldPath newPath
                   existingFile targetExists in
        ConflictResolver.action r = ConflictResolver.reject ->
        exists ct, ConflictResolver.conflictType r = Some ct
          /\ ConflictStrategy.shouldRetry
               (ConflictStrategy.getResolutionStrategy "RENAME" ct) = false
          /\ is_Some (ConflictStrategy.clientAction
                        (ConflictStrategy.getResolutionStrategy "RENAME" ct)))
  /\ (forall (vaultId filePath : string) (existingFile : option File.t)
             (hasActiveLocks : option bool),
        let r := ConflictResolver.resolveDeleteConflict vaultId filePath
                   existingFile hasActiveLocks in
        ConflictResolver.action r = ConflictResolver.reject ->
        exists ct, ConflictResolver.conflictType r = Some ct
          /\ ConflictStrategy.getResolutionStrategy "DELETE" ct
             = {| ConflictStrategy.shouldRetry := true;
                  ConflictStrategy.retryDelay := Some 5000;
                  ConflictStrategy.clientAction :=
                    Some "wait_for_lock_release" |}).
Proof.
  split; [|split].
  - intros now data. cbv zeta. unfold ConflictResolver.resolveFileConflict.
    destruct (ConflictResolver.existingFile data) as [ef|]; [|discriminate].
    destruct (truthy_string _ && strict_neq _ _).
    { intros _. eexists. split; [reflexivity|]. split; [auto|].
      split; [reflexivity | vm_compute; eauto]. }
    destruct (String.eqb _ _).
    { destruct (JsDate.gt _ _); discriminate. }
    destruct (negb _ && _); [|discriminate].
    intros _. eexists. split; [reflexivity|]. split; [auto|].
    split; [reflexivity | vm_compute; eauto].
  - intros vaultId oldPath newPath existingFile targetExists. cbv zeta.
    unfold ConflictResolver.resolveRenameConflict.
    destruct existingFile as [f|].
    + destruct (truthy_bool targetExists); [|discriminate].
      intros _. eexists. split; [reflexivity|].
      split; [reflexivity | vm_compute; eauto].
    + intros _. eexists. split; [reflexivity|].
      split; [reflexivity | vm_compute; eauto].
  - intros vaultId filePath existingFile hasActiveLocks. cbv zeta.
    unfold ConflictResolver.resolveDeleteConflict.
    destruct existingFile as [f|]; [|discriminate].
    destruct (truthy_bool hasActiveLocks); [|discriminate].
    intros _. eexists. split; reflexivity.
Qed.

Lemma X2_witness :
  exists ct,
    ConflictResolver.conflictType
      (ConflictResolver.resolveFileConflict 9000 stale_write) = Some ct
    /\ ConflictStrategy.shouldRetry
         (ConflictStrategy.getResolutionStrategy "UPDATE" ct) = false.
Proof.
  destruct (proj1 X2_rejections_have_a_strategy 9000 stale_write
              ltac:(vm_compute; reflexivity)) as (ct & Hct & _ & Hretry & _).
  exists ct. split; [exact Hct | exact Hretry].
Defined.

(* ===================================================================== *)
(** * More on the sync service *)
(* ===================================================================== *)

(** X3.  An operation that fails changes nothing.  When [processFileChange]
    throws (unknown device, rename without a new path, oversized content, a
    rejected rename) the database is as before and no content-store call
    was fired; when it returns an unsuccessful result (a rejected write) the
    file, lock and device tables are as before and no content-store call was
    fired. *)
Theorem X3_failed_operation_changes_nothing
    (cfg : Config) (resolverNow mtimeNow : Z)
    (data : SyncService.FileOperationData) (db : DB) :
  let out := SyncService.processFileChange cfg resolverNow mtimeNow data db in
  (forall e, out.1.1 = inl e -> out.1.2 = db /\ out.2 = [])
  /\ (forall r, out.1.1 = inr r -> SyncService.success r = false ->
        files out.1.2 = files db /\ fileLocks out.1.2 = fileLocks db
        /\ devices out.1.2 = devices db /\ out.2 = []).
Proof.
  cbv zeta. unfold SyncService.processFileChange, SyncService.validateDevice.
  destruct (devices db !! SyncService.deviceId data) as [device|];
    [|split; [intros e _; auto | intros r [=]]].
  assert (forall dev,
    let out := SyncService.processCreateUpdateOperation cfg resolverNow mtimeNow
                 data dev db in
    (forall e, out.1.1 = inl e -> out.1.2 = db /\ out.2 = [])
    /\ (forall r, out.1.1 = inr r -> SyncService.success r = false ->
          files out.1.2 = files db /\ fileLocks out.1.2 = fileLocks db
          /\ devices out.1.2 = devices db /\ out.2 = [])) as Hcu.
  { intros dev. cbv zeta. unfold SyncService.processCreateUpdateOperation.
    destruct (_ >? _); [split; [intros e _; auto | intros r [=]]|].
    unfold transaction. cbn [Prisma.syncOperation_create freshId].
    unfold Prisma.file_findFirst. cbn [files set_syncOperations].
    destruct (List.find _ (files db)) as [ef|].
    - set (res := ConflictResolver.resolveFileConflict _ _).
      destruct (ConflictResolver.action res); cbn;
        (split; [intros e [=] | intros r [= <-]; cbn; intros Hs;
                                try discriminate; auto]).
    - cbn. split; [intros e [=] | intros r [= <-]; cbn; intros Hs; discriminate]. }
  destruct (SyncService.operationType data).
  - apply Hcu.
  - apply Hcu.
  - (* DELETE *)
    unfold SyncService.processDeleteOperation, transaction.
    cbn [Prisma.syncOperation_create freshId].
    set (found := Prisma.file_findFirst _ _ _).
    set (res := ConflictResolver.resolveDeleteConflict _ _ _ _).
    destruct (ConflictResolver.action res); cbn;
      (split; [intros e H; try discriminate; auto
              | intros r [= <-]; cbn; intros Hs; discriminate]).
  - (* RENAME *)
    destruct (SyncService.newPath data) as [p|];
      [|split; [intros e _; auto | intros r [=]]].
    destruct (truthy_string (Some p));
      [|split; [intros e _; auto | intros r [=]]].
    unfold SyncService.processRenameOperation, transaction.
    cbn [Prisma.syncOperation_create freshId].
    set (found := Prisma.file_findFirst _ (SyncService.filePath data) _).
    set (res := ConflictResolver.resolveRenameConflict _ _ _ _ _).
    destruct (ConflictResolver.action res), found; cbn;
      (split; [intros e H; try discriminate; auto
              | intros r [= <-]; cbn; intros Hs; discriminate]).
Qed.

Lemma X3_witness :
  (SyncService.processFileChange cfg0 9000 9000
     (write_of "device-X" "note.md" "third") db_note).1.2 = db_note.
Proof.
  apply (proj1 (X3_failed_operation_changes_nothing cfg0 9000 9000
                  (write_of "device-X" "note.md" "third") db_note)
           (deviceNotFound "device-X")).
  vm_compute. reflexivity.
Defined.

(** Rows of a table with a primary key are told apart by it. *)
Lemma unique_id_eq (l : list File.t) (f g : File.t) :
  List.NoDup (List.map File.id l) -> In f l -> In g l ->
  File.id f = File.id g -> f = g.
Proof.
  induction l as [|x l IH]; cbn; intros Hnd Hf Hg E; [destruct Hf|].
  inversion Hnd as [|? ? Hx Hl]; subst.
  destruct Hf as [->|Hf], Hg as [->|Hg]; auto.
  - exfalso. apply Hx. rewrite E. now apply List.in_map.
  - exfalso. apply Hx. rewrite <- E. now apply List.in_map.
Qed.

Lemma In_file_update_other (i : nat) (upd : File.t -> File.t)
    (l : list File.t) (f : File.t) :
  In f l -> File.id f <> i ->
  In f (List.map (fun f => if Nat.eqb (File.id f) i then upd f else f) l).
Proof.
  intros Hin Hne. apply List.in_map_iff. exists f. split; [|exact Hin].
  destruct (Nat.eqb_spec (File.id f) i); [contradiction | reflexivity].
Qed.

Lemma In_file_update_same (i : nat) (upd : File.t -> File.t)
    (l : list File.t) (f : File.t) :
  In f l -> File.id f = i ->
  In (upd f) (List.map (fun f => if Nat.eqb (File.id f) i then upd f else f) l).
Proof.
  intros Hin E. apply List.in_map_iff. exists f. split; [|exact Hin].
  destruct (Nat.eqb_spec (File.id f) i); [reflexivity | contradiction].
Qed.

Lemma file_findFirst_In (vaultId path : string) (db : DB) (f : File.t) :
  Prisma.file_findFirst vaultId path db = Some f ->
  In f (files db) /\ File.vaultId f = vaultId /\ File.path f = path.
Proof.
  unfold Prisma.file_findFirst. intros H. apply List.find_some in H.
  destruct H as [Hin Hm]. apply andb_true_iff in Hm. destruct Hm as [Hv Hp].
  apply String.eqb_eq in Hv, Hp. auto.
Qed.

(** X4.  An operation rewrites at most the record it addresses.  In a
    file table whose row ids are distinct, every row other than the record
    found for the operation's vault and path is still there afterwards,
    unchanged; the addressed record is kept as it is, deleted, or rewritten
    with its version raised by exactly one. *)
Theorem X4_only_the_addressed_record_changes
    (cfg : Config) (resolverNow mtimeNow : Z)
    (data : SyncService.FileOperationData) (db : DB) (f : File.t) :
  List.NoDup (List.map File.id (files db)) ->
  In f (files db) ->
  let out := SyncService.processFileChange cfg resolverNow mtimeNow data db in
  (Prisma.file_findFirst (SyncService.vaultId data) (SyncService.filePath data) db
   <> Some f -> In f (files out.1.2))
  /\ (In f (files out.1.2)
      \/ (forall f', In f' (files out.1.2) -> File.id f' <> File.id f)
      \/ (exists f', In f' (files out.1.2) /\ File.id f' = File.id f
                     /\ File.version f' = File.version f + 1)).
Proof.
  intros Hnd Hin. cbv zeta.
  unfold SyncService.processFileChange, SyncService.validateDevice.
  destruct (devices db !! SyncService.deviceId data) as [device|];
    [|cbn; auto].
  (* a rewrite of the found record by an update that keeps the id and adds
     one to the version *)
  assert (forall (ef : File.t) (upd : File.t -> File.t),
            Prisma.file_findFirst (SyncService.vaultId data)
              (SyncService.filePath data) db = Some ef ->
            (forall g, File.id (upd g) = File.id g) ->
            (forall g, File.version (upd g) = File.version g + 1) ->
            let l' := List.map (fun g => if Nat.eqb (File.id g) (File.id ef)
                                         then upd g else g) (files db) in
            (Some ef <> Some f -> In f l')
            /\ (In f l'
                \/ (forall f', In f' l' -> File.id f' <> File.id f)
                \/ (exists f', In f' l' /\ File.id f' = File.id f
                               /\ File.version f' = File.version f + 1)))
    as Hrewrite.
  { intros ef upd Hfind Hid Hver l'.
    apply file_findFirst_In in Hfind. destruct Hfind as (Hef & _ & _).
    destruct (Nat.eq_dec (File.id f) (File.id ef)) as [E|E].
    - assert (f = ef) as -> by (eapply unique_id_eq; eauto).
      split; [congruence|]. right. right. exists (upd ef).
      split; [now apply In_file_update_same|]. auto.
    - split; [intros _|left]; now apply In_file_update_other. }
  assert (let out := SyncService.processCreateUpdateOperation cfg resolverNow
                       mtimeNow data (Device.id device) db in
          (Prisma.file_findFirst (SyncService.vaultId data)
             (SyncService.filePath data) db <> Some f -> In f (files out.1.2))
          /\ (In f (files out.1.2)
              \/ (forall f', In f' (files out.1.2) -> File.id f' <> File.id f)
              \/ (exists f', In f' (files out.1.2) /\ File.id f' = File.id f
                             /\ File.version f' = File.version f + 1))) as Hcu.
  { cbv zeta. unfold SyncService.processCreateUpdateOperation.
    destruct (_ >? _); [cbn; auto|].
    unfold transaction. cbn [Prisma.syncOperation_create freshId].
    destruct (Prisma.file_findFirst (SyncService.vaultId data)
                (SyncService.filePath data) db) as [ef|] eqn:Hfind;
      unfold Prisma.file_findFirst in Hfind |- *;
      cbn [files set_syncOperations]; rewrite Hfind.
    - set (res := ConflictResolver.resolveFileConflict _ _).
      destruct (ConflictResolver.action res); cbn; auto;
        apply Hrewrite; auto.
    - cbn. split; [intros _|left]; apply List.in_or_app; auto. }
  destruct (SyncService.operationType data); [exact Hcu | exact Hcu | |].
  - (* DELETE *)
    unfold SyncService.processDeleteOperation, transaction.
    cbn [Prisma.syncOperation_create freshId].
    destruct (Prisma.file_findFirst (SyncService.vaultId data)
                (SyncService.filePath data) db) as [ef|] eqn:Hfind;
      unfold Prisma.file_findFirst in Hfind |- *;
      cbn [files set_syncOperations]; rewrite Hfind; cbn; [|auto].
    assert (In ef (files db)) as Hef
      by (apply (file_findFirst_In (SyncService.vaultId data)
                   (SyncService.filePath data)); exact Hfind).
    destruct (Nat.eq_dec (File.id f) (File.id ef)) as [E|E].
    + assert (f = ef) as -> by (eapply unique_id_eq; eauto).
      split; [congruence|]. right. left. intros f' Hf'.
      apply List.filter_In in Hf'. destruct Hf' as [_ Hf'].
      apply negb_true_iff, Nat.eqb_neq in Hf'. exact Hf'.
    + assert (In f (List.filter (fun g => negb (Nat.eqb (File.id g) (File.id ef)))
                      (files db))) as H.
      { apply List.filter_In. split; [exact Hin|].
        apply negb_true_iff, Nat.eqb_neq. exact E. }
      auto.
  - (* RENAME *)
    destruct (SyncService.newPath data) as [p|]; [|cbn; auto].
    destruct (truthy_string (Some p)); [|cbn; auto].
    unfold SyncService.processRenameOperation, transaction.
    cbn [Prisma.syncOperation_create freshId].
    destruct (Prisma.file_findFirst (SyncService.vaultId data)
                (SyncService.filePath data) db) as [ef|] eqn:Hfind;
      unfold Prisma.file_findFirst in Hfind |- *;
      cbn [files set_syncOperations]; rewrite Hfind.
    + set (res := ConflictResolver.resolveRenameConflict _ _ _ _ _).
      destruct (ConflictResolver.action res); cbn; auto;
        apply Hrewrite; auto.
    + set (res := ConflictResolver.resolveRenameConflict _ _ _ _ _).
      destruct (ConflictResolver.action res); cbn; auto.
Qed.

Lemma X4_witness :
  In todo_v1
    (files (SyncService.processFileChange cfg0 9000 9000
              (write_of "device-A" "note.md" "third") db_two).1.2).
Proof.
  apply (proj1 (X4_only_the_addressed_record_changes cfg0 9000 9000
                  (write_of "device-A" "note.md" "third") db_two todo_v1
                  ltac:(vm_compute; repeat constructor; cbn; intuition discriminate)
                  ltac:(right; left; reflexivity))).
  vm_compute. discriminate.
Defined.

(** Looking a record up after rows were rewritten in a way that keeps
    vault and path. *)
Lemma find_map_preserved {A} (p : A -> bool) (g : A -> A) (l : list A) (x : A) :
  (forall y, p (g y) = p y) ->
  List.find p l = Some x -> List.find p (List.map g l) = Some (g x).
Proof.
  intros Hp. induction l as [|y l IH]; cbn; [discriminate|].
  rewrite Hp. destruct (p y); [intros [= ->]; reflexivity | exact IH].
Qed.

Lemma find_app_new {A} (p : A -> bool) (l : list A) (x : A) :
  List.find p l = None -> p x = true -> List.find p (l ++ [x]) = Some x.
Proof.
  induction l as [|y l IH]; cbn; intros Hl Hx; [now rewrite Hx|].
  destruct (p y); [discriminate | auto].
Qed.

(** What a successful create or update leaves in the file table. *)
Lemma write_postcondition
    (cfg : Config) (resolverNow mtimeNow : Z)
    (data : SyncService.FileOperationData) (deviceDbId : nat) (db : DB)
    (r : SyncService.FileOperationResult) :
  let out := SyncService.processCreateUpdateOperation cfg resolverNow mtimeNow
               data deviceDbId db in
  out.1.1 = inr r -> SyncService.success r = true ->
  SyncService.hash r = sha256_string (SyncService.content data)
  /\ exists f,
       Prisma.file_findFirst (SyncService.vaultId data)
         (SyncService.filePath data) out.1.2 = Some f
       /\ File.hash f = sha256_string (SyncService.content data)
       /\ File.version f = SyncService.version r
       /\ ((SyncService.updated r = Some "no_change"
            /\ JsDate.gt
                 (ConflictResolver.clientDate resolverNow
                    (SyncService.clientTimestamp data))
                 (Some (File.mtime f)) = false
            /\ out.2 = [])
           \/ (SyncService.updated r = Some "mtime_only"
               /\ File.mtime f = ConflictResolver.claimedMtime mtimeNow
                                   (SyncService.clientTimestamp data)
               /\ out.2 = [])
           \/ ((SyncService.updated r = Some "created"
                \/ SyncService.updated r = Some "full")
               /\ File.mtime f = ConflictResolver.claimedMtime mtimeNow
                                   (SyncService.clientTimestamp data)
               /\ File.size f = byteLength (SyncService.content data)
               /\ out.2 = [storage_writeFile (SyncService.vaultId data)
                             (SyncService.filePath data)
                             (SyncService.content data)])).
Proof.
  cbv zeta. unfold SyncService.processCreateUpdateOperation.
  destruct (_ >? _); [discriminate|].
  unfold transaction. cbn [Prisma.syncOperation_create freshId].
  destruct (Prisma.file_findFirst (SyncService.vaultId data)
              (SyncService.filePath data) db) as [ef|] eqn:Hfind;
    unfold Prisma.file_findFirst in Hfind |- *;
    cbn [files set_syncOperations]; rewrite Hfind.
  - unfold ConflictResolver.resolveFileConflict.
    cbn [ConflictResolver.existingFile ConflictResolver.previousHash
         ConflictResolver.hash ConflictResolver.clientHash
         ConflictResolver.clientTimestamp ConflictResolver.mtime].
    destruct (truthy_string _ && strict_neq _ _).
    { cbn. intros [= <-]. discriminate. }
    destruct (String.eqb_spec (File.hash ef)
                (sha256_string (SyncService.content data))) as [Hh|Hh].
    + destruct (JsDate.gt
                  (ConflictResolver.clientDate resolverNow
                     (SyncService.clientTimestamp data))
                  (Some (File.mtime ef))) eqn:Hgt.
      * cbn. intros [= <-] _. split; [reflexivity|].
        eexists. split.
        { apply (find_map_preserved _ _ _ ef); [|exact Hfind].
          intros y. destruct (Nat.eqb _ _); reflexivity. }
        rewrite Nat.eqb_refl. cbn. split; [exact Hh|]. split; [reflexivity|].
        right. left. auto.
      * cbn. intros [= <-] _. split; [reflexivity|].
        exists ef. split; [exact Hfind|]. split; [exact Hh|].
        split; [reflexivity|]. left. split; [reflexivity|].
        split; [exact Hgt|reflexivity].
    + destruct (negb _ && _).
      { cbn. intros [= <-]. discriminate. }
      cbn. intros [= <-] _. split; [reflexivity|].
      eexists. split.
      { apply (find_map_preserved _ _ _ ef); [|exact Hfind].
        intros y. destruct (Nat.eqb _ _); reflexivity. }
      rewrite Nat.eqb_refl. cbn. split; [reflexivity|]. split; [reflexivity|].
      right. right. auto.
  - cbn. intros [= <-] _. split; [reflexivity|].
    eexists. split.
    { apply find_app_new; [exact Hfind|]. cbn. now rewrite !String.eqb_refl. }
    cbn. split; [reflexivity|]. split; [reflexivity|].
    right. right. auto.
Qed.

Lemma createUpdate_devices
    (cfg : Config) (resolverNow mtimeNow : Z)
    (data : SyncService.FileOperationData) (deviceDbId : nat) (db : DB) :
  devices (SyncService.processCreateUpdateOperation cfg resolverNow mtimeNow
             data deviceDbId db).1.2 = devices db.
Proof.
  unfold SyncService.processCreateUpdateOperation.
  destruct (_ >? _); [reflexivity|].
  unfold transaction. cbn [Prisma.syncOperation_create freshId].
  destruct (Prisma.file_findFirst _ _ _) as [ef|].
  - set (res := ConflictResolver.resolveFileConflict _ _).
    destruct (ConflictResolver.action res); reflexivity.
  - reflexivity.
Qed.

(** A create or update goes through the device check and then to
    [processCreateUpdateOperation]. *)
Lemma processFileChange_write
    (cfg : Config) (resolverNow mtimeNow : Z)
    (data : SyncService.FileOperationData) (db : DB)
    (r : SyncService.FileOperationResult) :
  SyncService.operationType data = CREATE
  \/ SyncService.operationType data = UPDATE ->
  (SyncService.processFileChange cfg resolverNow mtimeNow data db).1.1 = inr r ->
  exists device,
    devices db !! SyncService.deviceId data = Some device
    /\ SyncService.processFileChange cfg resolverNow mtimeNow data db
       = SyncService.processCreateUpdateOperation cfg resolverNow mtimeNow data
           (Device.id device) db.
Proof.
  intros Hop. unfold SyncService.processFileChange, SyncService.validateDevice.
  destruct (devices db !! SyncService.deviceId data) as [device|];
    [|discriminate].
  intros _. exists device. split; [reflexivity|].
  destruct Hop as [-> | ->]; reflexivity.
Qed.

(** X5.  After a successful create or update the record found under the
    operation's vault and path has the SHA-256 of the written content as
    its hash (the hash the result reports) and the version the result
    reports.  When the result says created or full, the record also has the
    byte length of the content as its size and the claimed modification
    time, and exactly one content-store write, of that content, was fired;
    otherwise (no_change, mtime_only) none was. *)
Theorem X5_successful_write_is_found
    (cfg : Config) (resolverNow mtimeNow : Z)
    (data : SyncService.FileOperationData) (db : DB)
    (r : SyncService.FileOperationResult) :
  SyncService.operationType data = CREATE
  \/ SyncService.operationType data = UPDATE ->
  let out := SyncService.processFileChange cfg resolverNow mtimeNow data db in
  out.1.1 = inr r -> SyncService.success r = true ->
  exists f,
    Prisma.file_findFirst (SyncService.vaultId data) (SyncService.filePath data)
      out.1.2 = Some f
    /\ File.hash f = sha256_string (SyncService.content data)
    /\ SyncService.hash r = sha256_string (SyncService.content data)
    /\ File.version f = SyncService.version r
    /\ (((SyncService.updated r = Some "no_change"
          \/ SyncService.updated r = Some "mtime_only") /\ out.2 = [])
        \/ ((SyncService.updated r = Some "created"
             \/ SyncService.updated r = Some "full")
            /\ File.size f = byteLength (SyncService.content data)
            /\ File.mtime f = ConflictResolver.claimedMtime mtimeNow
                                (SyncService.clientTimestamp data)
            /\ out.2 = [storage_writeFile (SyncService.vaultId data)
                          (SyncService.filePath data)
                          (SyncService.content data)])).
Proof.
  intros Hop. cbv zeta. intros Hr Hs.
  destruct (processFileChange_write cfg resolverNow mtimeNow data db r Hop Hr)
    as (device & _ & E).
  rewrite E in Hr |- *.
  destruct (write_postcondition cfg resolverNow mtimeNow data (Device.id device)
              db r Hr Hs) as (Hh & f & Hfind & Hfh & Hv & Hcases).
  exists f. repeat (split; [assumption|]).
  destruct Hcases as [(Hu & _ & Hc) | [(Hu & _ & Hc) | (Hu & Hm & Hsz & Hc)]];
    [left | left | right]; auto.
Qed.

Lemma X5_witness :
  exists f,
    Prisma.file_findFirst "vault-1" "new.md"
      (SyncService.processFileChange cfg0 9000 9000
         (write_of "device-A" "new.md" "first") db_note).1.2 = Some f
    /\ File.hash f = H1.
Proof.
  destruct (X5_successful_write_is_found cfg0 9000 9000
              (write_of "device-A" "new.md" "first") db_note
              (SyncService.ok_result 1 H1 (Some "created"))
              (or_intror eq_refl) ltac:(vm_compute; reflexivity) eq_refl)
    as (f & Hfind & Hhash & _).
  exists f. split; [exact Hfind|]. rewrite Hhash. vm_compute. reflexivity.
Defined.

(** X6.  Replaying a write is a no-op.  A create or update without a prior
    hash and with a (non-zero) claimed time that succeeded, sent again
    unchanged, succeeds again as no_change with the same version and hash:
    the file table is not touched and no content-store write is fired,
    whatever the server clock reads. *)
Theorem X6_replayed_write_is_a_no_op
    (cfg : Config) (resolverNow mtimeNow resolverNow' mtimeNow' : Z)
    (data : SyncService.FileOperationData) (db : DB) (t : Z)
    (r : SyncService.FileOperationResult) :
  SyncService.operationType data = CREATE
  \/ SyncService.operationType data = UPDATE ->
  truthy_string (SyncService.previousHash data) = false ->
  SyncService.clientTimestamp data = Some t -> t <> 0 ->
  let first := SyncService.processFileChange cfg resolverNow mtimeNow data db in
  first.1.1 = inr r -> SyncService.success r = true ->
  let second :=
    SyncService.processFileChange cfg resolverNow' mtimeNow' data first.1.2 in
  second.1.1 = inr (SyncService.ok_result (SyncService.version r)
                      (SyncService.hash r) (Some "no_change"))
  /\ files second.1.2 = files first.1.2
  /\ second.2 = [].
Proof.
  intros Hop Hprev Hts Ht. cbv zeta. intros Hr Hs.
  destruct (processFileChange_write cfg resolverNow mtimeNow data db r Hop Hr)
    as (device & Hdev & E).
  rewrite E in Hr |- *.
  destruct (write_postcondition cfg resolverNow mtimeNow data (Device.id device)
              db r Hr Hs) as (Hh & f & Hfind & Hfh & Hv & Hcases).
  assert (JsDate.gt (JsDate.of_number t) (Some (File.mtime f)) = false) as Hm.
  { rewrite Hts in Hcases.
    rewrite !(claimedMtime_truthy _ t Ht), (clientDate_truthy _ t Ht) in Hcases.
    destruct Hcases as [(_ & Hm & _) | [(_ & Hm & _) | (_ & Hm & _)]];
      [exact Hm | rewrite Hm; apply of_number_not_after..]. }
  assert (byteLength (SyncService.content data) <= maxFileSize cfg) as Hsize.
  { revert Hr. unfold SyncService.processCreateUpdateOperation.
    destruct (Z.gtb_spec (byteLength (SyncService.content data))
                (maxFileSize cfg)); [discriminate | lia]. }
  set (db1 := (SyncService.processCreateUpdateOperation cfg resolverNow mtimeNow
                 data (Device.id device) db).1.2) in *.
  assert (devices db1 !! SyncService.deviceId data = Some device) as Hdev1
    by (unfold db1; rewrite createUpdate_devices; exact Hdev).
  unfold SyncService.processFileChange, SyncService.validateDevice.
  rewrite Hdev1.
  assert (SyncService.processCreateUpdateOperation cfg resolverNow' mtimeNow'
            data (Device.id device) db1
          = (inr (SyncService.ok_result (SyncService.version r)
                    (SyncService.hash r) (Some "no_change")),
             (SyncService.processCreateUpdateOperation cfg resolverNow' mtimeNow'
                data (Device.id device) db1).1.2, [])
          /\ files (SyncService.processCreateUpdateOperation cfg resolverNow'
                      mtimeNow' data (Device.id device) db1).1.2 = files db1)
    as [E2 Hfiles].
  { unfold SyncService.processCreateUpdateOperation.
    destruct (Z.gtb_spec (byteLength (SyncService.content data))
                (maxFileSize cfg)); [lia|].
    unfold transaction. cbn [Prisma.syncOperation_create freshId].
    unfold Prisma.file_findFirst in Hfind |- *.
    cbn [files set_syncOperations]. rewrite Hfind.
    unfold ConflictResolver.resolveFileConflict.
    cbn [ConflictResolver.existingFile ConflictResolver.previousHash
         ConflictResolver.hash ConflictResolver.clientHash
         ConflictResolver.clientTimestamp ConflictResolver.mtime].
    rewrite Hprev. cbn [andb]. rewrite Hfh, String.eqb_refl, Hts.
    rewrite (clientDate_truthy _ t Ht), Hm.
    cbn. rewrite Hv, Hh. auto. }
  destruct Hop as [Hop | Hop]; rewrite Hop, E2; cbn; auto.
Qed.

Lemma X6_witness :
  (SyncService.processFileChange cfg0 9500 9500
     (write_of "device-A" "new.md" "first")
     (SyncService.processFileChange cfg0 9000 9000
        (write_of "device-A" "new.md" "first") db_note).1.2).1.1
  = inr (SyncService.ok_result 1 H1 (Some "no_change")).
Proof.
  apply (proj1 (X6_replayed_write_is_a_no_op cfg0 9000 9000 9500 9500
                  (write_of "device-A" "new.md" "first") db_note 3000
                  (SyncService.ok_result 1 H1 (Some "created"))
                  (or_intror eq_refl) eq_refl eq_refl ltac:(discriminate)
                  ltac:(vm_compute; reflexivity) eq_refl)).
Defined.

(** Looking up a key no row had, after the one row with id [i] was
    rewritten into a row that has it. *)
Lemma find_after_rewrite (q : File.t -> bool) (upd : File.t -> File.t)
    (l : list File.t) (ef : File.t) :
  List.NoDup (List.map File.id l) -> In ef l ->
  List.find q l = None -> q (upd ef) = true ->
  List.find q
    (List.map (fun f => if Nat.eqb (File.id f) (File.id ef) then upd f else f) l)
  = Some (upd ef).
Proof.
  induction l as [|y l IH]; cbn; intros Hnd Hin Hnone Hq; [destruct Hin|].
  inversion Hnd as [|? ? Hy Hl]; subst.
  destruct (q y) eqn:Hqy; [discriminate|].
  destruct (Nat.eqb_spec (File.id y) (File.id ef)) as [E|E].
  - destruct Hin as [->|Hin].
    + now rewrite Hq.
    + exfalso. apply Hy. rewrite E. now apply List.in_map.
  - rewrite Hqy. destruct Hin as [->|Hin]; [congruence|]. now apply IH.
Qed.

(** X7.  A rename by a registered device.  Without a record at the old
    path it throws "Cannot rename non-existent file"; with a record at the
    new path (in particular when the new path is the old one) it throws
    "Target path already exists"; in both cases the database is unchanged.
    Otherwise it succeeds: in a table with distinct row ids the record is
    then found at the new path with the same id, hash and size, its version
    raised by one and the server time as its modification time; the locks
    stay with the file, and one content-store rename is fired. *)
Theorem X7_rename
    (cfg : Config) (resolverNow mtimeNow : Z)
    (data : SyncService.FileOperationData) (db : DB) (device : Device.t)
    (p : string) :
  devices db !! SyncService.deviceId data = Some device ->
  SyncService.operationType data = RENAME ->
  SyncService.newPath data = Some p -> p <> "" ->
  let out := SyncService.processFileChange cfg resolverNow mtimeNow data db in
  let source :=
    Prisma.file_findFirst (SyncService.vaultId data) (SyncService.filePath data)
      db in
  let target := Prisma.file_findFirst (SyncService.vaultId data) p db in
  (source = None ->
   out = (inl (internalError "Cannot rename non-existent file"), db, []))
  /\ (is_Some source -> is_Some target ->
      out = (inl (internalError "Target path already exists"), db, []))
  /\ (forall ef, source = Some ef -> target = None ->
        let renamed :=
          {| File.id := File.id ef; File.vaultId := File.vaultId ef;
             File.path := p; File.hash := File.hash ef;
             File.size := File.size ef; File.mtime := mtimeNow;
             File.version := File.version ef + 1 |} in
        out.1.1 = inr (SyncService.ok_result (File.version ef + 1)
                         (File.hash ef) None)
        /\ (List.NoDup (List.map File.id (files db)) ->
            Prisma.file_findFirst (SyncService.vaultId data) p out.1.2
            = Some renamed)
        /\ fileLocks out.1.2 = fileLocks db
        /\ out.2 = [storage_renameFile (SyncService.vaultId data)
                      (SyncService.filePath data) p]).
Proof.
  intros Hdev Hop Hnew Hp. cbv zeta.
  unfold SyncService.processFileChange, SyncService.validateDevice.
  rewrite Hdev, Hop, Hnew.
  assert (truthy_string (Some p) = true) as -> by (now apply truthy_string_Some).
  unfold SyncService.processRenameOperation, transaction.
  cbn [Prisma.syncOperation_create freshId].
  unfold Prisma.file_findFirst. cbn [files set_syncOperations].
  split; [|split].
  - intros ->. reflexivity.
  - intros [ef ->] [tf ->]. reflexivity.
  - intros ef Hef Htarget. rewrite Hef, Htarget. cbn.
    split; [reflexivity|]. split; [|split; reflexivity].
    intros Hnd.
    apply (find_after_rewrite _
             (fun f => {| File.id := File.id f; File.vaultId := File.vaultId f;
                          File.path := p; File.hash := File.hash f;
                          File.size := File.size f; File.mtime := mtimeNow;
                          File.version := File.version f + 1 |}));
      [exact Hnd | | exact Htarget |].
    + apply List.find_some in Hef. tauto.
    + apply List.find_some in Hef. destruct Hef as [_ Hm].
      apply andb_true_iff in Hm. destruct Hm as [Hv _].
      cbn. now rewrite Hv, String.eqb_refl.
Qed.

Lemma X7_witness :
  (SyncService.processFileChange cfg0 9000 9000 rename_by_A db_note).1.1
  = inr (SyncService.ok_result 3 H2 None).
Proof.
  destruct (X7_rename cfg0 9000 9000 rename_by_A db_note deviceA "moved.md"
              ltac:(vm_compute; reflexivity) eq_refl eq_refl
              ltac:(discriminate)) as (_ & _ & Hok).
  exact (proj1 (Hok note_v2 ltac:(vm_compute; reflexivity)
                  ltac:(vm_compute; reflexivity))).
Defined.





(** X28.  Locks are advisory.  The sync service never reads the lock
    table: an operation returns the same result, leaves the same file table
    and fires the same content-store calls whatever locks are held and
    whoever holds them, and unless it is a delete it leaves the lock table
    as it found it.  A write to a file another device has locked is thus
    handled as if the lock were not there. *)
Theorem X28_locks_are_advisory
    (cfg : Config) (resolverNow mtimeNow : Z)
    (data : SyncService.FileOperationData) (db : DB)
    (locks : gmap nat FileLock.t) :
  let out := SyncService.processFileChange cfg resolverNow mtimeNow data db in
  let out' :=
    SyncService.processFileChange cfg resolverNow mtimeNow data
      (set_fileLocks locks db) in
  out'.1.1 = out.1.1
  /\ files out'.1.2 = files out.1.2
  /\ out'.2 = out.2
  /\ (SyncService.operationType data <> DELETE -> fileLocks out'.1.2 = locks).
Proof.
  cbv zeta.
  unfold SyncService.processFileChange, SyncService.validateDevice.
  cbn [devices set_fileLocks].
  destruct (devices db !! SyncService.deviceId data) as [device|];
    [|repeat split; reflexivity].
  destruct (SyncService.operationType data) eqn:Hop.
  all: unfold SyncService.processDeleteOperation,
         SyncService.processRenameOperation,
         SyncService.processCreateUpdateOperation, transaction,
         Prisma.file_findFirst;
       cbn [Prisma.syncOperation_create freshId files set_syncOperations
            set_fileLocks devices fileLocks syncOperations nextId].
  all: try destruct (byteLength (SyncService.content data) >? maxFileSize cfg);
       try (repeat split; reflexivity).
  all: try (destruct (SyncService.newPath data) as [p|];
            [destruct (truthy_string (Some p))|];
            try (repeat split; reflexivity)).
  all: try match goal with
           | |- context [List.find ?q (files ?d)] =>
               destruct (List.find q (files d)) as [ef|]
           end.
  all: try match goal with
           | |- context [ConflictResolver.resolveFileConflict ?n ?d] =>
               set (res := ConflictResolver.resolveFileConflict n d);
               destruct (ConflictResolver.action res)
           end.
  all: try (cbn; repeat split; (reflexivity || congruence)).
  all: try match goal with
           | |- context [List.find ?q (files ?d)] =>
               destruct (List.find q (files d)) as [target|]
           end.
  all: cbn; repeat split; (reflexivity || congruence).
Qed.

Lemma X28_witness :
  (SyncService.processFileChange cfg0 9000 9000
     (write_of "device-B" "note.md" "third") db_locked).1.1
  = (SyncService.processFileChange cfg0 9000 9000
       (write_of "device-B" "note.md" "third") db_note).1.1.
Proof.
  exact (proj1 (X28_locks_are_advisory cfg0 9000 9000
                  (write_of "device-B" "note.md" "third") db_note
                  {[ 3%nat := lock_A ]})).
Defined.

(* ===================================================================== *)
(** * More on the message handler *)
(* ===================================================================== *)

(** X8.  The answer to a file-change frame.  A frame whose hash is not the
    SHA-256 of its content is refused with a hash-mismatch error before
    anything is touched.  Every frame that is answered at all is answered
    with [success: true] and is broadcast with its content.  This includes
    the frame the sync service rejects as older than the stored record (a
    registered device, different content, a timestamp within the range of a
    date and not after the stored time): the file table is left as it is
    and no content-store write is fired, and the answer carries the stored
    hash and version. *)
Theorem X8_file_change_answer
    (cfg : Config) (resolverNow mtimeNow : Z)
    (message : FileChangeMessage.t) (db : DB) :
  let out :=
    MessageHandlerService.handleFileChange cfg resolverNow mtimeNow message db in
  let broadcast :=
    {| FileChangeBroadcast.vaultId := FileChangeMessage.vaultId message;
       FileChangeBroadcast.filePath := FileChangeMessage.filePath message;
       FileChangeBroadcast.content := FileChangeMessage.content message;
       FileChangeBroadcast.hash := FileChangeMessage.hash message;
       FileChangeBroadcast.timestamp := FileChangeMessage.timestamp message;
       FileChangeBroadcast.deviceId := FileChangeMessage.deviceId message |} in
  (FileChangeMessage.hash message
   <> sha256_string (FileChangeMessage.content message) ->
   out = (inl (hashMismatch (FileChangeMessage.hash message)
                 (sha256_string (FileChangeMessage.content message))
                 (FileChangeMessage.filePath message)), db, []))
  /\ (forall b resp, out.1.1 = inr (b, resp) ->
        FileChangeMessage.hash message
        = sha256_string (FileChangeMessage.content message)
        /\ b = Some broadcast
        /\ exists h v,
             resp = Some {| FileChangeResponse.success := true;
                            FileChangeResponse.filePath :=
                              FileChangeMessage.filePath message;
                            FileChangeResponse.hash := h;
                            FileChangeResponse.version := v |})
  /\ (forall device ef,
        devices db !! FileChangeMessage.deviceId message = Some device ->
        FileChangeMessage.hash message
        = sha256_string (FileChangeMessage.content message) ->
        byteLength (FileChangeMessage.content message) <= maxFileSize cfg ->
        Prisma.file_findFirst (FileChangeMessage.vaultId message)
          (FileChangeMessage.filePath message) db = Some ef ->
        File.hash ef <> FileChangeMessage.hash message ->
        FileChangeMessage.timestamp message <> 0 ->
        - JsDate.MAX_TIME <= FileChangeMessage.timestamp message
        <= JsDate.MAX_TIME ->
        FileChangeMessage.timestamp message <= File.mtime ef ->
        out.1.1
        = inr (Some broadcast,
               Some {| FileChangeResponse.success := true;
                       FileChangeResponse.filePath :=
                         FileChangeMessage.filePath message;
                       FileChangeResponse.hash := File.hash ef;
                       FileChangeResponse.version := File.version ef |})
        /\ files out.1.2 = files db
        /\ out.2 = []).
Proof.
  cbv zeta. unfold MessageHandlerService.handleFileChange.
  split; [|split].
  - intros Hne.
    destruct (String.eqb_spec (FileChangeMessage.hash message)
                (sha256_string (FileChangeMessage.content message)));
      [contradiction | reflexivity].
  - intros b resp.
    destruct (String.eqb_spec (FileChangeMessage.hash message)
                (sha256_string (FileChangeMessage.content message))) as [E|E];
      cbn [negb]; [|discriminate].
    destruct (SyncService.processFileChange _ _ _ _ _) as [[[e|r] db1] calls];
      [discriminate|].
    destruct (devices db1 !! FileChangeMessage.deviceId message);
      [|discriminate].
    cbn. intros [= <- <-]. split; [exact E|]. split; [reflexivity|]. eauto.
  - intros device ef Hdev Hhash Hsize Hfind Hdiff Ht Hrange Hold.
    rewrite Hhash, String.eqb_refl. cbn [negb].
    unfold SyncService.processFileChange, SyncService.validateDevice.
    cbn [SyncService.deviceId SyncService.operationType]. rewrite Hdev.
    unfold SyncService.processCreateUpdateOperation.
    cbn [SyncService.content SyncService.vaultId SyncService.filePath
         SyncService.previousHash SyncService.clientTimestamp
         SyncService.operationType].
    destruct (Z.gtb_spec (byteLength (FileChangeMessage.content message))
                (maxFileSize cfg)); [lia|].
    unfold transaction. cbn [Prisma.syncOperation_create freshId].
    unfold Prisma.file_findFirst in Hfind |- *.
    cbn [files set_syncOperations]. rewrite Hfind.
    unfold ConflictResolver.resolveFileConflict.
    cbn [ConflictResolver.existingFile ConflictResolver.previousHash
         ConflictResolver.hash ConflictResolver.clientHash
         ConflictResolver.clientTimestamp ConflictResolver.mtime
         truthy_string andb negb].
    rewrite <- Hhash.
    destruct (String.eqb_spec (File.hash ef) (FileChangeMessage.hash message));
      [contradiction|].
    rewrite (clientDate_truthy _ _ Ht). unfold JsDate.of_number.
    rewrite (proj2 (in_range_spec _) Hrange). cbn [JsDate.le].
    destruct (Z.leb_spec (FileChangeMessage.timestamp message) (File.mtime ef));
      [|lia].
    cbn. rewrite Hdev. cbn. auto.
Qed.

Lemma X8_witness :
  files (MessageHandlerService.handleFileChange cfg0 9000 9000 late_message
           db_note).1.2 = files db_note
  /\ exists b,
       (MessageHandlerService.handleFileChange cfg0 9000 9000 late_message
          db_note).1.1
       = inr (b, Some {| FileChangeResponse.success := true;
                         FileChangeResponse.filePath := "note.md";
                         FileChangeResponse.hash := H2;
                         FileChangeResponse.version := 2 |}).
Proof.
  destruct (X8_file_change_answer cfg0 9000 9000 late_message db_note)
    as (_ & _ & Hlate).
  destruct (Hlate deviceA note_v2 ltac:(vm_compute; reflexivity)
              ltac:(vm_compute; reflexivity) ltac:(vm_compute; discriminate)
              ltac:(vm_compute; reflexivity) ltac:(vm_compute; discriminate)
              ltac:(vm_compute; discriminate)
              ltac:(vm_compute; split; discriminate)
              ltac:(vm_compute; discriminate))
    as (Hans & Hfiles & _).
  split; [exact Hfiles|]. eexists. exact Hans.
Defined.

(* ===================================================================== *)
(** * More on file locks *)
(* ===================================================================== *)

Lemma deleteMany_lookup (where_ : nat -> FileLock.t -> bool) (db : DB)
    (fileId : nat) :
  fileLocks (FileLockRelease.deleteMany where_ db).2 !! fileId
  = match fileLocks db !! fileId with
    | Some l => if where_ fileId l then None else Some l
    | None => None
    end.
Proof.
  unfold FileLockRelease.deleteMany. cbn [snd fileLocks set_fileLocks].
  destruct (fileLocks db !! fileId) as [l|] eqn:E.
  - destruct (where_ fileId l) eqn:W.
    + apply map_lookup_filter_None. right. intros x Hx. cbn.
      rewrite E in Hx. injection Hx as <-. rewrite W. discriminate.
    + apply map_lookup_filter_Some. split; [exact E | exact W].
  - apply map_lookup_filter_None. left. exact E.
Qed.

Lemma deleteMany_others (where_ : nat -> FileLock.t -> bool) (db : DB) :
  files (FileLockRelease.deleteMany where_ db).2 = files db
  /\ devices (FileLockRelease.deleteMany where_ db).2 = devices db
  /\ nextId (FileLockRelease.deleteMany where_ db).2 = nextId db.
Proof. repeat split. Qed.

(** The count [deleteMany] reports is the number of rows that are gone. *)
Lemma deleteMany_count (where_ : nat -> FileLock.t -> bool) (db : DB) :
  ((FileLockRelease.deleteMany where_ db).1
   + size (fileLocks (FileLockRelease.deleteMany where_ db).2)
   = size (fileLocks db))%nat.
Proof.
  unfold FileLockRelease.deleteMany. cbn [fst snd fileLocks set_fileLocks].
  rewrite <- map_size_disj_union.
  - f_equal.
    assert (filter (fun kv : nat * FileLock.t => where_ kv.1 kv.2 = false)
              (fileLocks db)
            = filter (fun kv : nat * FileLock.t => ~ where_ kv.1 kv.2 = true)
                (fileLocks db)) as ->.
    { apply map_filter_ext. intros i x _. cbn.
      destruct (where_ i x); split; congruence. }
    apply map_filter_union_complement.
  - apply map_disjoint_spec. intros i x y Hx Hy.
    apply map_lookup_filter_Some in Hx, Hy. cbn in *.
    destruct Hx as [Hx Wx], Hy as [Hy Wy]. congruence.
Qed.

(** X9.  When a registered device is set offline, none of its lock rows
    remains and every lock row of another device is untouched; the count it
    reports is the number of rows removed; the device row is marked offline
    with the current time and nothing else changes.  Any other registered
    device can then acquire the lock on a file the device held, whatever the
    expiry of the lock it held. *)
Theorem X9_offline_device_hands_over_its_locks
    (now : Z) (deviceId : string) (db : DB) (device : Device.t) :
  devices db !! deviceId = Some device ->
  let out := DeviceStatus.setDeviceOffline now deviceId db in
  (forall fileId,
     fileLocks out.2 !! fileId
     = match fileLocks db !! fileId with
       | Some l => if Nat.eqb (FileLock.deviceId l) (Device.id device)
                   then None else Some l
       | None => None
       end)
  /\ out.1.1 = deviceId
  /\ (out.1.2 + size (fileLocks out.2) = size (fileLocks db))%nat
  /\ files out.2 = files db
  /\ devices out.2
     = <[deviceId :=
           {| Device.id := Device.id device;
              Device.deviceId := Device.deviceId device;
              Device.deviceName := Device.deviceName device;
              Device.vaultId := Device.vaultId device;
              Device.isOnline := false; Device.lastSeen := now |}]> (devices db)
  /\ (forall (cfg : Config) (now' dateNow : Z) (vaultId filePath other : string)
             (device' : Device.t) (file : File.t) (held : FileLock.t),
        other <> deviceId ->
        devices db !! other = Some device' ->
        Prisma.file_findFirst vaultId filePath db = Some file ->
        fileLocks db !! File.id file = Some held ->
        FileLock.deviceId held = Device.id device ->
        (FileLockService.requestFileLock cfg now' dateNow vaultId filePath
           other out.2).1
        = FileLockService.granted
            {| FileLock.id := nextId db; FileLock.vaultId := vaultId;
               FileLock.fileId := File.id file;
               FileLock.deviceId := Device.id device';
               FileLock.lockedAt := now';
               FileLock.expiresAt := dateNow + fileLockExpiration cfg |}).
Proof.
  intros Hdev. cbv zeta.
  unfold DeviceStatus.setDeviceOffline, FileLockRelease.releaseAllDeviceLocks.
  rewrite Hdev.
  set (where_ := fun (_ : nat) (l : FileLock.t) =>
                   Nat.eqb (FileLock.deviceId l) (Device.id device)).
  pose proof (deleteMany_lookup where_ db) as Hlook.
  pose proof (deleteMany_count where_ db) as Hcount.
  destruct (FileLockRelease.deleteMany where_ db) as [n db1] eqn:E.
  cbn [fst snd] in *.
  assert (files db1 = files db /\ devices db1 = devices db
          /\ nextId db1 = nextId db) as (Hf & Hd & Hn).
  { pose proof (deleteMany_others where_ db) as H. rewrite E in H. exact H. }
  unfold DeviceStatus.device_updateMany, DeviceStatus.set_devices.
  cbn [fileLocks files devices].
  split; [exact Hlook|]. split; [reflexivity|]. split; [exact Hcount|].
  split; [exact Hf|]. split.
  - rewrite Hd. apply map_eq. intros k.
    destruct (decide (k = deviceId)) as [->|Hk].
    + rewrite lookup_alter_eq, lookup_insert_eq, Hdev. reflexivity.
    + rewrite lookup_alter_ne, lookup_insert_ne by congruence. reflexivity.
  - intros cfg now' dateNow vaultId filePath other device' file held
      Hother Hdev' Hfile Hheld Hown.
    unfold FileLockService.requestFileLock. cbn [devices].
    rewrite Hd, lookup_alter_ne, Hdev' by congruence.
    unfold Prisma.file_findFirst in *. cbn [files]. rewrite Hf, Hfile.
    cbn [fileLocks]. rewrite Hlook, Hheld. unfold where_.
    rewrite Hown, Nat.eqb_refl.
    unfold FileLockService.createLock. cbn [fileLocks].
    rewrite Hlook, Hheld. unfold where_. rewrite Hown, Nat.eqb_refl.
    cbn. rewrite Hn. reflexivity.
Qed.

Lemma X9_witness :
  LockResult.success
    (FileLockService.requestFileLock cfg0 21000 21000 "vault-1" "note.md"
       "device-B"
       (DeviceStatus.setDeviceOffline 20500 "device-A" db_locked).2).1 = true.
Proof.
  destruct (X9_offline_device_hands_over_its_locks 20500 "device-A" db_locked
              deviceA ltac:(vm_compute; reflexivity))
    as (_ & _ & _ & _ & _ & Hgrant).
  rewrite (Hgrant cfg0 21000 21000 "vault-1" "note.md" "device-B" deviceB
             note_v2 lock_A ltac:(discriminate) ltac:(vm_compute; reflexivity)
             ltac:(vm_compute; reflexivity) ltac:(vm_compute; reflexivity)
             eq_refl).
  reflexivity.
Defined.

Lemma deleteMany_none (where_ : nat -> FileLock.t -> bool) (db : DB) :
  (forall k l, fileLocks db !! k = Some l -> where_ k l = false) ->
  FileLockRelease.deleteMany where_ db = (0%nat, db).
Proof.
  intros Hnone. unfold FileLockRelease.deleteMany. f_equal.
  - apply map_size_empty_iff. apply map_empty_filter.
    intros k l Hl. cbn. rewrite (Hnone k l Hl). discriminate.
  - assert (filter (fun kv : nat * FileLock.t => where_ kv.1 kv.2 = false)
              (fileLocks db) = fileLocks db) as ->.
    { apply map_filter_id. intros k l Hl. cbn. exact (Hnone k l Hl). }
    destruct db; reflexivity.
Qed.

Lemma deleteMany_some (where_ : nat -> FileLock.t -> bool) (db : DB)
    (k : nat) (l : FileLock.t) :
  fileLocks db !! k = Some l -> where_ k l = true ->
  (0 <? (FileLockRelease.deleteMany where_ db).1)%nat = true.
Proof.
  intros Hl Hw. apply Nat.ltb_lt. unfold FileLockRelease.deleteMany. cbn [fst].
  destruct (size (filter (fun kv : nat * FileLock.t => where_ kv.1 kv.2 = true)
                    (fileLocks db))) eqn:E; [|lia].
  apply map_size_empty_iff in E.
  assert (filter (fun kv : nat * FileLock.t => where_ kv.1 kv.2 = true)
            (fileLocks db) !! k = Some l) as H
    by (apply map_lookup_filter_Some; split; [exact Hl | exact Hw]).
  rewrite E in H. rewrite lookup_empty in H. discriminate.
Qed.

(** X10.  Releasing the lock of a file that has one.  Called with the
    device id of a registered device, it releases the lock only when that
    device owns it and otherwise returns false and changes nothing.  Called
    without a device id, with an empty one, or with the id of a device that
    is not registered, it releases the lock whoever owns it. *)
Theorem X10_release_file_lock
    (vaultId filePath : string) (deviceId : option string) (db : DB)
    (file : File.t) (held : FileLock.t) :
  Prisma.file_findFirst vaultId filePath db = Some file ->
  fileLocks db !! File.id file = Some held ->
  let out := FileLockRelease.releaseFileLock vaultId filePath deviceId db in
  (forall d device,
     deviceId = Some d -> d <> "" -> devices db !! d = Some device ->
     (FileLock.deviceId held = Device.id device ->
      out.1 = true /\ fileLocks out.2 = delete (File.id file) (fileLocks db))
     /\ (FileLock.deviceId held <> Device.id device -> out = (false, db)))
  /\ (truthy_string deviceId = false
      \/ (exists d, deviceId = Some d /\ devices db !! d = None) ->
      out.1 = true /\ fileLocks out.2 = delete (File.id file) (fileLocks db)).
Proof.
  intros Hfile Hheld. cbv zeta. unfold FileLockRelease.releaseFileLock.
  rewrite Hfile.
  assert (forall where_ : nat -> FileLock.t -> bool,
            where_ (File.id file) held = true ->
            (forall k l, k <> File.id file -> where_ k l = false) ->
            (0 <? (FileLockRelease.deleteMany where_ db).1)%nat = true
            /\ fileLocks (FileLockRelease.deleteMany where_ db).2
               = delete (File.id file) (fileLocks db)) as Hrel.
  { intros where_ Hw Hother. split; [eapply deleteMany_some; eauto|].
    apply map_eq. intros k. rewrite deleteMany_lookup.
    destruct (decide (k = File.id file)) as [->|Hk].
    - rewrite lookup_delete_eq, Hheld, Hw. reflexivity.
    - rewrite lookup_delete_ne by congruence.
      destruct (fileLocks db !! k) as [l|]; [|reflexivity].
      now rewrite (Hother k l Hk). }
  split.
  - intros d device -> Hd Hdev.
    assert (truthy_string (Some d) = true) as ->
      by (now apply truthy_string_Some).
    rewrite Hdev. split; intros Hown.
    + destruct (FileLockRelease.deleteMany _ db) as [n db1] eqn:E.
      cbn [fst snd].
      match type of E with FileLockRelease.deleteMany ?w _ = _ =>
        destruct (Hrel w) as [H1 H2] end.
      * rewrite Nat.eqb_refl, Hown, Nat.eqb_refl. reflexivity.
      * intros k l Hk. apply Nat.eqb_neq in Hk. now rewrite Hk.
      * rewrite E in H1, H2. auto.
    + rewrite deleteMany_none; [reflexivity|].
      intros k l Hl. destruct (Nat.eqb_spec k (File.id file)) as [->|]; [|reflexivity].
      rewrite Hheld in Hl. injection Hl as <-.
      apply Nat.eqb_neq in Hown. now rewrite Hown.
  - intros Hno.
    assert ((if truthy_string deviceId
             then match deviceId with
                  | Some d => match devices db !! d with
                              | Some device => Some (Device.id device)
                              | None => None
                              end
                  | None => None
                  end
             else None) = None) as ->.
    { destruct Hno as [-> | (d & -> & ->)]; [reflexivity|].
      destruct (truthy_string (Some d)); reflexivity. }
    destruct (FileLockRelease.deleteMany _ db) as [n db1] eqn:E.
    cbn [fst snd].
    match type of E with FileLockRelease.deleteMany ?w _ = _ =>
      destruct (Hrel w) as [H1 H2] end.
    + now rewrite Nat.eqb_refl.
    + intros k l Hk. apply Nat.eqb_neq in Hk. now rewrite Hk.
    + rewrite E in H1, H2. auto.
Qed.

Lemma X10_witness :
  FileLockRelease.releaseFileLock "vault-1" "note.md" (Some "device-B") db_locked
  = (false, db_locked).
Proof.
  destruct (X10_release_file_lock "vault-1" "note.md" (Some "device-B")
              db_locked note_v2 lock_A ltac:(vm_compute; reflexivity)
              ltac:(vm_compute; reflexivity)) as [Hregistered _].
  apply (Hregistered "device-B" deviceB eq_refl ltac:(discriminate)
           ltac:(vm_compute; reflexivity)).
  vm_compute. discriminate.
Defined.

(** X11.  Sweeping expired locks never changes the outcome of a later lock
    request.  For a sweep at a time not after the request's clock, the
    request is answered the same, with the same lock when it is granted,
    whether or not the sweep ran before it. *)
Theorem X11_sweep_is_transparent
    (cfg : Config) (sweepNow now dateNow : Z)
    (vaultId filePath deviceId : string) (db : DB) :
  sweepNow <= now ->
  (FileLockService.requestFileLock cfg now dateNow vaultId filePath deviceId
     (FileLockRelease.cleanupExpiredLocks sweepNow db).2).1
  = (FileLockService.requestFileLock cfg now dateNow vaultId filePath deviceId
       db).1.
Proof.
  intros Hle. unfold FileLockRelease.cleanupExpiredLocks.
  set (where_ := fun (_ : nat) (l : FileLock.t) => FileLock.expiresAt l <? sweepNow).
  pose proof (deleteMany_lookup where_ db) as Hlook.
  destruct (deleteMany_others where_ db) as (Hf & Hd & Hn).
  destruct (FileLockRelease.deleteMany where_ db) as [n db1]. cbn [snd] in *.
  unfold FileLockService.requestFileLock. rewrite Hd.
  destruct (devices db !! deviceId) as [device|]; [|reflexivity].
  unfold Prisma.file_findFirst. rewrite Hf.
  destruct (List.find _ (files db)) as [file|]; [|reflexivity].
  rewrite Hlook.
  assert (forall db', fileLocks db' !! File.id file = None ->
            nextId db' = nextId db ->
            (FileLockService.createLock cfg now dateNow vaultId (File.id file)
               (Device.id device) db').1
            = FileLockService.granted
                {| FileLock.id := nextId db; FileLock.vaultId := vaultId;
                   FileLock.fileId := File.id file;
                   FileLock.deviceId := Device.id device;
                   FileLock.lockedAt := now;
                   FileLock.expiresAt := dateNow + fileLockExpiration cfg |})
    as Hcreate.
  { intros db' Hnone Hnext. unfold FileLockService.createLock.
    rewrite Hnone. cbn. now rewrite Hnext. }
  assert (forall m : gmap nat FileLock.t,
            fileLocks (set_fileLocks (delete (File.id file) m) db)
            !! File.id file = None) as Hdel
    by (intros m; cbn; apply lookup_delete_eq).
  destruct (fileLocks db !! File.id file) as [l|] eqn:El.
  - unfold where_.
    destruct (Z.ltb_spec (FileLock.expiresAt l) sweepNow) as [Hexp|Hlive].
    + destruct (Z.gtb_spec (FileLock.expiresAt l) now); [lia|].
      rewrite !Hcreate; auto.
      rewrite Hlook, El. unfold where_.
      destruct (Z.ltb_spec (FileLock.expiresAt l) sweepNow); [reflexivity | lia].
    + destruct (Z.gtb_spec (FileLock.expiresAt l) now).
      * destruct (Nat.eqb _ _); reflexivity.
      * rewrite !Hcreate; auto; cbn; apply lookup_delete_eq.
  - rewrite !Hcreate; auto. rewrite Hlook, El. reflexivity.
Qed.

Lemma X11_witness :
  (FileLockService.requestFileLock cfg0 60000 60000 "vault-1" "note.md"
     "device-B" (FileLockRelease.cleanupExpiredLocks 55000 db_locked).2).1
  = (FileLockService.requestFileLock cfg0 60000 60000 "vault-1" "note.md"
       "device-B" db_locked).1.
Proof.
  apply X11_sweep_is_transparent. lia.
Defined.

(** What a granted lock request leaves behind. *)
Lemma granted_poststate
    (cfg : Config) (now dateNow : Z) (vaultId filePath deviceId : string)
    (db : DB) :
  let out :=
    FileLockService.requestFileLock cfg now dateNow vaultId filePath deviceId db in
  LockResult.success out.1 = true ->
  exists device file l,
    devices db !! deviceId = Some device
    /\ Prisma.file_findFirst vaultId filePath db = Some file
    /\ fileLocks out.2 !! File.id file = Some l
    /\ out.1 = FileLockService.granted l
    /\ FileLock.deviceId l = Device.id device
    /\ FileLock.lockedAt l = now
    /\ FileLock.expiresAt l = dateNow + fileLockExpiration cfg
    /\ files out.2 = files db /\ devices out.2 = devices db.
Proof.
  cbv zeta. unfold FileLockService.requestFileLock.
  destruct (devices db !! deviceId) as [device|]; [|discriminate].
  destruct (Prisma.file_findFirst vaultId filePath db) as [file|];
    [|discriminate].
  assert (forall db', fileLocks db' !! File.id file = None ->
            files db' = files db -> devices db' = devices db ->
            let out := FileLockService.createLock cfg now dateNow vaultId
                         (File.id file) (Device.id device) db' in
            exists l, fileLocks out.2 !! File.id file = Some l
              /\ out.1 = FileLockService.granted l
              /\ FileLock.deviceId l = Device.id device
              /\ FileLock.lockedAt l = now
              /\ FileLock.expiresAt l = dateNow + fileLockExpiration cfg
              /\ files out.2 = files db /\ devices out.2 = devices db)
    as Hcreate.
  { intros db' Hnone Hf Hd. cbv zeta. unfold FileLockService.createLock.
    rewrite Hnone. cbn. eexists. rewrite lookup_insert_eq.
    repeat split; auto. }
  destruct (fileLocks db !! File.id file) as [l|] eqn:El.
  - destruct (FileLock.expiresAt l >? now).
    + destruct (Nat.eqb_spec (FileLock.deviceId l) (Device.id device)) as [E|E];
        [|discriminate].
      intros _. exists device, file. eexists. cbn.
      rewrite lookup_insert_eq. repeat split; auto.
    + intros _. exists device, file.
      destruct (Hcreate (set_fileLocks (delete (File.id file) (fileLocks db)) db))
        as (l' & H); [cbn; apply lookup_delete_eq | reflexivity | reflexivity |].
      exists l'. tauto.
  - intros _. exists device, file.
    destruct (Hcreate db El eq_refl eq_refl) as (l' & H). exists l'. tauto.
Qed.

(** X12.  A granted lock excludes the other devices until it expires.
    After a lock request of a device was granted, with expiry E (the
    [Date.now()] of the grant plus the lease), a request for the same file by
    another registered device is denied with expiry E and changes nothing as
    long as the clock is before E, and is granted once the clock has reached
    E; a request by the holder before E is granted again and keeps the lock
    row's id. *)
Theorem X12_granted_lock_excludes_until_expiry
    (cfg : Config) (now dateNow now' dateNow' : Z)
    (vaultId filePath holder : string) (db : DB) :
  let first :=
    FileLockService.requestFileLock cfg now dateNow vaultId filePath holder db in
  let expiry := dateNow + fileLockExpiration cfg in
  LockResult.success first.1 = true ->
  (forall other deviceH deviceO,
     devices db !! holder = Some deviceH ->
     devices db !! other = Some deviceO ->
     Device.id deviceO <> Device.id deviceH ->
     let second :=
       FileLockService.requestFileLock cfg now' dateNow' vaultId filePath other
         first.2 in
     (now' < expiry ->
      second = (FileLockService.failure "File is locked by another device"
                  (Some expiry), first.2))
     /\ (expiry <= now' ->
         exists l, second.1 = FileLockService.granted l
           /\ FileLock.deviceId l = Device.id deviceO
           /\ FileLock.expiresAt l = dateNow' + fileLockExpiration cfg))
  /\ (now' < expiry ->
      let again :=
        FileLockService.requestFileLock cfg now' dateNow' vaultId filePath holder
          first.2 in
      exists l l', first.1 = FileLockService.granted l
        /\ again.1 = FileLockService.granted l'
        /\ FileLock.id l' = FileLock.id l
        /\ FileLock.lockedAt l' = now'
        /\ FileLock.expiresAt l' = dateNow' + fileLockExpiration cfg).
Proof.
  cbv zeta. intros Hok.
  destruct (granted_poststate cfg now dateNow vaultId filePath holder db Hok)
    as (device & file & l & Hdev & Hfile & Hl & Hres & Hown & _ & Hexp & Hf & Hd).
  set (db1 := (FileLockService.requestFileLock cfg now dateNow vaultId filePath
                 holder db).2) in *.
  assert (Prisma.file_findFirst vaultId filePath db1 = Some file) as Hfile1
    by (unfold Prisma.file_findFirst in *; rewrite Hf; exact Hfile).
  split.
  - intros other deviceH deviceO HdevH HdevO Hne.
    assert (deviceH = device) as -> by congruence.
    unfold FileLockService.requestFileLock.
    rewrite Hd, HdevO, Hfile1, Hl, Hexp.
    split; intros Hclock.
    + destruct (Z.gtb_spec (dateNow + fileLockExpiration cfg) now'); [|lia].
      rewrite Hown.
      destruct (Nat.eqb_spec (Device.id device) (Device.id deviceO));
        [congruence | reflexivity].
    + destruct (Z.gtb_spec (dateNow + fileLockExpiration cfg) now'); [lia|].
      unfold FileLockService.createLock. cbn [fileLocks set_fileLocks].
      rewrite lookup_delete_eq. cbn. eexists. split; [reflexivity|]. auto.
  - intros Hclock. exists l.
    assert (FileLockService.requestFileLock cfg now' dateNow' vaultId filePath
              holder db1
            = (FileLockService.granted
                 {| FileLock.id := FileLock.id l;
                    FileLock.vaultId := FileLock.vaultId l;
                    FileLock.fileId := FileLock.fileId l;
                    FileLock.deviceId := FileLock.deviceId l;
                    FileLock.lockedAt := now';
                    FileLock.expiresAt := dateNow' + fileLockExpiration cfg |},
               set_fileLocks
                 (<[File.id file :=
                      {| FileLock.id := FileLock.id l;
                         FileLock.vaultId := FileLock.vaultId l;
                         FileLock.fileId := FileLock.fileId l;
                         FileLock.deviceId := FileLock.deviceId l;
                         FileLock.lockedAt := now';
                         FileLock.expiresAt := dateNow' + fileLockExpiration cfg |}]>
                    (fileLocks db1)) db1)) as ->.
    { unfold FileLockService.requestFileLock.
      rewrite Hd, Hdev, Hfile1, Hl, Hexp.
      destruct (Z.gtb_spec (dateNow + fileLockExpiration cfg) now'); [|lia].
      rewrite Hown, Nat.eqb_refl. reflexivity. }
    eexists. split; [exact Hres|]. split; [reflexivity|]. cbn. auto.
Qed.

Lemma X12_witness :
  LockResult.success
    (FileLockService.requestFileLock cfg0 40000 40000 "vault-1" "note.md"
       "device-B"
       (FileLockService.requestFileLock cfg0 20000 20000 "vault-1" "note.md"
          "device-A" db_note).2).1 = false.
Proof.
  destruct (X12_granted_lock_excludes_until_expiry cfg0 20000 20000 40000 40000
              "vault-1" "note.md" "device-A" db_note
              ltac:(vm_compute; reflexivity)) as [Hother _].
  destruct (Hother "device-B" deviceA deviceB ltac:(vm_compute; reflexivity)
              ltac:(vm_compute; reflexivity) ltac:(vm_compute; discriminate))
    as [Hdenied _].
  rewrite Hdenied; [reflexivity | vm_compute; reflexivity].
Defined.

(* ===================================================================== *)
(** * A chunked upload from its first frame to the file record *)
(* ===================================================================== *)

Section UploadRun.

Variables (now : Z) (vaultId deviceId filePath : string).

Local Abbreviation sid :=
  (ChunkSessionService.buildSessionId vaultId deviceId filePath).






End UploadRun.









(* ===================================================================== *)
(** * More on chunk sessions *)
(* ===================================================================== *)

(** X15.  The inactivity sweep removes exactly the sessions whose last
    activity is more than thirty minutes old and leaves the others as they
    are.  A session that was just created, or that just stored a chunk,
    outlives every sweep of the next thirty minutes. *)
Theorem X15_sweep_removes_only_idle_sessions
    (now : Z) (sessions : gmap string ChunkSession.t) :
  (forall sessionId,
     ChunkSessionCleanup.cleanupExpiredSessions now sessions !! sessionId
     = match sessions !! sessionId with
       | Some s => if now - ChunkSession.lastActivity s >? 1800000
                   then None else Some s
       | None => None
       end)
  /\ (forall (t : Z) (sessionId : string) (chunkIndex : Z) (chunkData : Buffer)
             (chunkHash : string),
        let stored :=
          ChunkSessionService.storeChunk t sessionId chunkIndex chunkData
            chunkHash sessions in
        ChunkSessionService.store_success stored.1 = true ->
        now <= t + 1800000 ->
        is_Some (ChunkSessionCleanup.cleanupExpiredSessions now stored.2
                 !! sessionId))
  /\ (forall (t t' : Z) (sessionId vaultId filePath fileHash : string)
             (fileSize totalChunks : Z) (clientId : string),
        now <= t' + 1800000 ->
        is_Some (ChunkSessionCleanup.cleanupExpiredSessions now
                   (ChunkSessionService.createSession t t' sessionId vaultId
                      filePath fileHash fileSize totalChunks clientId sessions)
                 !! sessionId)).
Proof.
  assert (forall m sessionId,
            ChunkSessionCleanup.cleanupExpiredSessions now m !! sessionId
            = match m !! sessionId with
              | Some s => if now - ChunkSession.lastActivity s >? 1800000
                          then None else Some s
              | None => None
              end) as Hlook.
  { intros m sessionId. unfold ChunkSessionCleanup.cleanupExpiredSessions.
    destruct (m !! sessionId) as [s|] eqn:E.
    - destruct (now - ChunkSession.lastActivity s >? 1800000) eqn:X.
      + apply map_lookup_filter_None. right. intros s' Hs'. cbn.
        rewrite E in Hs'. injection Hs' as <-.
        unfold ChunkSessionCleanup.expired.
        change (30 * 60 * 1000) with 1800000. rewrite X. discriminate.
      + apply map_lookup_filter_Some. split; [exact E|]. exact X.
    - apply map_lookup_filter_None. left. exact E. }
  split; [apply Hlook|]. split.
  - intros t sessionId chunkIndex chunkData chunkHash. cbv zeta.
    unfold ChunkSessionService.storeChunk.
    destruct (sessions !! sessionId) as [s|]; [|discriminate].
    destruct (negb (String.eqb _ _)); [discriminate|].
    intros _ Ht. cbn [snd]. rewrite Hlook, lookup_insert_eq.
    cbn [ChunkSession.lastActivity].
    destruct (Z.gtb_spec (now - t) 1800000); [lia | eauto].
  - intros t t' sessionId vaultId filePath fileHash fileSize totalChunks clientId
      Ht.
    unfold ChunkSessionService.createSession.
    rewrite Hlook, lookup_insert_eq. cbn [ChunkSession.lastActivity].
    destruct (Z.gtb_spec (now - t') 1800000); [lia | eauto].
Qed.

Lemma X15_witness :
  is_Some (ChunkSessionCleanup.cleanupExpiredSessions 1800000 hello_two_chunks
           !! hello_session_id).
Proof.
  destruct (X15_sweep_removes_only_idle_sessions 1800000
              (ChunkSessionService.storeChunk 1100 hello_session_id 0
                 (list_byte_of_string "he")
                 (sha256_buffer (list_byte_of_string "he")) hello_started).2)
    as (_ & Hstored & _).
  apply (Hstored 1200 hello_session_id 2 (list_byte_of_string "lo")
           (sha256_buffer (list_byte_of_string "lo"))).
  - vm_compute. reflexivity.
  - lia.
Defined.

(** X16.  A chunk stored at an index outside [0, n) never takes part in a
    completion: it is accepted and kept in the session, and the completion
    of the session gives the same result and leaves the content store in the
    same state as if it had not been sent. *)
Theorem X16_out_of_range_chunk_is_ignored
    (cfg : Config) (now : Z) (sessionId : string) (chunkIndex : Z)
    (chunkData : Buffer) (sessions : gmap string ChunkSession.t)
    (storage : StorageService.t) (s : ChunkSession.t) :
  sessions !! sessionId = Some s ->
  chunkIndex < 0 \/ ChunkSession.totalChunks s <= chunkIndex ->
  let stored :=
    ChunkSessionService.storeChunk now sessionId chunkIndex chunkData
      (sha256_buffer chunkData) sessions in
  ChunkSessionService.store_success stored.1 = true
  /\ (exists s', stored.2 !! sessionId = Some s'
        /\ ChunkSession.receivedChunks s' !! chunkIndex = Some chunkData)
  /\ (ChunkSessionService.completeUpload cfg sessionId stored.2 storage).1.1
     = (ChunkSessionService.completeUpload cfg sessionId sessions storage).1.1
  /\ (ChunkSessionService.completeUpload cfg sessionId stored.2 storage).2
     = (ChunkSessionService.completeUpload cfg sessionId sessions storage).2.
Proof.
  intros Hs Hout. cbv zeta. unfold ChunkSessionService.storeChunk.
  rewrite Hs, String.eqb_refl. cbn [negb fst snd ChunkSessionService.store_success].
  split; [reflexivity|]. split.
  { eexists. rewrite lookup_insert_eq. split; [reflexivity|].
    cbn. apply lookup_insert_eq. }
  unfold ChunkSessionService.completeUpload. rewrite lookup_insert_eq, Hs.
  set (s' := {| ChunkSession.filePath := ChunkSession.filePath s |}).
  assert (forall i, In i (ChunkSessionService.indices s) ->
            ChunkSession.receivedChunks s' !! i
            = ChunkSession.receivedChunks s !! i) as Hsame.
  { intros i Hi. unfold ChunkSessionService.indices in Hi.
    apply list_elem_of_In, elem_of_seqZ in Hi.
    cbn. apply lookup_insert_ne. lia. }
  assert (ChunkSessionService.missingOf s' = ChunkSessionService.missingOf s)
    as ->.
  { unfold ChunkSessionService.missingOf.
    change (ChunkSessionService.indices s') with (ChunkSessionService.indices s).
    apply List.filter_ext_in. intros i Hi. now rewrite Hsame. }
  assert (ChunkSessionService.assemble s' = ChunkSessionService.assemble s)
    as ->.
  { unfold ChunkSessionService.assemble.
    change (ChunkSessionService.indices s') with (ChunkSessionService.indices s).
    f_equal. apply List.map_ext_in. intros i Hi. now rewrite Hsame. }
  cbn [ChunkSession.fileSize ChunkSession.fileHash ChunkSession.vaultId
       ChunkSession.filePath s'].
  destruct (0 <? _)%nat; [split; reflexivity|].
  destruct (negb (_ =? _)); [split; reflexivity|].
  destruct (negb (String.eqb _ _)); [split; reflexivity|].
  destruct (StorageService.writeFile _ _ _ _ _) as [[e|u] st']; split; reflexivity.
Qed.

Lemma X16_witness :
  (ChunkSessionService.completeUpload cfg0 hello_session_id
     (ChunkSessionService.storeChunk 1100 hello_session_id 7
        (list_byte_of_string "zz") (sha256_buffer (list_byte_of_string "zz"))
        hello_started).2 storage0).1.1
  = (ChunkSessionService.completeUpload cfg0 hello_session_id hello_started
       storage0).1.1.
Proof.
  destruct (hello_started !! hello_session_id) as [s|] eqn:Hs;
    [|vm_compute in Hs; discriminate].
  assert (7 < 0 \/ ChunkSession.totalChunks s <= 7) as Hout.
  { right. vm_compute in Hs. injection Hs as <-. vm_compute. discriminate. }
  destruct (X16_out_of_range_chunk_is_ignored cfg0 1100 hello_session_id 7
              (list_byte_of_string "zz") hello_started storage0 s Hs Hout)
    as (_ & _ & Hsame & _).
  exact Hsame.
Defined.

(** X17.  One chunk through the gateway: its [chunk-data] frame followed
    by its payload.  With an open session the payload is stored exactly
    when its length is the announced chunk size and its SHA-256 the announced
    hash, under the announced index; otherwise the sessions are left as they
    are, and the response says so.  Either way the socket is afterwards
    waiting for metadata again. *)
Theorem X17_chunk_is_stored_iff_it_matches_its_metadata
    (now : Z) (message : ChunkDataMessage.t) (data : Buffer)
    (sessions : gmap string ChunkSession.t) (chunkState : ChunkState.t)
    (s : ChunkSession.t) :
  let sessionId :=
    ChunkSessionService.buildSessionId (ChunkDataMessage.vaultId message)
      (ChunkDataMessage.deviceId message) (ChunkDataMessage.filePath message) in
  sessions !! sessionId = Some s ->
  let announced := ChunkGateway.handleChunkData message sessions chunkState in
  let out := ChunkGateway.handleBinaryChunkData now data announced.2 sessions in
  let matches :=
    Z.of_nat (List.length data) = ChunkDataMessage.chunkSize message
    /\ sha256_buffer data = ChunkDataMessage.chunkHash message in
  ChunkUploadResponse.success announced.1 = true
  /\ out.1.2 = ChunkState.idle
  /\ (matches ->
      out.1.1 = Some (ChunkGateway.respond (ChunkDataMessage.filePath message)
                        true (ChunkDataMessage.chunkIndex message)
                        "Chunk received successfully")
      /\ exists s', out.2 = <[sessionId := s']> sessions
           /\ ChunkSession.receivedChunks s'
              = <[ChunkDataMessage.chunkIndex message := data]>
                  (ChunkSession.receivedChunks s))
  /\ (~ matches ->
      out.2 = sessions
      /\ exists r, out.1.1 = Some r /\ ChunkUploadResponse.success r = false
           /\ ChunkUploadResponse.chunkIndex r
              = ChunkDataMessage.chunkIndex message).
Proof.
  cbv zeta. intros Hs.
  unfold ChunkGateway.handleChunkData, ChunkSessionService.getSession.
  rewrite Hs. cbn [fst snd ChunkGateway.respond ChunkUploadResponse.success].
  split; [reflexivity|].
  unfold ChunkGateway.handleBinaryChunkData.
  cbn [ChunkState.currentChunkMetadata].
  destruct (Z.eqb_spec (Z.of_nat (List.length data))
              (ChunkDataMessage.chunkSize message)) as [Hlen|Hlen]; cbn [negb].
  - unfold ChunkSessionService.storeChunk. rewrite Hs.
    destruct (String.eqb_spec (sha256_buffer data)
                (ChunkDataMessage.chunkHash message)) as [Hh|Hh]; cbn [negb].
    + cbn. split; [reflexivity|]. split.
      * intros _. split; [reflexivity|]. eexists. split; [reflexivity|].
        reflexivity.
      * intros Hno. exfalso. apply Hno. auto.
    + cbn. split; [reflexivity|]. split.
      * intros [_ E]. contradiction.
      * intros _. split; [reflexivity|]. eexists. split; [reflexivity|].
        split; reflexivity.
  - cbn. split; [reflexivity|]. split.
    + intros [E _]. contradiction.
    + intros _. split; [reflexivity|]. eexists. split; [reflexivity|].
      split; reflexivity.
Qed.

Lemma X17_witness :
  (ChunkGateway.handleBinaryChunkData 1300 (list_byte_of_string "l")
     (ChunkGateway.handleChunkData hello_chunk_1 hello_started
        ChunkState.idle).2 hello_started).1.1
  = Some (ChunkGateway.respond "big.bin" true 1 "Chunk received successfully").
Proof.
  destruct (hello_started !! hello_session_id) as [s|] eqn:Hs;
    [|vm_compute in Hs; discriminate].
  destruct (X17_chunk_is_stored_iff_it_matches_its_metadata 1300 hello_chunk_1
              (list_byte_of_string "l") hello_started ChunkState.idle s Hs)
    as (_ & _ & Hmatch & _).
  apply Hmatch. split; vm_compute; reflexivity.
Defined.

(** Cutting a string at its first colon. *)
Lemma append_colon_inj (a b r r' : string) :
  StorageService.forallb_string (fun c => negb (Ascii.eqb c ":")) a = true ->
  StorageService.forallb_string (fun c => negb (Ascii.eqb c ":")) b = true ->
  a +:+ String ":" r = b +:+ String ":" r' -> a = b /\ r = r'.
Proof.
  revert b. induction a as [|x a IH]; intros [|y b] Ha Hb E; cbn in *.
  - injection E as ->. auto.
  - injection E as <- _. rewrite Ascii.eqb_refl in Hb. discriminate.
  - injection E as -> _. rewrite Ascii.eqb_refl in Ha. discriminate.
  - injection E as -> E. apply andb_true_iff in Ha, Hb.
    destruct (IH b (proj2 Ha) (proj2 Hb) E) as [-> ->]. auto.
Qed.

(** X18.  Session ids tell uploads apart as long as vault ids and device
    ids contain no colon: two uploads with the same session id then have the
    same vault, the same device and the same path.  (The path may contain
    colons.) *)
Theorem X18_session_id_is_injective
    (vaultId clientId filePath vaultId' clientId' filePath' : string) :
  StorageService.forallb_string (fun c => negb (Ascii.eqb c ":")) vaultId = true ->
  StorageService.forallb_string (fun c => negb (Ascii.eqb c ":")) clientId = true ->
  StorageService.forallb_string (fun c => negb (Ascii.eqb c ":")) vaultId' = true ->
  StorageService.forallb_string (fun c => negb (Ascii.eqb c ":")) clientId' = true ->
  ChunkSessionService.buildSessionId vaultId clientId filePath
  = ChunkSessionService.buildSessionId vaultId' clientId' filePath' ->
  vaultId = vaultId' /\ clientId = clientId' /\ filePath = filePath'.
Proof.
  intros Hv Hc Hv' Hc' E. unfold ChunkSessionService.buildSessionId in E.
  apply (append_colon_inj vaultId vaultId') in E; [|assumption..].
  destruct E as [-> E].
  apply (append_colon_inj clientId clientId') in E; [|assumption..].
  destruct E as [-> ->]. auto.
Qed.

Lemma X18_witness :
  ChunkSessionService.buildSessionId "vault-1" "device-A" "big.bin"
  <> ChunkSessionService.buildSessionId "vault-1" "device-B" "big.bin".
Proof.
  intros Heq.
  apply X18_session_id_is_injective in Heq; try reflexivity.
  destruct Heq as (_ & Hclient & _). discriminate Hclient.
Defined.

(** Without that proviso two different uploads can share a session. *)
Example session_id_collision :
  ChunkSessionService.buildSessionId "v" "a:b" "c"
  = ChunkSessionService.buildSessionId "v" "a" "b:c".
Proof. reflexivity. Qed.

(* ===================================================================== *)
(** * The content store *)
(* ===================================================================== *)

Lemma forallb_map_string (p : ascii -> bool) (f : ascii -> ascii) (s : string) :
  StorageService.forallb_string p (StorageService.map_string f s)
  = StorageService.forallb_string (fun c => p (f c)) s.
Proof. induction s as [|c s IH]; cbn; [reflexivity | now rewrite IH]. Qed.

Lemma map_string_id (f : ascii -> ascii) (s : string) :
  StorageService.forallb_string (fun c => Ascii.eqb (f c) c) s = true ->
  StorageService.map_string f s = s.
Proof.
  induction s as [|c s IH]; cbn; [reflexivity|].
  intros H. apply andb_true_iff in H. destruct H as [Hc Hs].
  apply Ascii.eqb_eq in Hc. now rewrite Hc, IH.
Qed.

Lemma forallb_string_impl (p q : ascii -> bool) (s : string) :
  (forall c, p c = true -> q c = true) ->
  StorageService.forallb_string p s = true ->
  StorageService.forallb_string q s = true.
Proof.
  intros Hpq. induction s as [|c s IH]; cbn; [reflexivity|].
  intros H. apply andb_true_iff in H. destruct H as [Hc Hs].
  now rewrite (Hpq c Hc), IH.
Qed.

(** X19.  A path the content store accepts is safe and already in normal
    form: the path it returns is the given one with every backslash turned
    into a slash; it is not empty, has no backslash, does not start with a
    slash, and none of its segments is [..] or empty; validating it again
    returns it unchanged. *)
Theorem X19_validated_path_is_safe (filePath safe : string) :
  StorageService.validateFilePath filePath = inr safe ->
  safe = StorageService.map_string
           (fun c => if Ascii.eqb c "\" then "/"%char else c) filePath
  /\ safe <> ""
  /\ StorageService.forallb_string (fun c => negb (Ascii.eqb c "\")) safe = true
  /\ String.prefix "/" safe = false
  /\ (forall segment, In segment (StorageService.split "/" safe) ->
                      segment <> ".." /\ segment <> "")
  /\ StorageService.validateFilePath safe = inr safe.
Proof.
  unfold StorageService.validateFilePath.
  destruct (String.eqb filePath "" || _) eqn:Hbad; [discriminate|].
  apply orb_false_iff in Hbad. destruct Hbad as [Hne Hnul].
  apply negb_false_iff in Hnul.
  set (f := fun c : ascii => if Ascii.eqb c "\" then "/"%char else c).
  destruct (String.prefix "/" (StorageService.map_string f filePath)) eqn:Habs;
    [discriminate|].
  destruct (List.existsb _ _) eqn:Hseg; [discriminate|].
  intros [= <-]. split; [reflexivity|].
  set (q := StorageService.map_string f filePath) in *.
  assert (q <> "") as Hq.
  { intros E. destruct filePath; [discriminate|]. discriminate. }
  assert (StorageService.forallb_string (fun c => negb (Ascii.eqb c "\")) q
          = true) as Hbs.
  { unfold q. rewrite forallb_map_string.
    clear. induction filePath as [|c s IH]; cbn; [reflexivity|].
    rewrite IH, andb_true_r. unfold f.
    destruct (Ascii.eqb_spec c "\"); [reflexivity|].
    now apply negb_true_iff, Ascii.eqb_neq. }
  split; [exact Hq|]. split; [exact Hbs|]. split; [exact Habs|]. split.
  - intros segment Hin.
    assert (String.eqb segment ".." || (String.length segment =? 0)%nat = false)
      as Hs.
    { destruct (String.eqb segment ".." || (String.length segment =? 0)%nat)
        eqn:X; [|reflexivity].
      assert (List.existsb
                (fun segment => String.eqb segment ".."
                                || (String.length segment =? 0)%nat)
                (StorageService.split "/" q) = true) as Y
        by (apply List.existsb_exists; eauto).
      congruence. }
    apply orb_false_iff in Hs. destruct Hs as [H1 H2].
    split; [now apply String.eqb_neq|].
    intros ->. discriminate.
  - assert (StorageService.map_string f q = q) as Hid.
    { apply map_string_id. revert Hbs. apply forallb_string_impl.
      intros c Hc. unfold f. apply negb_true_iff in Hc. rewrite Hc.
      apply Ascii.eqb_refl. }
    assert (String.eqb q "" = false) as -> by (now apply String.eqb_neq).
    assert (StorageService.forallb_string
              (fun c => negb (Ascii.eqb c Ascii.zero)) q = true) as ->.
    { unfold q. rewrite forallb_map_string. revert Hnul.
      apply forallb_string_impl. intros c Hc. unfold f.
      destruct (Ascii.eqb c "\"); [reflexivity | exact Hc]. }
    cbn [orb negb]. fold f. rewrite Hid, Habs, Hseg. reflexivity.
Qed.

Lemma X19_witness :
  StorageService.validateFilePath "notes/todo.md" = inr "notes/todo.md".
Proof.
  destruct (X19_validated_path_is_safe "notes\todo.md" "notes/todo.md"
              ltac:(vm_compute; reflexivity)) as (_ & _ & _ & _ & _ & Hagain).
  exact Hagain.
Defined.

(** X20.  The sync service and the content store apply the same size
    limit.  Every content write an operation fires is the write of the
    operation's own vault, path and content, and its content is within the
    size limit; the store accepts it exactly when the vault id and the path
    pass the store's validation and the file system does not fail. *)
Theorem X20_fired_write_is_within_the_size_limit
    (cfg : Config) (resolverNow mtimeNow : Z)
    (data : SyncService.FileOperationData) (db : DB)
    (storage : StorageService.t) (vaultId filePath content : string) :
  let out := SyncService.processFileChange cfg resolverNow mtimeNow data db in
  In (storage_writeFile vaultId filePath content) out.2 ->
  vaultId = SyncService.vaultId data
  /\ filePath = SyncService.filePath data
  /\ content = SyncService.content data
  /\ byteLength content <= maxFileSize cfg
  /\ ((StorageService.writeFile cfg vaultId filePath content storage).1 = inr tt
      <-> StorageService.validateVaultId vaultId = inr tt
          /\ exists safe,
               StorageService.validateFilePath filePath = inr safe
               /\ StorageService.fsError storage vaultId safe = None).
Proof.
  cbv zeta. intros Hin.
  assert (vaultId = SyncService.vaultId data
          /\ filePath = SyncService.filePath data
          /\ content = SyncService.content data
          /\ byteLength content <= maxFileSize cfg) as (-> & -> & -> & Hsize).
  { revert Hin.
    unfold SyncService.processFileChange, SyncService.validateDevice.
    destruct (devices db !! SyncService.deviceId data) as [device|];
      [|cbn; intros []].
    assert (In (storage_writeFile vaultId filePath content)
              (SyncService.processCreateUpdateOperation cfg resolverNow mtimeNow
                 data (Device.id device) db).2 ->
            vaultId = SyncService.vaultId data
            /\ filePath = SyncService.filePath data
            /\ content = SyncService.content data
            /\ byteLength content <= maxFileSize cfg) as Hcu.
    { unfold SyncService.processCreateUpdateOperation.
      destruct (Z.gtb_spec (byteLength (SyncService.content data))
                  (maxFileSize cfg)) as [|Hfit]; [cbn; intros []|].
      unfold transaction. cbn [Prisma.syncOperation_create freshId].
      destruct (Prisma.file_findFirst _ _ _) as [ef|].
      - set (res := ConflictResolver.resolveFileConflict _ _).
        destruct (ConflictResolver.action res); cbn; try tauto;
          destruct (bool_decide _ || bool_decide _); cbn; try tauto;
          intros [[= <- <- <-]|[]]; auto.
      - cbn. intros [[= <- <- <-]|[]]; auto. }
    destruct (SyncService.operationType data); [exact Hcu | exact Hcu | |].
    - unfold SyncService.processDeleteOperation, transaction.
      cbn [Prisma.syncOperation_create freshId].
      set (found := Prisma.file_findFirst _ _ _).
      set (res := ConflictResolver.resolveDeleteConflict _ _ _ _).
      destruct (ConflictResolver.action res), found; cbn;
        intros H; repeat (destruct H as [H|H]; try discriminate); destruct H.
    - destruct (SyncService.newPath data) as [p|]; [|cbn; intros []].
      destruct (truthy_string (Some p)); [|cbn; intros []].
      unfold SyncService.processRenameOperation, transaction.
      cbn [Prisma.syncOperation_create freshId].
      set (found := Prisma.file_findFirst _ (SyncService.filePath data) _).
      set (res := ConflictResolver.resolveRenameConflict _ _ _ _ _).
      destruct (ConflictResolver.action res), found; cbn;
        intros H; repeat (destruct H as [H|H]; try discriminate); destruct H. }
  repeat (split; [reflexivity|]). split; [exact Hsize|].
  unfold StorageService.writeFile.
  destruct (Z.gtb_spec (byteLength (SyncService.content data)) (maxFileSize cfg));
    [lia|].
  destruct (StorageService.validateVaultId (SyncService.vaultId data))
    as [e|[]]; cbn.
  { split; [discriminate | intros [[=] _]]. }
  destruct (StorageService.validateFilePath (SyncService.filePath data))
    as [e|safe]; cbn.
  { split; [discriminate | intros [_ (q & [=] & _)]]. }
  destruct (StorageService.fsError storage (SyncService.vaultId data) safe)
    eqn:Hfs; cbn.
  - split; [discriminate|]. intros [_ (q & [= <-] & Hq)]. congruence.
  - split; [|reflexivity]. intros _. split; [reflexivity|]. eauto.
Qed.

Lemma X20_witness :
  byteLength "first" <= maxFileSize cfg0.
Proof.
  destruct (X20_fired_write_is_within_the_size_limit cfg0 9000 9000
              (write_of "device-A" "new.md" "first") db_note storage0
              "vault-1" "new.md" "first"
              ltac:(vm_compute; left; reflexivity)) as (_ & _ & _ & Hsize & _).
  exact Hsize.
Defined.

(* ===================================================================== *)
(** * Connections, rate limiting and broadcasts *)
(* ===================================================================== *)

Section JsMapFacts.
Context {V : Type}.
Implicit Types (m : JsMap.t V) (k : nat) (v : V).

Lemma JsMap_get_set_eq m k v : JsMap.get k (JsMap.set k v m) = Some v.
Proof.
  unfold JsMap.get. induction m as [|[k' v'] m IH]; cbn.
  - now rewrite Nat.eqb_refl.
  - destruct (Nat.eqb_spec k' k); cbn.
    + now rewrite Nat.eqb_refl.
    + destruct (Nat.eqb_spec k' k); [contradiction | exact IH].
Qed.

Lemma JsMap_get_set_ne m k k' v :
  k' <> k -> JsMap.get k' (JsMap.set k v m) = JsMap.get k' m.
Proof.
  intros Hne. unfold JsMap.get. induction m as [|[k0 v0] m IH]; cbn.
  - destruct (Nat.eqb_spec k k'); [congruence | reflexivity].
  - destruct (Nat.eqb_spec k0 k) as [->|]; cbn.
    + destruct (Nat.eqb_spec k k'); [congruence | reflexivity].
    + destruct (Nat.eqb k0 k'); [reflexivity | exact IH].
Qed.

Lemma JsMap_get_delete_eq m k : JsMap.get k (JsMap.delete k m) = None.
Proof.
  unfold JsMap.get, JsMap.delete. induction m as [|[k' v'] m IH]; cbn;
    [reflexivity|].
  destruct (Nat.eqb_spec k' k); cbn; [exact IH|].
  destruct (Nat.eqb_spec k' k); [contradiction | exact IH].
Qed.

Lemma JsMap_get_delete_ne m k k' :
  k' <> k -> JsMap.get k' (JsMap.delete k m) = JsMap.get k' m.
Proof.
  intros Hne. unfold JsMap.get, JsMap.delete.
  induction m as [|[k0 v0] m IH]; cbn; [reflexivity|].
  destruct (Nat.eqb_spec k0 k) as [->|]; cbn.
  - destruct (Nat.eqb_spec k k'); [congruence | exact IH].
  - destruct (Nat.eqb k0 k'); [reflexivity | exact IH].
Qed.

Lemma JsMap_keys_set m k v :
  List.NoDup (List.map fst m) -> List.NoDup (List.map fst (JsMap.set k v m)).
Proof.
  induction m as [|[k' v'] m IH]; cbn; intros Hnd.
  - repeat constructor. intros [].
  - inversion Hnd as [|? ? Hk Hm]; subst.
    destruct (Nat.eqb_spec k' k) as [->|Hne]; cbn.
    + constructor; assumption.
    + constructor; [|now apply IH].
      intros Hin. apply Hk. clear -Hin Hne.
      induction m as [|[k0 v0] m IH]; cbn in *.
      * destruct Hin as [E|[]]. congruence.
      * destruct (Nat.eqb_spec k0 k) as [->|]; cbn in *.
        -- destruct Hin as [E|Hin]; [congruence | auto].
        -- destruct Hin as [E|Hin]; auto.
Qed.

Lemma JsMap_keys_delete m k :
  List.NoDup (List.map fst m) -> List.NoDup (List.map fst (JsMap.delete k m)).
Proof.
  unfold JsMap.delete. induction m as [|[k' v'] m IH]; cbn; intros Hnd;
    [constructor|].
  inversion Hnd as [|? ? Hk Hm]; subst.
  destruct (negb (Nat.eqb k' k)); cbn; [|now apply IH].
  constructor; [|now apply IH].
  intros Hin. apply Hk. apply List.in_map_iff in Hin.
  destruct Hin as ([k0 v0] & E & Hin). apply List.filter_In in Hin.
  apply List.in_map_iff. exists (k0, v0). tauto.
Qed.

Lemma JsMap_get_In m k v :
  List.NoDup (List.map fst m) -> (JsMap.get k m = Some v <-> In (k, v) m).
Proof.
  unfold JsMap.get. induction m as [|[k' v'] m IH]; cbn; intros Hnd.
  - split; [discriminate | intros []].
  - inversion Hnd as [|? ? Hk Hm]; subst.
    destruct (Nat.eqb_spec k' k) as [->|Hne]; cbn.
    + split; [intros [= ->]; auto|].
      intros [[= ->]|Hin]; [reflexivity|].
      exfalso. apply Hk. apply List.in_map_iff. exists (k, v). auto.
    + rewrite (IH Hm). split; [auto|]. intros [[= ? ?]|Hin]; [congruence | auto].
Qed.

End JsMapFacts.

Lemma ConnInv_init : Connections.ConnInv ConnectionManagerService.init.
Proof. split; [constructor | intros ws info [=]]. Qed.

Lemma ConnInv_remove (ws : nat) (st : ConnectionManagerService.t) :
  Connections.ConnInv st -> Connections.ConnInv (ConnectionManagerService.removeClient ws st).2.
Proof.
  intros [Hk Hd]. unfold ConnectionManagerService.removeClient.
  destruct (JsMap.get ws (ConnectionManagerService.clients st)) as [info|] eqn:E;
    [|split; assumption].
  split; cbn.
  - now apply JsMap_keys_delete.
  - intros ws' info' H.
    destruct (Nat.eq_dec ws' ws) as [->|Hne].
    + rewrite JsMap_get_delete_eq in H. discriminate.
    + rewrite JsMap_get_delete_ne in H by exact Hne.
      rewrite lookup_delete_ne; [now apply Hd|].
      intros Heq. apply Hne.
      pose proof (Hd ws info E) as H1. pose proof (Hd ws' info' H) as H2.
      rewrite Heq in H1. congruence.
Qed.

(** Rewriting the record of a registered socket without touching its
    device id. *)
Lemma ConnInv_update (ws : nat) (info info' : ClientInfo.t)
    (st : ConnectionManagerService.t) :
  Connections.ConnInv st ->
  JsMap.get ws (ConnectionManagerService.clients st) = Some info ->
  ClientInfo.deviceId info' = ClientInfo.deviceId info ->
  Connections.ConnInv
    {| ConnectionManagerService.clients :=
         JsMap.set ws info' (ConnectionManagerService.clients st);
       ConnectionManagerService.clientsByDeviceId :=
         ConnectionManagerService.clientsByDeviceId st |}.
Proof.
  intros [Hk Hd] Hget Hdev. split; cbn.
  - now apply JsMap_keys_set.
  - intros ws' i H. destruct (Nat.eq_dec ws' ws) as [->|Hne].
    + rewrite JsMap_get_set_eq in H. injection H as <-. rewrite Hdev.
      now apply Hd.
    + rewrite JsMap_get_set_ne in H by exact Hne. now apply Hd.
Qed.

Lemma ConnInv_register (connectNow seenNow : Z) (readyState : nat -> ReadyState)
    (ws : nat) (vaultId deviceId deviceName : string)
    (st : ConnectionManagerService.t) :
  Connections.ConnInv st ->
  Connections.ConnInv (ConnectionManagerService.registerClient connectNow seenNow readyState
             ws vaultId deviceId deviceName st).2.
Proof.
  intros HI. unfold ConnectionManagerService.registerClient.
  set (full := {| ClientInfo.vaultId := vaultId |}).
  (* the state after the previous connection of the device was dropped *)
  assert (exists calls st1,
            match ConnectionManagerService.clientsByDeviceId st !! deviceId with
            | Some existingWs =>
                if negb (Nat.eqb existingWs ws) then
                  let '(_, st') :=
                    ConnectionManagerService.removeClient existingWs st in
                  (if is_open (readyState existingWs)
                   then [socket_close existingWs 1000
                           "New connection established"]
                   else [], st')
                else ([], st)
            | None => ([], st)
            end = (calls, st1)
            /\ Connections.ConnInv st1
            /\ forall ws' info',
                 ws' <> ws ->
                 JsMap.get ws' (ConnectionManagerService.clients st1)
                 = Some info' ->
                 ClientInfo.deviceId info' <> deviceId) as (calls & st1 & -> & HI1 & Hfree).
  { destruct (ConnectionManagerService.clientsByDeviceId st !! deviceId)
      as [e|] eqn:Hby.
    - destruct (Nat.eqb_spec e ws) as [->|Hne]; cbn [negb].
      + exists [], st. split; [reflexivity|]. split; [exact HI|].
        intros ws' info' Hws' Hget Hdev.
        pose proof (Connections.conn_device st HI ws' info' Hget) as H.
        rewrite Hdev in H. congruence.
      + pose proof (ConnInv_remove e st HI) as HIr.
        unfold ConnectionManagerService.removeClient in *.
        destruct (JsMap.get e (ConnectionManagerService.clients st))
          as [info_e|] eqn:Hge; cbn [snd] in *.
        * eexists _, _. split; [reflexivity|]. split; [exact HIr|].
          intros ws' info' Hws' Hget Hdev. cbn in Hget.
          pose proof (Connections.conn_device _ HIr ws' info' Hget) as H. cbn in H.
          rewrite Hdev in H.
          destruct (decide (ClientInfo.deviceId info_e = deviceId)) as [Ed|Ed].
          -- rewrite Ed, lookup_delete_eq in H. discriminate.
          -- rewrite lookup_delete_ne in H by exact Ed.
             assert (ws' = e) as -> by congruence.
             rewrite JsMap_get_delete_eq in Hget. discriminate.
        * eexists _, _. split; [reflexivity|]. split; [exact HI|].
          intros ws' info' Hws' Hget Hdev.
          pose proof (Connections.conn_device st HI ws' info' Hget) as H.
          rewrite Hdev in H. congruence.
    - exists [], st. split; [reflexivity|]. split; [exact HI|].
      intros ws' info' Hws' Hget Hdev.
      pose proof (Connections.conn_device st HI ws' info' Hget) as H.
      rewrite Hdev in H. congruence. }
  destruct HI1 as [Hk Hd]. split; cbn.
  - now apply JsMap_keys_set.
  - intros ws' i H. destruct (Nat.eq_dec ws' ws) as [->|Hne].
    + rewrite JsMap_get_set_eq in H. injection H as <-. cbn.
      apply lookup_insert_eq.
    + rewrite JsMap_get_set_ne in H by exact Hne.
      rewrite lookup_insert_ne by (intros E; exact (Hfree ws' i Hne H (eq_sym E))).
      now apply Hd.
Qed.

Lemma ConnInv_cleanup (cfg : ConnectionConfig) (now : Z)
    (readyState : nat -> ReadyState) (st : ConnectionManagerService.t) :
  Connections.ConnInv st ->
  Connections.ConnInv (ConnectionManagerService.cleanupStaleConnections cfg now readyState
             st).2.
Proof.
  unfold ConnectionManagerService.cleanupStaleConnections.
  generalize (List.map fst
                (List.filter (ConnectionManagerService.stale cfg now readyState)
                   (ConnectionManagerService.clients st))).
  intros l HI.
  assert (forall acc : list SocketCall * ConnectionManagerService.t,
            Connections.ConnInv acc.2 ->
            Connections.ConnInv
              (List.fold_left
                 (fun (acc : list SocketCall * ConnectionManagerService.t) ws =>
                    let '(_, st') :=
                      ConnectionManagerService.removeClient ws acc.2 in
                    ((acc.1
                      ++ if is_open (readyState ws)
                         then [socket_close ws 1001
                                 "Connection cleanup - stale connection"]
                         else [])%list, st')) l acc).2) as Hfold.
  { induction l as [|ws l IH]; intros [calls st0] H0; cbn [List.fold_left];
      [exact H0|].
    apply IH. cbn [fst snd] in *.
    pose proof (ConnInv_remove ws st0 H0) as HIr.
    destruct (ConnectionManagerService.removeClient ws st0) as [o st'].
    exact HIr. }
  apply Hfold. exact HI.
Qed.

Lemma ConnInv_step (e : Connections.Event) (st : ConnectionManagerService.t) :
  Connections.ConnInv st -> Connections.ConnInv (Connections.step e st).
Proof.
  intros HI. destruct e; cbn [Connections.step].
  - now apply ConnInv_register.
  - now apply ConnInv_remove.
  - unfold ConnectionManagerService.updateClientActivity.
    destruct (JsMap.get ws (ConnectionManagerService.clients st)) eqn:E;
      [|exact HI].
    eapply ConnInv_update; eauto.
  - unfold ConnectionManagerService.checkRateLimit.
    destruct (JsMap.get ws (ConnectionManagerService.clients st)) as [info|] eqn:E;
      [|exact HI].
    destruct (ConnectionManagerService.rateLimit cfg now info) as [b info'] eqn:R.
    cbn [snd]. eapply ConnInv_update; eauto.
    unfold ConnectionManagerService.rateLimit in R.
    destruct (ClientInfo.rateLimitInfo info) as [r|];
      [destruct (_ >? _); [|destruct (_ >=? _)]|];
      injection R as _ <-; reflexivity.
  - unfold ConnectionManagerService.initSyncStats.
    destruct (JsMap.get ws (ConnectionManagerService.clients st)) as [info|] eqn:E;
      [|exact HI].
    destruct (ClientInfo.syncStats info); [exact HI|].
    eapply ConnInv_update; eauto.
  - now apply ConnInv_cleanup.
Qed.

Lemma reachable_ConnInv (st : ConnectionManagerService.t) :
  Connections.reachable st -> Connections.ConnInv st.
Proof.
  induction 1 as [|e st _ IH]; [apply ConnInv_init | now apply ConnInv_step].
Qed.

(** X21.  One connection per device.  In every state the connection
    manager can reach, two registered sockets never carry the same device
    id, a registered socket is the one found by its device id, and the
    sockets' entries are distinct.  Registering a device on a new socket
    therefore takes the place of its earlier registration. *)
Theorem X21_one_connection_per_device (st : ConnectionManagerService.t) :
  Connections.reachable st ->
  (forall ws ws' info info',
     ConnectionManagerService.getClientInfo ws st = Some info ->
     ConnectionManagerService.getClientInfo ws' st = Some info' ->
     ClientInfo.deviceId info = ClientInfo.deviceId info' -> ws = ws')
  /\ (forall ws info,
        ConnectionManagerService.getClientInfo ws st = Some info ->
        ConnectionManagerService.getClientByDeviceId (ClientInfo.deviceId info) st
        = Some (ws, info))
  /\ List.NoDup (List.map fst (ConnectionManagerService.clients st))
  /\ (forall connectNow seenNow readyState ws vaultId deviceId deviceName ws',
        ws' <> ws ->
        forall info',
          ConnectionManagerService.getClientInfo ws'
            (ConnectionManagerService.registerClient connectNow seenNow
               readyState ws vaultId deviceId deviceName st).2 = Some info' ->
          ClientInfo.deviceId info' <> deviceId).
Proof.
  intros Hr. pose proof (reachable_ConnInv st Hr) as [Hk Hd].
  unfold ConnectionManagerService.getClientInfo.
  split; [|split; [|split]].
  - intros ws ws' info info' H H' E.
    pose proof (Hd ws info H) as H1. pose proof (Hd ws' info' H') as H2.
    rewrite E in H1. congruence.
  - intros ws info H. unfold ConnectionManagerService.getClientByDeviceId.
    now rewrite (Hd ws info H), H.
  - exact Hk.
  - intros connectNow seenNow readyState ws vaultId deviceId deviceName ws' Hne
      info' Hget Hdev.
    pose proof (reachable_ConnInv _
                  (Connections.reachable_step
                     (Connections.Register connectNow seenNow readyState ws
                        vaultId deviceId deviceName) st Hr)) as [_ Hd'].
    cbn [Connections.step] in Hd'.
    pose proof (Hd' ws' info' Hget) as H. rewrite Hdev in H.
    unfold ConnectionManagerService.registerClient in H.
    destruct (match ConnectionManagerService.clientsByDeviceId st !! deviceId with
              | Some _ => _ | None => _ end) as [calls st1].
    cbn in H. rewrite lookup_insert_eq in H. congruence.
Qed.

Lemma two_devices_reachable : Connections.reachable two_devices.
Proof.
  repeat apply Connections.reachable_step. apply Connections.reachable_init.
Qed.

Lemma X21_witness :
  exists info,
    ConnectionManagerService.getClientByDeviceId "device-A" two_devices
    = Some (2%nat, info).
Proof.
  destruct (ConnectionManagerService.getClientInfo 2 two_devices)
    as [info|] eqn:Hinfo; [|vm_compute in Hinfo; discriminate].
  destruct (X21_one_connection_per_device two_devices two_devices_reachable)
    as (_ & Hfound & _).
  exists info. rewrite <- (Hfound 2%nat info Hinfo).
  vm_compute in Hinfo. injection Hinfo as <-. reflexivity.
Defined.

(** X22.  The rate limiter.  The first message of a client, and the first
    one that arrives more than a window after the window began, is always
    allowed and opens a new window in which it counts as one.  Of the
    messages that arrive while a window with count c is running, exactly the
    first max(0, limit - c) are allowed; a refused message leaves the
    client's record untouched. *)
Theorem X22_rate_limit_window
    (cfg : ConnectionConfig) (clientInfo : ClientInfo.t) :
  (forall now,
     ClientInfo.rateLimitInfo clientInfo = None
     \/ (exists r, ClientInfo.rateLimitInfo clientInfo = Some r
                   /\ now - RateLimitInfo.windowStart r > rateLimitWindow cfg) ->
     ConnectionManagerService.rateLimit cfg now clientInfo
     = (true,
        ClientInfo.set_rateLimitInfo
          {| RateLimitInfo.lastMessageTime := now;
             RateLimitInfo.messageCount := 1;
             RateLimitInfo.windowStart := now |} clientInfo))
  /\ (forall now r,
        ClientInfo.rateLimitInfo clientInfo = Some r ->
        now - RateLimitInfo.windowStart r <= rateLimitWindow cfg ->
        rateLimitMaxMessages cfg <= RateLimitInfo.messageCount r ->
        ConnectionManagerService.rateLimit cfg now clientInfo
        = (false, clientInfo))
  /\ (forall times r,
        ClientInfo.rateLimitInfo clientInfo = Some r ->
        (forall now, In now times ->
                     now - RateLimitInfo.windowStart r <= rateLimitWindow cfg) ->
        let allowed := (Connections.decisions cfg times clientInfo).1 in
        let quota :=
          Z.to_nat (rateLimitMaxMessages cfg - RateLimitInfo.messageCount r) in
        allowed
        = (List.repeat true (Nat.min quota (List.length times))
           ++ List.repeat false (List.length times - quota))%list).
Proof.
  split; [|split].
  - intros now H. unfold ConnectionManagerService.rateLimit.
    destruct H as [-> | (r & -> & Hexp)]; [reflexivity|].
    destruct (Z.gtb_spec (now - RateLimitInfo.windowStart r) (rateLimitWindow cfg));
      [reflexivity | lia].
  - intros now r Hr Hin Hfull. unfold ConnectionManagerService.rateLimit.
    rewrite Hr.
    destruct (Z.gtb_spec (now - RateLimitInfo.windowStart r) (rateLimitWindow cfg));
      [lia|].
    destruct (Z.geb_spec (RateLimitInfo.messageCount r) (rateLimitMaxMessages cfg));
      [reflexivity | lia].
  - intros times. revert clientInfo.
    induction times as [|now times IH]; intros clientInfo r Hr Hin; cbv zeta.
    + cbn. now rewrite Nat.min_0_r.
    + cbn [Connections.decisions].
      unfold ConnectionManagerService.rateLimit. rewrite Hr.
      destruct (Z.gtb_spec (now - RateLimitInfo.windowStart r)
                  (rateLimitWindow cfg)) as [Hexp|_].
      { specialize (Hin now (or_introl eq_refl)). lia. }
      destruct (Z.geb_spec (RateLimitInfo.messageCount r)
                  (rateLimitMaxMessages cfg)) as [Hfull|Hroom].
      * specialize (IH clientInfo r Hr (fun t Ht => Hin t (or_intror Ht))).
        cbv zeta in IH.
        destruct (Connections.decisions cfg times clientInfo) as [later c2].
        cbn [fst] in *. rewrite IH.
        replace (Z.to_nat (rateLimitMaxMessages cfg - RateLimitInfo.messageCount r))
          with 0%nat by lia.
        cbn [Nat.min List.repeat List.length Nat.sub app].
        rewrite Nat.sub_0_r. reflexivity.
      * set (r' := {| RateLimitInfo.messageCount :=
                        RateLimitInfo.messageCount r + 1 |}).
        specialize (IH (ClientInfo.set_rateLimitInfo r' clientInfo) r' eq_refl
                      (fun t Ht => Hin t (or_intror Ht))).
        cbv zeta in IH.
        destruct (Connections.decisions cfg times
                    (ClientInfo.set_rateLimitInfo r' clientInfo)) as [later c2].
        cbn [fst] in *. rewrite IH. cbn [RateLimitInfo.messageCount r'].
        replace (Z.to_nat (rateLimitMaxMessages cfg - RateLimitInfo.messageCount r))
          with (S (Z.to_nat (rateLimitMaxMessages cfg
                             - (RateLimitInfo.messageCount r + 1)))) by lia.
        cbn [List.length Nat.min List.repeat Nat.sub app]. reflexivity.
Qed.

Lemma X22_witness :
  (Connections.decisions limits [2000; 3000; 4000] busy_client).1
  = [true; true; false].
Proof.
  destruct (X22_rate_limit_window limits busy_client) as (_ & _ & Hquota).
  rewrite (Hquota [2000; 3000; 4000] _ eq_refl); [reflexivity|].
  intros now [<- | [<- | [<- | []]]]; vm_compute; discriminate.
Defined.

(** X23.  Who receives a broadcast.  In every state the connection manager
    can reach, a broadcast to a vault that excludes a device is sent to
    each open socket registered in that vault under another device id,
    once, and to no other socket; in particular never to the socket
    registered for the excluded device. *)
Theorem X23_broadcast_recipients
    (readyState : nat -> ReadyState) (vaultId excludeDeviceId : string)
    (st : ConnectionManagerService.t) :
  Connections.reachable st ->
  let recipients :=
    BroadcastService.broadcastToVault readyState vaultId excludeDeviceId st in
  List.NoDup recipients
  /\ (forall ws,
        In ws recipients
        <-> exists info,
              ConnectionManagerService.getClientInfo ws st = Some info
              /\ ClientInfo.vaultId info = vaultId
              /\ ClientInfo.deviceId info <> excludeDeviceId
              /\ readyState ws = OPEN)
  /\ (forall ws info,
        ConnectionManagerService.getClientByDeviceId excludeDeviceId st
        = Some (ws, info) ->
        ClientInfo.deviceId info = excludeDeviceId ->
        ~ In ws recipients).
Proof.
  intros Hr. cbv zeta. pose proof (reachable_ConnInv st Hr) as [Hk Hd].
  assert (forall ws,
            In ws (BroadcastService.broadcastToVault readyState vaultId
                     excludeDeviceId st)
            <-> exists info,
                  ConnectionManagerService.getClientInfo ws st = Some info
                  /\ ClientInfo.vaultId info = vaultId
                  /\ ClientInfo.deviceId info <> excludeDeviceId
                  /\ readyState ws = OPEN) as Hiff.
  { intros ws. unfold BroadcastService.broadcastToVault,
      ConnectionManagerService.getClientsByVault,
      ConnectionManagerService.getClientInfo.
    rewrite List.in_map_iff. split.
    - intros ([ws' info] & E & Hin). cbn in E. subst ws'.
      apply List.filter_In in Hin. destruct Hin as [Hin Hc].
      apply List.filter_In in Hin. destruct Hin as [Hin Hv]. cbn in *.
      apply andb_true_iff in Hc. destruct Hc as [Hx Ho].
      exists info. split; [now apply JsMap_get_In|].
      split; [now apply String.eqb_eq|].
      split; [now apply String.eqb_neq, negb_true_iff|].
      destruct (readyState ws); (reflexivity || discriminate).
    - intros (info & Hget & Hv & Hx & Ho). exists (ws, info).
      split; [reflexivity|].
      apply List.filter_In. split.
      + apply List.filter_In. split; [now apply JsMap_get_In|].
        cbn. now apply String.eqb_eq.
      + cbn. rewrite Ho. apply andb_true_iff. split; [|reflexivity].
        now apply negb_true_iff, String.eqb_neq. }
  split; [|split; [exact Hiff|]].
  - unfold BroadcastService.broadcastToVault,
      ConnectionManagerService.getClientsByVault.
    revert Hk. generalize (ConnectionManagerService.clients st).
    intros l. induction l as [|[ws info] l IH]; cbn; intros Hnd; [constructor|].
    inversion Hnd as [|? ? Hk' Hl]; subst.
    destruct (String.eqb (ClientInfo.vaultId info) vaultId); cbn; [|now apply IH].
    destruct (negb _ && _); cbn; [|now apply IH].
    constructor; [|now apply IH].
    intros Hin. apply Hk'. apply List.in_map_iff in Hin.
    destruct Hin as ([ws' info'] & E & Hin). cbn in E. subst ws'.
    apply List.filter_In in Hin. destruct Hin as [Hin _].
    apply List.filter_In in Hin. destruct Hin as [Hin _].
    apply List.in_map_iff. exists (ws, info'). auto.
  - intros ws info Hby Hdev Hin. apply Hiff in Hin.
    destruct Hin as (info' & Hget & _ & Hx & _).
    unfold ConnectionManagerService.getClientByDeviceId,
      ConnectionManagerService.getClientInfo in *.
    destruct (ConnectionManagerService.clientsByDeviceId st !! excludeDeviceId)
      as [ws0|]; [|discriminate].
    destruct (JsMap.get ws0 (ConnectionManagerService.clients st)) as [i0|] eqn:E;
      [|discriminate].
    injection Hby as -> ->. congruence.
Qed.

Lemma X23_witness :
  ~ In 2%nat
      (BroadcastService.broadcastToVault all_open "vault-1" "device-A"
         two_devices).
Proof.
  destruct (ConnectionManagerService.getClientByDeviceId "device-A" two_devices)
    as [[ws info]|] eqn:Hfound; [|vm_compute in Hfound; discriminate].
  destruct (X23_broadcast_recipients all_open "vault-1" "device-A" two_devices
              two_devices_reachable) as (_ & _ & Hexcluded).
  assert (ws = 2%nat /\ ClientInfo.deviceId info = "device-A") as [<- Hid].
  { vm_compute in Hfound. injection Hfound as <- <-. split; reflexivity. }
  exact (Hexcluded ws info Hfound Hid).
Defined.

(* ===================================================================== *)
(** * The plugin's chunks and the server *)
(* ===================================================================== *)

Lemma firstn_app_skipn {A} (a b : nat) (l : list A) :
  (List.firstn a l ++ List.firstn b (List.skipn a l))%list = List.firstn (a + b) l.
Proof.
  revert l. induction a as [|a IH]; intros l; [reflexivity|].
  destruct l as [|x l]; cbn.
  - now rewrite List.firstn_nil.
  - now rewrite IH.
Qed.

Lemma skipn_skipn' {A} (a b : nat) (l : list A) :
  List.skipn a (List.skipn b l) = List.skipn (b + a) l.
Proof.
  revert l. induction b as [|b IH]; intros l; [reflexivity|].
  destruct l as [|x l]; cbn; [now rewrite List.skipn_nil | apply IH].
Qed.

(** The chunks from index [off] on, [k] of them, are the next [k] chunk
    sizes of the file. *)
Lemma chunks_from (n : nat) (fileData : Buffer) (k : nat) :
  (0 < n)%nat ->
  forall off : nat,
    List.concat
      (List.map (ChunkManager.chunkData (Z.of_nat n) fileData)
         (seqZ (Z.of_nat off) (Z.of_nat k)))
    = List.firstn (k * n) (List.skipn (off * n) fileData).
Proof.
  intros Hn. induction k as [|k IH]; intros off; [reflexivity|].
  rewrite seqZ_cons by lia.
  replace (Z.succ (Z.of_nat off)) with (Z.of_nat (S off)) by lia.
  replace (Z.pred (Z.of_nat (S k))) with (Z.of_nat k) by lia.
  cbn [List.map List.concat]. rewrite IH.
  replace (S off * n)%nat with (off * n + n)%nat by lia.
  rewrite <- skipn_skipn'.
  replace (S k * n)%nat with (n + k * n)%nat by lia.
  rewrite <- firstn_app_skipn. f_equal.
  unfold ChunkManager.chunkData, ChunkManager.slice.
  replace (Z.to_nat (Z.of_nat off * Z.of_nat n)) with (off * n)%nat by lia.
  set (rest := List.skipn (off * n) fileData).
  assert (List.length rest = (List.length fileData - off * n)%nat) as Hrest
    by (unfold rest; apply List.length_skipn).
  destruct (Z.min_spec (Z.of_nat off * Z.of_nat n + Z.of_nat n)
              (Z.of_nat (List.length fileData))) as [[Hlt ->]|[Hge ->]].
  - f_equal. lia.
  - rewrite !List.firstn_all2; [reflexivity | lia | lia].
Qed.

(** X24.  The plugin cuts a file into chunks that make it up again: for a
    positive chunk size the chunks, in index order, concatenate to the file;
    there are as many as the start frame announces; none is longer than the
    chunk size and, in a non-empty file, none is empty. *)
Theorem X24_plugin_chunks_make_up_the_file (chunkSize : Z) (fileData : Buffer) :
  0 < chunkSize ->
  List.concat (ChunkManager.chunks chunkSize fileData) = fileData
  /\ Z.of_nat (List.length (ChunkManager.chunks chunkSize fileData))
     = ChunkManager.totalChunks chunkSize fileData
  /\ (forall chunk, In chunk (ChunkManager.chunks chunkSize fileData) ->
        0 < Z.of_nat (List.length chunk) <= chunkSize).
Proof.
  intros Hpos.
  assert (0 <= ChunkManager.totalChunks chunkSize fileData) as Htot
    by (unfold ChunkManager.totalChunks; apply Z.div_pos; lia).
  assert (Z.of_nat (List.length fileData)
          <= ChunkManager.totalChunks chunkSize fileData * chunkSize) as Hcover.
  { unfold ChunkManager.totalChunks.
    pose proof (Z.mul_div_le (Z.of_nat (List.length fileData) + chunkSize - 1)
                  chunkSize Hpos).
    pose proof (Z.mod_pos_bound (Z.of_nat (List.length fileData) + chunkSize - 1)
                  chunkSize Hpos).
    pose proof (Z.div_mod (Z.of_nat (List.length fileData) + chunkSize - 1)
                  chunkSize ltac:(lia)).
    nia. }
  assert (ChunkManager.totalChunks chunkSize fileData * chunkSize
          < Z.of_nat (List.length fileData) + chunkSize) as Htight.
  { unfold ChunkManager.totalChunks.
    pose proof (Z.mul_div_le (Z.of_nat (List.length fileData) + chunkSize - 1)
                  chunkSize Hpos).
    nia. }
  split; [|split].
  - unfold ChunkManager.chunks.
    pose proof (chunks_from (Z.to_nat chunkSize) fileData
                  (Z.to_nat (ChunkManager.totalChunks chunkSize fileData))
                  ltac:(lia) 0%nat) as H.
    rewrite !Z2Nat.id in H by lia. change (Z.of_nat 0) with 0 in H. rewrite H.
    cbn [Nat.mul List.skipn]. apply List.firstn_all2. nia.
  - unfold ChunkManager.chunks. rewrite List.length_map, length_seqZ. lia.
  - intros chunk Hin. unfold ChunkManager.chunks in Hin.
    apply List.in_map_iff in Hin. destruct Hin as (i & <- & Hi).
    apply list_elem_of_In, elem_of_seqZ in Hi.
    unfold ChunkManager.chunkData, ChunkManager.slice.
    rewrite List.length_firstn, List.length_skipn. nia.
Qed.

Lemma X24_witness :
  List.concat (ChunkManager.chunks 2 (list_byte_of_string "hello"))
  = list_byte_of_string "hello".
Proof.
  apply (proj1 (X24_plugin_chunks_make_up_the_file 2
                  (list_byte_of_string "hello") ltac:(lia))).
Defined.

(** The digits of a digest: its second character is a hexadecimal digit. *)
Lemma hex_digit_not_h (x : Z) : 0 <= x < 16 -> SHA256.hex_digit x <> "h"%char.
Proof.
  intros Hx.
  assert (x = 0 \/ x = 1 \/ x = 2 \/ x = 3 \/ x = 4 \/ x = 5 \/ x = 6 \/ x = 7
          \/ x = 8 \/ x = 9 \/ x = 10 \/ x = 11 \/ x = 12 \/ x = 13 \/ x = 14
          \/ x = 15) as H by lia.
  repeat (destruct H as [->|H]; [vm_compute; discriminate|]).
  subst. vm_compute. discriminate.
Qed.

Lemma hexdigest_second_digit (data : list byte) :
  exists a b rest,
    SHA256.hexdigest data = String a (String b rest) /\ b <> "h"%char.
Proof.
  unfold SHA256.hexdigest, SHA256.digest_bytes. unfold SHA256.H0.
  cbv beta iota.
  destruct (SHA256.blocks _ _ _) as [[[[[[[a b] c] d] e] f] g] h].
  cbn [List.map List.concat SHA256.be_bytes app SHA256.hex_of_bytes].
  eexists _, _, _. split; [reflexivity|].
  apply hex_digit_not_h.
  change 15 with (Z.ones 4). rewrite Z.land_ones by lia.
  apply Z.mod_pos_bound. reflexivity.
Qed.

(** X25.  The plugin's chunk upload and the server's chunk check do not
    meet.  The plugin announces every chunk with the placeholder
    [chunk_<index>_<length>] as its hash, the server compares the announced
    hash with the SHA-256 of the payload, and no SHA-256 digest reads like
    that: whatever the file, the chunk and the sessions, the server refuses
    the chunk with "Chunk hash mismatch" and stores nothing. *)
Theorem X25_plugin_chunks_are_refused
    (now : Z) (vaultId deviceId filePath : string) (chunkSize : Z)
    (fileData : Buffer) (chunkIndex : Z)
    (sessions : gmap string ChunkSession.t) (s : ChunkSession.t) :
  let frame :=
    ChunkManager.chunkMessage vaultId deviceId filePath chunkSize fileData
      chunkIndex in
  let payload := ChunkManager.chunkData chunkSize fileData chunkIndex in
  let sessionId := ChunkSessionService.buildSessionId vaultId deviceId filePath in
  sessions !! sessionId = Some s ->
  ChunkSessionService.storeChunk now sessionId chunkIndex payload
    (ChunkDataMessage.chunkHash frame) sessions
  = ({| ChunkSessionService.store_success := false;
        ChunkSessionService.store_message := Some "Chunk hash mismatch" |},
     sessions)
  /\ forall chunkState,
       ChunkGateway.handleBinaryChunkData now payload
         (ChunkGateway.handleChunkData frame sessions chunkState).2 sessions
       = (Some (ChunkGateway.respond filePath false chunkIndex
                  "Chunk hash mismatch"),
          ChunkState.idle, sessions).
Proof.
  cbv zeta. intros Hs.
  set (payload := ChunkManager.chunkData chunkSize fileData chunkIndex).
  set (frame := ChunkManager.chunkMessage vaultId deviceId filePath chunkSize
                  fileData chunkIndex).
  assert (String.eqb (sha256_buffer payload) (ChunkDataMessage.chunkHash frame)
          = false) as Hne.
  { apply String.eqb_neq. intros E.
    destruct (hexdigest_second_digit payload) as (a & b & rest & Hd & Hb).
    unfold sha256_buffer in E. rewrite Hd in E. cbn in E.
    injection E as _ E _. contradiction. }
  assert (ChunkDataMessage.vaultId frame = vaultId) as Hv by reflexivity.
  assert (ChunkDataMessage.deviceId frame = deviceId) as Hd by reflexivity.
  assert (ChunkDataMessage.filePath frame = filePath) as Hp by reflexivity.
  assert (ChunkDataMessage.chunkIndex frame = chunkIndex) as Hi by reflexivity.
  assert (ChunkDataMessage.chunkSize frame = Z.of_nat (List.length payload))
    as Hn by reflexivity.
  clearbody frame payload.
  assert (ChunkSessionService.storeChunk now
            (ChunkSessionService.buildSessionId vaultId deviceId filePath)
            chunkIndex payload (ChunkDataMessage.chunkHash frame) sessions
          = ({| ChunkSessionService.store_success := false;
                ChunkSessionService.store_message := Some "Chunk hash mismatch" |},
             sessions)) as Hstore.
  { unfold ChunkSessionService.storeChunk. rewrite Hs, Hne. reflexivity. }
  split; [exact Hstore|].
  intros chunkState.
  unfold ChunkGateway.handleChunkData, ChunkSessionService.getSession.
  rewrite Hv, Hd, Hp, Hs. cbn [snd].
  unfold ChunkGateway.handleBinaryChunkData.
  cbn [ChunkState.currentChunkMetadata].
  rewrite Hv, Hd, Hp, Hi, Hn, Z.eqb_refl. cbn [negb].
  rewrite Hstore. reflexivity.
Qed.

Lemma X25_witness :
  ChunkSessionService.storeChunk 1100 hello_session_id 0
    (ChunkManager.chunkData 2 (list_byte_of_string "hello") 0)
    (ChunkDataMessage.chunkHash
       (ChunkManager.chunkMessage "vault-1" "device-A" "big.bin" 2
          (list_byte_of_string "hello") 0)) hello_started
  = ({| ChunkSessionService.store_success := false;
        ChunkSessionService.store_message := Some "Chunk hash mismatch" |},
     hello_started).
Proof.
  destruct (hello_started !! hello_session_id) as [s|] eqn:Hs;
    [|vm_compute in Hs; discriminate].
  exact (proj1 (X25_plugin_chunks_are_refused 1100 "vault-1" "device-A"
                  "big.bin" 2 (list_byte_of_string "hello") 0 hello_started s
                  Hs)).
Defined.

(** X26.  Resolving a conflict.  [accept-server] on a stored record
    changes nothing and answers with the stored hash and version.  A
    resolution in favour of the client ([accept-client] or [merge]) needs a
    non-empty content and a non-empty hash, else it is refused as an invalid
    message and nothing changes; so a conflict cannot be resolved in favour
    of an empty file.  The hash of such a frame is not compared with its
    content: two frames that differ only in their (non-empty) hash leave the
    same database, fire the same content-store calls and get the same
    answer.  And [merge] leaves the same database and fires the same calls as
    [accept-client]. *)
Theorem X26_resolve_conflict
    (cfg : Config) (resolverNow mtimeNow : Z)
    (message : ResolveConflictMessage.t) (db : DB) :
  let out :=
    ConflictHandler.handleResolveConflict cfg resolverNow mtimeNow message db in
  let with_ (resolution : string) (hash : option string) :=
    {| ResolveConflictMessage.vaultId := ResolveConflictMessage.vaultId message;
       ResolveConflictMessage.filePath := ResolveConflictMessage.filePath message;
       ResolveConflictMessage.resolution := resolution;
       ResolveConflictMessage.content := ResolveConflictMessage.content message;
       ResolveConflictMessage.hash := hash;
       ResolveConflictMessage.deviceId := ResolveConflictMessage.deviceId message;
       ResolveConflictMessage.timestamp :=
         ResolveConflictMessage.timestamp message |} in
  (forall ef,
     ResolveConflictMessage.resolution message = "accept-server" ->
     Prisma.file_findFirst (ResolveConflictMessage.vaultId message)
       (ResolveConflictMessage.filePath message) db = Some ef ->
     out = (inr (ConflictHandler.resolved message (File.hash ef)
                   (File.version ef)), db, []))
  /\ (ResolveConflictMessage.resolution message = "accept-client"
      \/ ResolveConflictMessage.resolution message = "merge" ->
      truthy_string (ResolveConflictMessage.content message) = false
      \/ truthy_string (ResolveConflictMessage.hash message) = false ->
      exists expected,
        out = (inl (invalidMessageFormat "content/hash" None expected), db, []))
  /\ (forall h h',
        h <> "" -> h' <> "" ->
        ConflictHandler.handleResolveConflict cfg resolverNow mtimeNow
          (with_ "accept-client" (Some h)) db
        = ConflictHandler.handleResolveConflict cfg resolverNow mtimeNow
            (with_ "accept-client" (Some h')) db)
  /\ (let client :=
        ConflictHandler.handleResolveConflict cfg resolverNow mtimeNow
          (with_ "accept-client" (ResolveConflictMessage.hash message)) db in
      let merge :=
        ConflictHandler.handleResolveConflict cfg resolverNow mtimeNow
          (with_ "merge" (ResolveConflictMessage.hash message)) db in
      merge.1.2 = client.1.2 /\ merge.2 = client.2
      /\ (forall b r,
            client.1.1 = inr (b, r) ->
            exists r',
              merge.1.1 = inr (b, r')
              /\ ConflictResolvedResponse.hash r' = ConflictResolvedResponse.hash r
              /\ ConflictResolvedResponse.version r'
                 = ConflictResolvedResponse.version r)).
Proof.
  cbv zeta. split; [|split; [|split]].
  - intros ef Hres Hfind. unfold ConflictHandler.handleResolveConflict.
    rewrite Hres. cbn [String.eqb Ascii.eqb Bool.eqb andb].
    replace (String.eqb "accept-server" "accept-client") with false
      by reflexivity.
    replace (String.eqb "accept-server" "accept-server") with true
      by reflexivity.
    rewrite Hfind. reflexivity.
  - intros Hres Hmissing. unfold ConflictHandler.handleResolveConflict.
    assert (forall expected,
              ConflictHandler.acceptClient cfg resolverNow mtimeNow expected
                message db
              = (inl (invalidMessageFormat "content/hash" None expected), db, []))
      as Hrefused.
    { intros expected. unfold ConflictHandler.acceptClient.
      destruct (ResolveConflictMessage.content message) as [c|]; [|reflexivity].
      destruct Hmissing as [-> | ->]; [reflexivity|].
      now rewrite orb_true_r. }
    destruct Hres as [-> | ->].
    + replace (String.eqb "accept-client" "accept-client") with true
        by reflexivity.
      eexists. apply Hrefused.
    + replace (String.eqb "merge" "accept-client") with false by reflexivity.
      replace (String.eqb "merge" "accept-server") with false by reflexivity.
      replace (String.eqb "merge" "merge") with true by reflexivity.
      eexists. apply Hrefused.
  - intros h h' Hh Hh'. unfold ConflictHandler.handleResolveConflict.
    cbn [ResolveConflictMessage.resolution].
    replace (String.eqb "accept-client" "accept-client") with true
      by reflexivity.
    unfold ConflictHandler.acceptClient.
    cbn [ResolveConflictMessage.content ResolveConflictMessage.hash
         ResolveConflictMessage.vaultId ResolveConflictMessage.deviceId
         ResolveConflictMessage.filePath ResolveConflictMessage.timestamp].
    rewrite !(proj2 (truthy_string_Some _)) by assumption.
    destruct (ResolveConflictMessage.content message) as [c|]; [|reflexivity].
    destruct (truthy_string (Some c)); [|reflexivity].
    cbn [negb orb].
    destruct (SyncService.processFileChange _ _ _ _ _) as [[[e|r] db1] calls];
      reflexivity.
  - unfold ConflictHandler.handleResolveConflict.
    cbn [ResolveConflictMessage.resolution].
    replace (String.eqb "accept-client" "accept-client") with true
      by reflexivity.
    replace (String.eqb "merge" "accept-client") with false by reflexivity.
    replace (String.eqb "merge" "accept-server") with false by reflexivity.
    replace (String.eqb "merge" "merge") with true by reflexivity.
    unfold ConflictHandler.acceptClient.
    cbn [ResolveConflictMessage.content ResolveConflictMessage.hash
         ResolveConflictMessage.vaultId ResolveConflictMessage.deviceId
         ResolveConflictMessage.filePath ResolveConflictMessage.timestamp].
    destruct (ResolveConflictMessage.content message) as [c|];
      [|cbn; repeat split; intros b r [=]].
    destruct (negb _ || negb _); [cbn; repeat split; intros b r [=]|].
    destruct (SyncService.processFileChange _ _ _ _ _) as [[[e|r] db1] calls];
      cbn; repeat split; intros b r0 [= <- <-]; eexists; split; reflexivity || auto.
Qed.

Lemma X26_witness :
  ConflictHandler.handleResolveConflict cfg0 9000 9000 keep_server db_note
  = (inr (ConflictHandler.resolved keep_server H2 2), db_note, []).
Proof.
  destruct (X26_resolve_conflict cfg0 9000 9000 keep_server db_note)
    as (Hserver & _).
  exact (Hserver note_v2 eq_refl ltac:(vm_compute; reflexivity)).
Defined.
